(** * book_connections: relation inference and ontology aggregation

    A shallow embedding of the Python modules [relation_extractor.py],
    [ontology_builder.py] and the normalisation step of
    [entity_extractor.py], with the properties of the engine stated and
    proved over it.

    Python values are modelled as follows.
    - [str] is a list of Unicode code points ([pystr]); offsets, slices and
      lengths count code points, as in Python.
    - [int] is [Z]; the [float] literals 0.8, 0.75 and 0.5 are only ever
      stored and copied, and are carried as the rationals they denote.
    - a [dict] whose order of iteration shows in the result is an
      association list in insertion order; a [dict] or [set] that is
      probed, or visited in a way that does not depend on the order, is a
      [gmap] or a [gset].
    - a raised exception is the [Raise] case of [result]. *)

From Stdlib Require Import QArith String Ascii.
From stdpp Require Import gmap list fin_maps list_numbers sorting.

Local Open Scope Z_scope.
Set Warnings "-clear-no-such-hyp".

(** ** Python strings *)

Module PyStr.

Definition pystr := list N.

(** *** Literals: UTF-8 decoding of the source text of a constant *)

Definition byte_of (a : ascii) : N := N_of_ascii a.

Fixpoint bytes_of (s : string) : list N :=
  match s with
  | EmptyString => []
  | String a s' => byte_of a :: bytes_of s'
  end.

(** [utf8_decode] reads one code point per lead byte; continuation bytes
    contribute their low six bits. *)
Fixpoint utf8_decode (bs : list N) : pystr :=
  match bs with
  | [] => []
  | b :: r =>
      if (b <? 128)%N then b :: utf8_decode r
      else if (b <? 224)%N then
        match r with
        | c1 :: r1 => ((b - 192) * 64 + (c1 - 128))%N :: utf8_decode r1
        | _ => []
        end
      else if (b <? 240)%N then
        match r with
        | c1 :: c2 :: r2 =>
            ((b - 224) * 4096 + (c1 - 128) * 64 + (c2 - 128))%N :: utf8_decode r2
        | _ => []
        end
      else
        match r with
        | c1 :: c2 :: c3 :: r3 =>
            ((b - 240) * 262144 + (c1 - 128) * 4096 + (c2 - 128) * 64 + (c3 - 128))%N
              :: utf8_decode r3
        | _ => []
        end
  end.

Definition u (s : string) : pystr := utf8_decode (bytes_of s).

(** *** Character classes

    [str.lower], [str.upper] and [str.isupper] are the interpreter's, which
    takes them from the Unicode character database (version 14.0.0 in
    CPython 3.11): the full case mappings, which send some code points to
    several, and for the capital sigma the rule of the final sigma. The
    tables list ranges [(lo, hi, step)]: the code points [lo], [lo + step]
    and so on, up to [hi]. *)

Definition in_range (c : N) (r : N * N * N) : bool :=
  let '(lo, hi, step) := r in
  ((lo <=? c) && (c <=? hi) && ((c - lo) mod step =? 0))%N.

Definition in_table (t : list (N * N * N)) (c : N) : bool :=
  existsb (in_range c) t.

Definition map_table (t : list (N * N * N * N)) (c : N) : option N :=
  match List.find (λ e, in_range c e.1) t with
  | Some (lo, _, _, image) => Some (image + (c - lo))%N
  | None => None
  end.

Definition special (t : list (N * list N)) (c : N) : option (list N) :=
  snd <$> List.find (λ e, (e.1 =? c)%N) t.

(** The code points with the property Uppercase, for which [str.isupper]
    holds of a one-character string. *)
Definition uppercase_table : list (N * N * N) :=
  [(65, 90, 1); (192, 214, 1); (216, 222, 1); (256, 310, 2); (313, 327, 2);
   (330, 376, 2); (377, 381, 2); (385, 386, 1); (388, 390, 2); (391, 393, 2);
   (394, 395, 1); (398, 401, 1); (403, 404, 1); (406, 408, 1); (412, 413, 1);
   (415, 416, 1); (418, 422, 2); (423, 425, 2); (428, 430, 2); (431, 433, 2);
   (434, 435, 1); (437, 439, 2); (440, 440, 1); (444, 444, 1); (452, 452, 1);
   (455, 455, 1); (458, 458, 1); (461, 475, 2); (478, 494, 2); (497, 497, 1);
   (500, 502, 2); (503, 504, 1); (506, 562, 2); (570, 571, 1); (573, 574, 1);
   (577, 579, 2); (580, 582, 1); (584, 590, 2); (880, 882, 2); (886, 886, 1);
   (895, 895, 1); (902, 904, 2); (905, 906, 1); (908, 910, 2); (911, 913, 2);
   (914, 929, 1); (931, 939, 1); (975, 975, 1); (978, 980, 1); (984, 1006,
   2); (1012, 1012, 1); (1015, 1017, 2); (1018, 1018, 1); (1021, 1071, 1);
   (1120, 1152, 2); (1162, 1216, 2); (1217, 1229, 2); (1232, 1326, 2); (1329,
   1366, 1); (4256, 4293, 1); (4295, 4295, 1); (4301, 4301, 1); (5024, 5109,
   1); (7312, 7354, 1); (7357, 7359, 1); (7680, 7828, 2); (7838, 7934, 2);
   (7944, 7951, 1); (7960, 7965, 1); (7976, 7983, 1); (7992, 7999, 1); (8008,
   8013, 1); (8025, 8031, 2); (8040, 8047, 1); (8120, 8123, 1); (8136, 8139,
   1); (8152, 8155, 1); (8168, 8172, 1); (8184, 8187, 1); (8450, 8450, 1);
   (8455, 8455, 1); (8459, 8461, 1); (8464, 8466, 1); (8469, 8469, 1); (8473,
   8477, 1); (8484, 8490, 2); (8491, 8493, 1); (8496, 8499, 1); (8510, 8511,
   1); (8517, 8517, 1); (8544, 8559, 1); (8579, 8579, 1); (9398, 9423, 1);
   (11264, 11311, 1); (11360, 11362, 2); (11363, 11364, 1); (11367, 11373,
   2); (11374, 11376, 1); (11378, 11378, 1); (11381, 11381, 1); (11390,
   11392, 1); (11394, 11490, 2); (11499, 11501, 2); (11506, 11506, 1);
   (42560, 42604, 2); (42624, 42650, 2); (42786, 42798, 2); (42802, 42862,
   2); (42873, 42877, 2); (42878, 42886, 2); (42891, 42893, 2); (42896,
   42898, 2); (42902, 42922, 2); (42923, 42926, 1); (42928, 42932, 1);
   (42934, 42948, 2); (42949, 42951, 1); (42953, 42953, 1); (42960, 42960,
   1); (42966, 42968, 2); (42997, 42997, 1); (65313, 65338, 1); (66560,
   66599, 1); (66736, 66771, 1); (66928, 66938, 1); (66940, 66954, 1);
   (66956, 66962, 1); (66964, 66965, 1); (68736, 68786, 1); (71840, 71871,
   1); (93760, 93791, 1); (119808, 119833, 1); (119860, 119885, 1); (119912,
   119937, 1); (119964, 119966, 2); (119967, 119967, 1); (119970, 119970, 1);
   (119973, 119974, 1); (119977, 119980, 1); (119982, 119989, 1); (120016,
   120041, 1); (120068, 120069, 1); (120071, 120074, 1); (120077, 120084, 1);
   (120086, 120092, 1); (120120, 120121, 1); (120123, 120126, 1); (120128,
   120132, 1); (120134, 120134, 1); (120138, 120144, 1); (120172, 120197, 1);
   (120224, 120249, 1); (120276, 120301, 1); (120328, 120353, 1); (120380,
   120405, 1); (120432, 120457, 1); (120488, 120512, 1); (120546, 120570, 1);
   (120604, 120628, 1); (120662, 120686, 1); (120720, 120744, 1); (120778,
   120778, 1); (125184, 125217, 1); (127280, 127305, 1); (127312, 127337, 1);
   (127344, 127369, 1)]%N.

(** The code points with the property Cased. *)
Definition cased_table : list (N * N * N) :=
  [(65, 90, 1); (97, 122, 1); (170, 170, 1); (181, 181, 1); (186, 186, 1);
   (192, 214, 1); (216, 246, 1); (248, 442, 1); (444, 447, 1); (452, 659, 1);
   (661, 696, 1); (704, 705, 1); (736, 740, 1); (837, 837, 1); (880, 883, 1);
   (886, 887, 1); (890, 893, 1); (895, 895, 1); (902, 904, 2); (905, 906, 1);
   (908, 910, 2); (911, 929, 1); (931, 1013, 1); (1015, 1153, 1); (1162,
   1327, 1); (1329, 1366, 1); (1376, 1416, 1); (4256, 4293, 1); (4295, 4295,
   1); (4301, 4301, 1); (4304, 4346, 1); (4349, 4351, 1); (5024, 5109, 1);
   (5112, 5117, 1); (7296, 7304, 1); (7312, 7354, 1); (7357, 7359, 1); (7424,
   7615, 1); (7680, 7957, 1); (7960, 7965, 1); (7968, 8005, 1); (8008, 8013,
   1); (8016, 8023, 1); (8025, 8031, 2); (8032, 8061, 1); (8064, 8116, 1);
   (8118, 8124, 1); (8126, 8126, 1); (8130, 8132, 1); (8134, 8140, 1); (8144,
   8147, 1); (8150, 8155, 1); (8160, 8172, 1); (8178, 8180, 1); (8182, 8188,
   1); (8305, 8305, 1); (8319, 8319, 1); (8336, 8348, 1); (8450, 8450, 1);
   (8455, 8455, 1); (8458, 8467, 1); (8469, 8469, 1); (8473, 8477, 1); (8484,
   8490, 2); (8491, 8493, 1); (8495, 8500, 1); (8505, 8505, 1); (8508, 8511,
   1); (8517, 8521, 1); (8526, 8526, 1); (8544, 8575, 1); (8579, 8580, 1);
   (9398, 9449, 1); (11264, 11492, 1); (11499, 11502, 1); (11506, 11507, 1);
   (11520, 11557, 1); (11559, 11559, 1); (11565, 11565, 1); (42560, 42605,
   1); (42624, 42653, 1); (42786, 42887, 1); (42891, 42894, 1); (42896,
   42954, 1); (42960, 42961, 1); (42963, 42965, 2); (42966, 42969, 1);
   (42997, 42998, 1); (43000, 43002, 1); (43824, 43866, 1); (43868, 43880,
   1); (43888, 43967, 1); (64256, 64262, 1); (64275, 64279, 1); (65313,
   65338, 1); (65345, 65370, 1); (66560, 66639, 1); (66736, 66771, 1);
   (66776, 66811, 1); (66928, 66938, 1); (66940, 66954, 1); (66956, 66962,
   1); (66964, 66965, 1); (66967, 66977, 1); (66979, 66993, 1); (66995,
   67001, 1); (67003, 67004, 1); (67456, 67456, 1); (67459, 67461, 1);
   (67463, 67504, 1); (67506, 67514, 1); (68736, 68786, 1); (68800, 68850,
   1); (71840, 71903, 1); (93760, 93823, 1); (119808, 119892, 1); (119894,
   119964, 1); (119966, 119967, 1); (119970, 119970, 1); (119973, 119974, 1);
   (119977, 119980, 1); (119982, 119993, 1); (119995, 119997, 2); (119998,
   120003, 1); (120005, 120069, 1); (120071, 120074, 1); (120077, 120084, 1);
   (120086, 120092, 1); (120094, 120121, 1); (120123, 120126, 1); (120128,
   120132, 1); (120134, 120134, 1); (120138, 120144, 1); (120146, 120485, 1);
   (120488, 120512, 1); (120514, 120538, 1); (120540, 120570, 1); (120572,
   120596, 1); (120598, 120628, 1); (120630, 120654, 1); (120656, 120686, 1);
   (120688, 120712, 1); (120714, 120744, 1); (120746, 120770, 1); (120772,
   120779, 1); (122624, 122633, 1); (122635, 122654, 1); (125184, 125251, 1);
   (127280, 127305, 1); (127312, 127337, 1); (127344, 127369, 1)]%N.

(** The code points with the property Case_Ignorable. *)
Definition case_ignorable_table : list (N * N * N) :=
  [(39, 39, 1); (46, 46, 1); (58, 58, 1); (94, 96, 2); (168, 168, 1); (173,
   175, 2); (180, 180, 1); (183, 184, 1); (688, 879, 1); (884, 885, 1); (890,
   890, 1); (900, 901, 1); (903, 903, 1); (1155, 1161, 1); (1369, 1369, 1);
   (1375, 1375, 1); (1425, 1469, 1); (1471, 1473, 2); (1474, 1476, 2); (1477,
   1479, 2); (1524, 1524, 1); (1536, 1541, 1); (1552, 1562, 1); (1564, 1564,
   1); (1600, 1600, 1); (1611, 1631, 1); (1648, 1648, 1); (1750, 1757, 1);
   (1759, 1768, 1); (1770, 1773, 1); (1807, 1809, 2); (1840, 1866, 1); (1958,
   1968, 1); (2027, 2037, 1); (2042, 2042, 1); (2045, 2045, 1); (2070, 2093,
   1); (2137, 2139, 1); (2184, 2184, 1); (2192, 2193, 1); (2200, 2207, 1);
   (2249, 2306, 1); (2362, 2364, 2); (2369, 2376, 1); (2381, 2381, 1); (2385,
   2391, 1); (2402, 2403, 1); (2417, 2417, 1); (2433, 2433, 1); (2492, 2492,
   1); (2497, 2500, 1); (2509, 2509, 1); (2530, 2531, 1); (2558, 2558, 1);
   (2561, 2562, 1); (2620, 2620, 1); (2625, 2626, 1); (2631, 2632, 1); (2635,
   2637, 1); (2641, 2641, 1); (2672, 2673, 1); (2677, 2677, 1); (2689, 2690,
   1); (2748, 2748, 1); (2753, 2757, 1); (2759, 2760, 1); (2765, 2765, 1);
   (2786, 2787, 1); (2810, 2815, 1); (2817, 2817, 1); (2876, 2876, 1); (2879,
   2881, 2); (2882, 2884, 1); (2893, 2893, 1); (2901, 2902, 1); (2914, 2915,
   1); (2946, 2946, 1); (3008, 3008, 1); (3021, 3021, 1); (3072, 3072, 1);
   (3076, 3076, 1); (3132, 3134, 2); (3135, 3136, 1); (3142, 3144, 1); (3146,
   3149, 1); (3157, 3158, 1); (3170, 3171, 1); (3201, 3201, 1); (3260, 3260,
   1); (3263, 3263, 1); (3270, 3270, 1); (3276, 3277, 1); (3298, 3299, 1);
   (3328, 3329, 1); (3387, 3388, 1); (3393, 3396, 1); (3405, 3405, 1); (3426,
   3427, 1); (3457, 3457, 1); (3530, 3530, 1); (3538, 3540, 1); (3542, 3542,
   1); (3633, 3633, 1); (3636, 3642, 1); (3654, 3662, 1); (3761, 3761, 1);
   (3764, 3772, 1); (3782, 3784, 2); (3785, 3789, 1); (3864, 3865, 1); (3893,
   3897, 2); (3953, 3966, 1); (3968, 3972, 1); (3974, 3975, 1); (3981, 3991,
   1); (3993, 4028, 1); (4038, 4038, 1); (4141, 4144, 1); (4146, 4151, 1);
   (4153, 4154, 1); (4157, 4158, 1); (4184, 4185, 1); (4190, 4192, 1); (4209,
   4212, 1); (4226, 4226, 1); (4229, 4230, 1); (4237, 4237, 1); (4253, 4253,
   1); (4348, 4348, 1); (4957, 4959, 1); (5906, 5908, 1); (5938, 5939, 1);
   (5970, 5971, 1); (6002, 6003, 1); (6068, 6069, 1); (6071, 6077, 1); (6086,
   6086, 1); (6089, 6099, 1); (6103, 6103, 1); (6109, 6109, 1); (6155, 6159,
   1); (6211, 6211, 1); (6277, 6278, 1); (6313, 6313, 1); (6432, 6434, 1);
   (6439, 6440, 1); (6450, 6450, 1); (6457, 6459, 1); (6679, 6680, 1); (6683,
   6683, 1); (6742, 6744, 2); (6745, 6750, 1); (6752, 6754, 2); (6757, 6764,
   1); (6771, 6780, 1); (6783, 6783, 1); (6823, 6823, 1); (6832, 6862, 1);
   (6912, 6915, 1); (6964, 6966, 2); (6967, 6970, 1); (6972, 6972, 1); (6978,
   6978, 1); (7019, 7027, 1); (7040, 7041, 1); (7074, 7077, 1); (7080, 7081,
   1); (7083, 7085, 1); (7142, 7144, 2); (7145, 7145, 1); (7149, 7151, 2);
   (7152, 7153, 1); (7212, 7219, 1); (7222, 7223, 1); (7288, 7293, 1); (7376,
   7378, 1); (7380, 7392, 1); (7394, 7400, 1); (7405, 7405, 1); (7412, 7412,
   1); (7416, 7417, 1); (7468, 7530, 1); (7544, 7544, 1); (7579, 7679, 1);
   (8125, 8127, 2); (8128, 8129, 1); (8141, 8143, 1); (8157, 8159, 1); (8173,
   8175, 1); (8189, 8190, 1); (8203, 8207, 1); (8216, 8217, 1); (8228, 8228,
   1); (8231, 8231, 1); (8234, 8238, 1); (8288, 8292, 1); (8294, 8303, 1);
   (8305, 8305, 1); (8319, 8319, 1); (8336, 8348, 1); (8400, 8432, 1);
   (11388, 11389, 1); (11503, 11505, 1); (11631, 11631, 1); (11647, 11647,
   1); (11744, 11775, 1); (11823, 11823, 1); (12293, 12293, 1); (12330,
   12333, 1); (12337, 12341, 1); (12347, 12347, 1); (12441, 12446, 1);
   (12540, 12542, 1); (40981, 40981, 1); (42232, 42237, 1); (42508, 42508,
   1); (42607, 42610, 1); (42612, 42621, 1); (42623, 42623, 1); (42652,
   42655, 1); (42736, 42737, 1); (42752, 42785, 1); (42864, 42864, 1);
   (42888, 42890, 1); (42994, 42996, 1); (43000, 43001, 1); (43010, 43010,
   1); (43014, 43014, 1); (43019, 43019, 1); (43045, 43046, 1); (43052,
   43052, 1); (43204, 43205, 1); (43232, 43249, 1); (43263, 43263, 1);
   (43302, 43309, 1); (43335, 43345, 1); (43392, 43394, 1); (43443, 43443,
   1); (43446, 43449, 1); (43452, 43453, 1); (43471, 43471, 1); (43493,
   43494, 1); (43561, 43566, 1); (43569, 43570, 1); (43573, 43574, 1);
   (43587, 43587, 1); (43596, 43596, 1); (43632, 43632, 1); (43644, 43644,
   1); (43696, 43698, 2); (43699, 43700, 1); (43703, 43704, 1); (43710,
   43711, 1); (43713, 43713, 1); (43741, 43741, 1); (43756, 43757, 1);
   (43763, 43764, 1); (43766, 43766, 1); (43867, 43871, 1); (43881, 43883,
   1); (44005, 44005, 1); (44008, 44008, 1); (44013, 44013, 1); (64286,
   64286, 1); (64434, 64450, 1); (65024, 65039, 1); (65043, 65043, 1);
   (65056, 65071, 1); (65106, 65106, 1); (65109, 65109, 1); (65279, 65279,
   1); (65287, 65287, 1); (65294, 65294, 1); (65306, 65306, 1); (65342,
   65344, 2); (65392, 65392, 1); (65438, 65439, 1); (65507, 65507, 1);
   (65529, 65531, 1); (66045, 66045, 1); (66272, 66272, 1); (66422, 66426,
   1); (67456, 67461, 1); (67463, 67504, 1); (67506, 67514, 1); (68097,
   68099, 1); (68101, 68102, 1); (68108, 68111, 1); (68152, 68154, 1);
   (68159, 68159, 1); (68325, 68326, 1); (68900, 68903, 1); (69291, 69292,
   1); (69446, 69456, 1); (69506, 69509, 1); (69633, 69633, 1); (69688,
   69702, 1); (69744, 69744, 1); (69747, 69748, 1); (69759, 69761, 1);
   (69811, 69814, 1); (69817, 69818, 1); (69821, 69821, 1); (69826, 69826,
   1); (69837, 69837, 1); (69888, 69890, 1); (69927, 69931, 1); (69933,
   69940, 1); (70003, 70003, 1); (70016, 70017, 1); (70070, 70078, 1);
   (70089, 70092, 1); (70095, 70095, 1); (70191, 70193, 1); (70196, 70198,
   2); (70199, 70199, 1); (70206, 70206, 1); (70367, 70367, 1); (70371,
   70378, 1); (70400, 70401, 1); (70459, 70460, 1); (70464, 70464, 1);
   (70502, 70508, 1); (70512, 70516, 1); (70712, 70719, 1); (70722, 70724,
   1); (70726, 70726, 1); (70750, 70750, 1); (70835, 70840, 1); (70842,
   70842, 1); (70847, 70848, 1); (70850, 70851, 1); (71090, 71093, 1);
   (71100, 71101, 1); (71103, 71104, 1); (71132, 71133, 1); (71219, 71226,
   1); (71229, 71231, 2); (71232, 71232, 1); (71339, 71341, 2); (71344,
   71349, 1); (71351, 71351, 1); (71453, 71455, 1); (71458, 71461, 1);
   (71463, 71467, 1); (71727, 71735, 1); (71737, 71738, 1); (71995, 71996,
   1); (71998, 71998, 1); (72003, 72003, 1); (72148, 72151, 1); (72154,
   72155, 1); (72160, 72160, 1); (72193, 72202, 1); (72243, 72248, 1);
   (72251, 72254, 1); (72263, 72263, 1); (72273, 72278, 1); (72281, 72283,
   1); (72330, 72342, 1); (72344, 72345, 1); (72752, 72758, 1); (72760,
   72765, 1); (72767, 72767, 1); (72850, 72871, 1); (72874, 72880, 1);
   (72882, 72883, 1); (72885, 72886, 1); (73009, 73014, 1); (73018, 73020,
   2); (73021, 73023, 2); (73024, 73029, 1); (73031, 73031, 1); (73104,
   73105, 1); (73109, 73111, 2); (73459, 73460, 1); (78896, 78904, 1);
   (92912, 92916, 1); (92976, 92982, 1); (92992, 92995, 1); (94031, 94031,
   1); (94095, 94111, 1); (94176, 94177, 1); (94179, 94180, 1); (110576,
   110579, 1); (110581, 110587, 1); (110589, 110590, 1); (113821, 113822, 1);
   (113824, 113827, 1); (118528, 118573, 1); (118576, 118598, 1); (119143,
   119145, 1); (119155, 119170, 1); (119173, 119179, 1); (119210, 119213, 1);
   (119362, 119364, 1); (121344, 121398, 1); (121403, 121452, 1); (121461,
   121461, 1); (121476, 121476, 1); (121499, 121503, 1); (121505, 121519, 1);
   (122880, 122886, 1); (122888, 122904, 1); (122907, 122913, 1); (122915,
   122916, 1); (122918, 122922, 1); (123184, 123197, 1); (123566, 123566, 1);
   (123628, 123631, 1); (125136, 125142, 1); (125252, 125259, 1); (127995,
   127999, 1); (917505, 917505, 1); (917536, 917631, 1); (917760, 917999, 1)]%N.

(** The lower-case mappings to one code point: [(lo, hi, step, image)] sends
    [lo] to [image], and the code points of the range as far from [image] as
    they are from [lo]. *)
Definition lower_table : list (N * N * N * N) :=
  [(65, 90, 1, 97); (192, 214, 1, 224); (216, 222, 1, 248); (256, 302, 2,
   257); (306, 310, 2, 307); (313, 327, 2, 314); (330, 374, 2, 331); (376,
   376, 1, 255); (377, 381, 2, 378); (385, 385, 1, 595); (386, 388, 2, 387);
   (390, 390, 1, 596); (391, 391, 1, 392); (393, 394, 1, 598); (395, 395, 1,
   396); (398, 398, 1, 477); (399, 399, 1, 601); (400, 400, 1, 603); (401,
   401, 1, 402); (403, 403, 1, 608); (404, 404, 1, 611); (406, 406, 1, 617);
   (407, 407, 1, 616); (408, 408, 1, 409); (412, 412, 1, 623); (413, 413, 1,
   626); (415, 415, 1, 629); (416, 420, 2, 417); (422, 422, 1, 640); (423,
   423, 1, 424); (425, 425, 1, 643); (428, 428, 1, 429); (430, 430, 1, 648);
   (431, 431, 1, 432); (433, 434, 1, 650); (435, 437, 2, 436); (439, 439, 1,
   658); (440, 440, 1, 441); (444, 444, 1, 445); (452, 452, 1, 454); (453,
   453, 1, 454); (455, 455, 1, 457); (456, 456, 1, 457); (458, 458, 1, 460);
   (459, 475, 2, 460); (478, 494, 2, 479); (497, 497, 1, 499); (498, 500, 2,
   499); (502, 502, 1, 405); (503, 503, 1, 447); (504, 542, 2, 505); (544,
   544, 1, 414); (546, 562, 2, 547); (570, 570, 1, 11365); (571, 571, 1,
   572); (573, 573, 1, 410); (574, 574, 1, 11366); (577, 577, 1, 578); (579,
   579, 1, 384); (580, 580, 1, 649); (581, 581, 1, 652); (582, 590, 2, 583);
   (880, 882, 2, 881); (886, 886, 1, 887); (895, 895, 1, 1011); (902, 902, 1,
   940); (904, 906, 1, 941); (908, 908, 1, 972); (910, 911, 1, 973); (913,
   929, 1, 945); (931, 939, 1, 963); (975, 975, 1, 983); (984, 1006, 2, 985);
   (1012, 1012, 1, 952); (1015, 1015, 1, 1016); (1017, 1017, 1, 1010); (1018,
   1018, 1, 1019); (1021, 1023, 1, 891); (1024, 1039, 1, 1104); (1040, 1071,
   1, 1072); (1120, 1152, 2, 1121); (1162, 1214, 2, 1163); (1216, 1216, 1,
   1231); (1217, 1229, 2, 1218); (1232, 1326, 2, 1233); (1329, 1366, 1,
   1377); (4256, 4293, 1, 11520); (4295, 4295, 1, 11559); (4301, 4301, 1,
   11565); (5024, 5103, 1, 43888); (5104, 5109, 1, 5112); (7312, 7354, 1,
   4304); (7357, 7359, 1, 4349); (7680, 7828, 2, 7681); (7838, 7838, 1, 223);
   (7840, 7934, 2, 7841); (7944, 7951, 1, 7936); (7960, 7965, 1, 7952);
   (7976, 7983, 1, 7968); (7992, 7999, 1, 7984); (8008, 8013, 1, 8000);
   (8025, 8031, 2, 8017); (8040, 8047, 1, 8032); (8072, 8079, 1, 8064);
   (8088, 8095, 1, 8080); (8104, 8111, 1, 8096); (8120, 8121, 1, 8112);
   (8122, 8123, 1, 8048); (8124, 8124, 1, 8115); (8136, 8139, 1, 8050);
   (8140, 8140, 1, 8131); (8152, 8153, 1, 8144); (8154, 8155, 1, 8054);
   (8168, 8169, 1, 8160); (8170, 8171, 1, 8058); (8172, 8172, 1, 8165);
   (8184, 8185, 1, 8056); (8186, 8187, 1, 8060); (8188, 8188, 1, 8179);
   (8486, 8486, 1, 969); (8490, 8490, 1, 107); (8491, 8491, 1, 229); (8498,
   8498, 1, 8526); (8544, 8559, 1, 8560); (8579, 8579, 1, 8580); (9398, 9423,
   1, 9424); (11264, 11311, 1, 11312); (11360, 11360, 1, 11361); (11362,
   11362, 1, 619); (11363, 11363, 1, 7549); (11364, 11364, 1, 637); (11367,
   11371, 2, 11368); (11373, 11373, 1, 593); (11374, 11374, 1, 625); (11375,
   11375, 1, 592); (11376, 11376, 1, 594); (11378, 11378, 1, 11379); (11381,
   11381, 1, 11382); (11390, 11391, 1, 575); (11392, 11490, 2, 11393);
   (11499, 11501, 2, 11500); (11506, 11506, 1, 11507); (42560, 42604, 2,
   42561); (42624, 42650, 2, 42625); (42786, 42798, 2, 42787); (42802, 42862,
   2, 42803); (42873, 42875, 2, 42874); (42877, 42877, 1, 7545); (42878,
   42886, 2, 42879); (42891, 42891, 1, 42892); (42893, 42893, 1, 613);
   (42896, 42898, 2, 42897); (42902, 42920, 2, 42903); (42922, 42922, 1,
   614); (42923, 42923, 1, 604); (42924, 42924, 1, 609); (42925, 42925, 1,
   620); (42926, 42926, 1, 618); (42928, 42928, 1, 670); (42929, 42929, 1,
   647); (42930, 42930, 1, 669); (42931, 42931, 1, 43859); (42932, 42946, 2,
   42933); (42948, 42948, 1, 42900); (42949, 42949, 1, 642); (42950, 42950,
   1, 7566); (42951, 42953, 2, 42952); (42960, 42960, 1, 42961); (42966,
   42968, 2, 42967); (42997, 42997, 1, 42998); (65313, 65338, 1, 65345);
   (66560, 66599, 1, 66600); (66736, 66771, 1, 66776); (66928, 66938, 1,
   66967); (66940, 66954, 1, 66979); (66956, 66962, 1, 66995); (66964, 66965,
   1, 67003); (68736, 68786, 1, 68800); (71840, 71871, 1, 71872); (93760,
   93791, 1, 93792); (125184, 125217, 1, 125218)]%N.

(** The lower-case mappings to several code points. *)
Definition lower_special : list (N * list N) :=
  [(304, [105; 775])]%N.

(** The upper-case mappings to one code point. *)
Definition upper_table : list (N * N * N * N) :=
  [(97, 122, 1, 65); (181, 181, 1, 924); (224, 246, 1, 192); (248, 254, 1,
   216); (255, 255, 1, 376); (257, 303, 2, 256); (305, 305, 1, 73); (307,
   311, 2, 306); (314, 328, 2, 313); (331, 375, 2, 330); (378, 382, 2, 377);
   (383, 383, 1, 83); (384, 384, 1, 579); (387, 389, 2, 386); (392, 392, 1,
   391); (396, 396, 1, 395); (402, 402, 1, 401); (405, 405, 1, 502); (409,
   409, 1, 408); (410, 410, 1, 573); (414, 414, 1, 544); (417, 421, 2, 416);
   (424, 424, 1, 423); (429, 429, 1, 428); (432, 432, 1, 431); (436, 438, 2,
   435); (441, 441, 1, 440); (445, 445, 1, 444); (447, 447, 1, 503); (453,
   453, 1, 452); (454, 454, 1, 452); (456, 456, 1, 455); (457, 457, 1, 455);
   (459, 459, 1, 458); (460, 460, 1, 458); (462, 476, 2, 461); (477, 477, 1,
   398); (479, 495, 2, 478); (498, 498, 1, 497); (499, 499, 1, 497); (501,
   501, 1, 500); (505, 543, 2, 504); (547, 563, 2, 546); (572, 572, 1, 571);
   (575, 576, 1, 11390); (578, 578, 1, 577); (583, 591, 2, 582); (592, 592,
   1, 11375); (593, 593, 1, 11373); (594, 594, 1, 11376); (595, 595, 1, 385);
   (596, 596, 1, 390); (598, 599, 1, 393); (601, 601, 1, 399); (603, 603, 1,
   400); (604, 604, 1, 42923); (608, 608, 1, 403); (609, 609, 1, 42924);
   (611, 611, 1, 404); (613, 613, 1, 42893); (614, 614, 1, 42922); (616, 616,
   1, 407); (617, 617, 1, 406); (618, 618, 1, 42926); (619, 619, 1, 11362);
   (620, 620, 1, 42925); (623, 623, 1, 412); (625, 625, 1, 11374); (626, 626,
   1, 413); (629, 629, 1, 415); (637, 637, 1, 11364); (640, 640, 1, 422);
   (642, 642, 1, 42949); (643, 643, 1, 425); (647, 647, 1, 42929); (648, 648,
   1, 430); (649, 649, 1, 580); (650, 651, 1, 433); (652, 652, 1, 581); (658,
   658, 1, 439); (669, 669, 1, 42930); (670, 670, 1, 42928); (837, 837, 1,
   921); (881, 883, 2, 880); (887, 887, 1, 886); (891, 893, 1, 1021); (940,
   940, 1, 902); (941, 943, 1, 904); (945, 961, 1, 913); (962, 962, 1, 931);
   (963, 971, 1, 931); (972, 972, 1, 908); (973, 974, 1, 910); (976, 976, 1,
   914); (977, 977, 1, 920); (981, 981, 1, 934); (982, 982, 1, 928); (983,
   983, 1, 975); (985, 1007, 2, 984); (1008, 1008, 1, 922); (1009, 1009, 1,
   929); (1010, 1010, 1, 1017); (1011, 1011, 1, 895); (1013, 1013, 1, 917);
   (1016, 1016, 1, 1015); (1019, 1019, 1, 1018); (1072, 1103, 1, 1040);
   (1104, 1119, 1, 1024); (1121, 1153, 2, 1120); (1163, 1215, 2, 1162);
   (1218, 1230, 2, 1217); (1231, 1231, 1, 1216); (1233, 1327, 2, 1232);
   (1377, 1414, 1, 1329); (4304, 4346, 1, 7312); (4349, 4351, 1, 7357);
   (5112, 5117, 1, 5104); (7296, 7296, 1, 1042); (7297, 7297, 1, 1044);
   (7298, 7298, 1, 1054); (7299, 7300, 1, 1057); (7301, 7301, 1, 1058);
   (7302, 7302, 1, 1066); (7303, 7303, 1, 1122); (7304, 7304, 1, 42570);
   (7545, 7545, 1, 42877); (7549, 7549, 1, 11363); (7566, 7566, 1, 42950);
   (7681, 7829, 2, 7680); (7835, 7835, 1, 7776); (7841, 7935, 2, 7840);
   (7936, 7943, 1, 7944); (7952, 7957, 1, 7960); (7968, 7975, 1, 7976);
   (7984, 7991, 1, 7992); (8000, 8005, 1, 8008); (8017, 8023, 2, 8025);
   (8032, 8039, 1, 8040); (8048, 8049, 1, 8122); (8050, 8053, 1, 8136);
   (8054, 8055, 1, 8154); (8056, 8057, 1, 8184); (8058, 8059, 1, 8170);
   (8060, 8061, 1, 8186); (8112, 8113, 1, 8120); (8126, 8126, 1, 921); (8144,
   8145, 1, 8152); (8160, 8161, 1, 8168); (8165, 8165, 1, 8172); (8526, 8526,
   1, 8498); (8560, 8575, 1, 8544); (8580, 8580, 1, 8579); (9424, 9449, 1,
   9398); (11312, 11359, 1, 11264); (11361, 11361, 1, 11360); (11365, 11365,
   1, 570); (11366, 11366, 1, 574); (11368, 11372, 2, 11367); (11379, 11379,
   1, 11378); (11382, 11382, 1, 11381); (11393, 11491, 2, 11392); (11500,
   11502, 2, 11499); (11507, 11507, 1, 11506); (11520, 11557, 1, 4256);
   (11559, 11559, 1, 4295); (11565, 11565, 1, 4301); (42561, 42605, 2,
   42560); (42625, 42651, 2, 42624); (42787, 42799, 2, 42786); (42803, 42863,
   2, 42802); (42874, 42876, 2, 42873); (42879, 42887, 2, 42878); (42892,
   42892, 1, 42891); (42897, 42899, 2, 42896); (42900, 42900, 1, 42948);
   (42903, 42921, 2, 42902); (42933, 42947, 2, 42932); (42952, 42954, 2,
   42951); (42961, 42961, 1, 42960); (42967, 42969, 2, 42966); (42998, 42998,
   1, 42997); (43859, 43859, 1, 42931); (43888, 43967, 1, 5024); (65345,
   65370, 1, 65313); (66600, 66639, 1, 66560); (66776, 66811, 1, 66736);
   (66967, 66977, 1, 66928); (66979, 66993, 1, 66940); (66995, 67001, 1,
   66956); (67003, 67004, 1, 66964); (68800, 68850, 1, 68736); (71872, 71903,
   1, 71840); (93792, 93823, 1, 93760); (125218, 125251, 1, 125184)]%N.

(** The upper-case mappings to several code points. *)
Definition upper_special : list (N * list N) :=
  [(223, [83; 83]); (329, [700; 78]); (496, [74; 780]); (912, [921; 776;
   769]); (944, [933; 776; 769]); (1415, [1333; 1362]); (7830, [72; 817]);
   (7831, [84; 776]); (7832, [87; 778]); (7833, [89; 778]); (7834, [65;
   702]); (8016, [933; 787]); (8018, [933; 787; 768]); (8020, [933; 787;
   769]); (8022, [933; 787; 834]); (8064, [7944; 921]); (8065, [7945; 921]);
   (8066, [7946; 921]); (8067, [7947; 921]); (8068, [7948; 921]); (8069,
   [7949; 921]); (8070, [7950; 921]); (8071, [7951; 921]); (8072, [7944;
   921]); (8073, [7945; 921]); (8074, [7946; 921]); (8075, [7947; 921]);
   (8076, [7948; 921]); (8077, [7949; 921]); (8078, [7950; 921]); (8079,
   [7951; 921]); (8080, [7976; 921]); (8081, [7977; 921]); (8082, [7978;
   921]); (8083, [7979; 921]); (8084, [7980; 921]); (8085, [7981; 921]);
   (8086, [7982; 921]); (8087, [7983; 921]); (8088, [7976; 921]); (8089,
   [7977; 921]); (8090, [7978; 921]); (8091, [7979; 921]); (8092, [7980;
   921]); (8093, [7981; 921]); (8094, [7982; 921]); (8095, [7983; 921]);
   (8096, [8040; 921]); (8097, [8041; 921]); (8098, [8042; 921]); (8099,
   [8043; 921]); (8100, [8044; 921]); (8101, [8045; 921]); (8102, [8046;
   921]); (8103, [8047; 921]); (8104, [8040; 921]); (8105, [8041; 921]);
   (8106, [8042; 921]); (8107, [8043; 921]); (8108, [8044; 921]); (8109,
   [8045; 921]); (8110, [8046; 921]); (8111, [8047; 921]); (8114, [8122;
   921]); (8115, [913; 921]); (8116, [902; 921]); (8118, [913; 834]); (8119,
   [913; 834; 921]); (8124, [913; 921]); (8130, [8138; 921]); (8131, [919;
   921]); (8132, [905; 921]); (8134, [919; 834]); (8135, [919; 834; 921]);
   (8140, [919; 921]); (8146, [921; 776; 768]); (8147, [921; 776; 769]);
   (8150, [921; 834]); (8151, [921; 776; 834]); (8162, [933; 776; 768]);
   (8163, [933; 776; 769]); (8164, [929; 787]); (8166, [933; 834]); (8167,
   [933; 776; 834]); (8178, [8186; 921]); (8179, [937; 921]); (8180, [911;
   921]); (8182, [937; 834]); (8183, [937; 834; 921]); (8188, [937; 921]);
   (64256, [70; 70]); (64257, [70; 73]); (64258, [70; 76]); (64259, [70; 70;
   73]); (64260, [70; 70; 76]); (64261, [83; 84]); (64262, [83; 84]); (64275,
   [1348; 1350]); (64276, [1348; 1333]); (64277, [1348; 1339]); (64278,
   [1358; 1350]); (64279, [1348; 1341])]%N.

(** [chr(c).lower()], the lower case of a code point on its own. *)
Definition lower_cp (c : N) : pystr :=
  match special lower_special c with
  | Some l => l
  | None => [default c (map_table lower_table c)]
  end.

(** [chr(c).upper()] *)
Definition upper_cp (c : N) : pystr :=
  match special upper_special c with
  | Some l => l
  | None => [default c (map_table upper_table c)]
  end.

(** [chr(c).isupper()] *)
Definition isupper_cp (c : N) : bool := in_table uppercase_table c.

Definition is_cased (c : N) : bool := in_table cased_table c.

Definition is_case_ignorable (c : N) : bool :=
  in_table case_ignorable_table c.

Fixpoint skip_case_ignorable (s : pystr) : pystr :=
  match s with
  | c :: s' => if is_case_ignorable c then skip_case_ignorable s' else s
  | [] => []
  end.

(** A capital sigma is final when a cased letter precedes it and none
    follows, case-ignorable code points apart. [before] holds the code
    points before the sigma, the nearest first. *)
Definition final_sigma (before after : pystr) : bool :=
  match skip_case_ignorable before with
  | c :: _ => is_cased c
  | [] => false
  end
  && match skip_case_ignorable after with
     | c :: _ => negb (is_cased c)
     | [] => true
     end.

(** The lower case of [s] when the code points of [before] precede it, the
    nearest first. *)
Fixpoint lower_from (before s : pystr) : pystr :=
  match s with
  | [] => []
  | c :: s' =>
      (if (c =? 931)%N
       then [if final_sigma before s' then 962%N else 963%N]
       else lower_cp c)
      ++ lower_from (c :: before) s'
  end.

(** Python's whitespace ([str.isspace], the separator of [str.split()] and
    [str.strip()], and [\s] of [re] on [str] patterns). *)
Definition is_space (c : N) : bool :=
  (((9 <=? c) && (c <=? 13)) || ((28 <=? c) && (c <=? 32))
   || (c =? 133) || (c =? 160) || (c =? 5760)
   || ((8192 <=? c) && (c <=? 8202))
   || (c =? 8232) || (c =? 8233) || (c =? 8239) || (c =? 8287)
   || (c =? 12288))%N.

(** [s.lower()] *)
Definition lower (s : pystr) : pystr := lower_from [] s.

(** [s.upper()] *)
Definition upper (s : pystr) : pystr := flat_map upper_cp s.

(** [len(s)] *)
Definition len (s : pystr) : Z := Z.of_nat (length s).

(** [bool(s)]: a string is truthy when it is not empty. *)
Definition truthy (s : pystr) : bool :=
  match s with [] => false | _ => true end.

(** *** Searching *)

(** [s.startswith(sub)] *)
Fixpoint startswith (s sub : pystr) : bool :=
  match sub, s with
  | [], _ => true
  | _ :: _, [] => false
  | c :: sub', d :: s' => (c =? d)%N && startswith s' sub'
  end.

(** The scan of [s.find(sub, start)] over the suffix [s] that begins at
    offset [i]. *)
Fixpoint find_aux (sub s : pystr) (i : Z) : Z :=
  if startswith s sub then i
  else match s with
       | [] => -1
       | _ :: s' => find_aux sub s' (i + 1)
       end.

(** Python's adjustment of a slice bound or start offset. *)
Definition norm_index (n i : Z) : Z :=
  if i <? 0 then Z.max 0 (n + i) else Z.min n i.

(** [s.find(sub, start)] *)
Definition find (s sub : pystr) (start : Z) : Z :=
  if len s <? start then -1
  else let a := norm_index (len s) start in
       find_aux sub (drop (Z.to_nat a) s) a.

(** [sub in s] *)
Definition contains (sub s : pystr) : bool :=
  negb (find s sub 0 =? -1).

(** [s[a:b]] *)
Definition slice (s : pystr) (a b : Z) : pystr :=
  let a' := norm_index (len s) a in
  let b' := norm_index (len s) b in
  take (Z.to_nat (b' - a')) (drop (Z.to_nat a') s).

(** *** Trimming and splitting *)

Fixpoint lstrip (s : pystr) : pystr :=
  match s with
  | c :: s' => if is_space c then lstrip s' else s
  | [] => []
  end.

(** [s.rstrip(chars)] for a predicate on code points. *)
Fixpoint rstrip_with (p : N → bool) (s : pystr) : pystr :=
  match s with
  | [] => []
  | c :: s' =>
      match rstrip_with p s' with
      | [] => if p c then [] else [c]
      | r => c :: r
      end
  end.

(** [s.strip()] *)
Definition strip (s : pystr) : pystr := rstrip_with is_space (lstrip s).

(** [s.rstrip(chars)] *)
Definition rstrip (s chars : pystr) : pystr :=
  rstrip_with (λ c, bool_decide (c ∈ chars)) s.

(** The loop of [re.split] on a one-character-class pattern repeated with
    [+]: [cur] is the piece being read, in reverse; [sep] tells whether the
    previous character was a separator. Empty leading and trailing pieces
    are produced, as [re.split] does. *)
Fixpoint split_on (p : N → bool) (s : pystr) (cur : pystr) (sep : bool)
  : list pystr :=
  match s with
  | [] => [reverse cur]
  | c :: s' =>
      if p c then
        if sep then split_on p s' cur true
        else reverse cur :: split_on p s' [] true
      else split_on p s' (c :: cur) false
  end.

Definition re_split (p : N → bool) (s : pystr) : list pystr :=
  split_on p s [] false.

(** [s.split()]: the maximal runs of non-whitespace characters; [cur] is
    the run being read, in reverse. *)
Fixpoint split_ws (s : pystr) (cur : pystr) : list pystr :=
  match s with
  | [] => match cur with [] => [] | _ => [reverse cur] end
  | c :: s' =>
      if is_space c then
        match cur with
        | [] => split_ws s' []
        | _ => reverse cur :: split_ws s' []
        end
      else split_ws s' (c :: cur)
  end.

Definition split (s : pystr) : list pystr := split_ws s [].

(** [sep.join(ws)] *)
Fixpoint join (sep : pystr) (ws : list pystr) : pystr :=
  match ws with
  | [] => []
  | [w] => w
  | w :: ws' => w ++ sep ++ join sep ws'
  end.

End PyStr.

Export PyStr.

(** ** Exceptions *)

Inductive exn := IndexError | AttributeError.

Inductive result (A : Type) :=
  | Ok (a : A)
  | Raise (e : exn).
Arguments Ok {A} a.
Arguments Raise {A} e.

#[global] Instance result_ret : MRet result := λ A a, Ok a.
#[global] Instance result_bind : MBind result := λ A B f m,
  match m with
  | Ok a => f a
  | Raise e => Raise e
  end.

(** A loop whose body appends to one list and may raise. *)
Fixpoint flat_mapM {A B} (f : A → result (list B)) (l : list A)
  : result (list B) :=
  match l with
  | [] => Ok []
  | a :: l' => bs ← f a; bs' ← flat_mapM f l'; Ok (bs ++ bs')
  end.

(** ** The data model *)

(** An entity mention, the dict built by [extract_entities]: every such
    dict carries [text], [start], [end] and [normalized], so the defaults of
    [person.get('normalized', ...)], [loc.get('normalized', ...)] and
    [entity.get('start', 0)] are never taken; [mentions_count] is added by
    the normaliser. The key [chunks] is never read. *)
Record entity := {
  e_text : pystr;
  e_start : Z;
  e_end : Z;
  e_normalized : pystr;
  e_mentions_count : option Z
}.

(** The mapping from entity kind to mentions, in the order of [.items()]. *)
Definition entities := list (pystr * list entity).

(** [d.get(k)] and [d[k] = v] on a dict kept in insertion order. *)
Fixpoint dict_get {V} (d : list (pystr * V)) (k : pystr) : option V :=
  match d with
  | [] => None
  | (k', v) :: d' => if bool_decide (k' = k) then Some v else dict_get d' k
  end.

Fixpoint dict_set {V} (d : list (pystr * V)) (k : pystr) (v : V)
  : list (pystr * V) :=
  match d with
  | [] => [(k, v)]
  | (k', v') :: d' =>
      if bool_decide (k' = k) then (k', v) :: d' else (k', v') :: dict_set d' k v
  end.

(** [entities.get(kind, [])] *)
Definition get_kind (ents : entities) (kind : pystr) : list entity :=
  default [] (dict_get ents kind).

(** A relation dict. [source], [target] and [type] are read with
    [relation[...]]; the other keys are read with [.get] and may be
    absent. *)
Record reldict := {
  r_source : pystr;
  r_target : pystr;
  r_type : pystr;
  r_confidence : option Q;
  r_context : option pystr;
  r_source_type : option pystr;
  r_target_type : option pystr;
  r_is_reverse : option bool
}.

(** The uniqueness key [(source, target, type)]. *)
Definition key : Type := pystr * pystr * pystr.

Definition key_of (r : reldict) : key := (r_source r, r_target r, r_type r).
Definition reverse_key_of (r : reldict) : key := (r_target r, r_source r, r_type r).

Definition RESIDENCE : pystr := u "RESIDENCE".
Definition HAS_RESIDENT : pystr := u "HAS_RESIDENT".
Definition FAMILY : pystr := u "FAMILY".
Definition FRIENDSHIP : pystr := u "FRIENDSHIP".
Definition WORK : pystr := u "WORK".
Definition LOVE : pystr := u "LOVE".
Definition PERSON : pystr := u "PERSON".
Definition LOC : pystr := u "LOC".
Definition ORG : pystr := u "ORG".
Definition UNKNOWN : pystr := u "UNKNOWN".

(** ** relation_extractor.py *)

Module RelationExtractor.

Definition RESIDENCE_KEYWORDS : list pystr :=
  [u "из"; u "в"; u "живёт"; u "живет"; u "проживает"; u "родом";
   u "родился"; u "родилась"; u "уроженец"; u "уроженка"; u "жил";
   u "жила"; u "жили"; u "живут"; u "находится";
   u "from"; u "lives in"; u "born in"; u "from"; u "resides in";
   u "native of"].

Definition FAMILY_KEYWORDS : list pystr :=
  [u "брат"; u "сестра"; u "мать"; u "отец"; u "сын"; u "дочь";
   u "родственники"; u "родственник"; u "семья"; u "родители"; u "дед";
   u "бабушка"; u "внук"; u "внучка"; u "дядя"; u "тётя";
   u "brother"; u "sister"; u "mother"; u "father"; u "son"; u "daughter";
   u "family"; u "relative"; u "parent"; u "grandfather"; u "grandmother";
   u "uncle"; u "aunt"].

Definition FRIENDSHIP_KEYWORDS : list pystr :=
  [u "друзья"; u "друг"; u "подруга"; u "знаком"; u "встретил";
   u "встретила"; u "знал"; u "знала";
   u "friends"; u "friend"; u "met"; u "know"; u "knew"; u "acquaintance"].

Definition WORK_KEYWORDS : list pystr :=
  [u "коллеги"; u "коллега"; u "работал"; u "работала"; u "начальник";
   u "подчинённый";
   u "colleagues"; u "colleague"; u "worked"; u "boss"; u "employee";
   u "manager"].

Definition LOVE_KEYWORDS : list pystr :=
  [u "любовь"; u "любит"; u "любила"; u "женат"; u "замужем"; u "жена";
   u "муж"; u "влюблён";
   u "love"; u "loves"; u "married"; u "wife"; u "husband"; u "in love"].

(** *** [_find_all_positions] *)

(** The [while True] loop: [start] only grows, so [fuel] bounds the number
    of iterations. *)
Fixpoint find_all_loop (fuel : nat) (text_lower sub_lower : pystr)
    (start : Z) : option (list Z) :=
  match fuel with
  | O => None
  | S fuel' =>
      let pos := find text_lower sub_lower start in
      if pos =? -1 then Some []
      else cons pos <$> find_all_loop fuel' text_lower sub_lower (pos + 1)
  end.

Definition _find_all_positions (text substring : pystr) : list Z :=
  default []
    (find_all_loop (S (S (length (lower text)))) (lower text)
       (lower substring) 0).

(** [sorted(set(xs))] *)
Fixpoint insert_sorted (x : Z) (l : list Z) : list Z :=
  match l with
  | [] => [x]
  | y :: l' =>
      if x <? y then x :: l
      else if x =? y then l
      else y :: insert_sorted x l'
  end.

Definition sorted_set (xs : list Z) : list Z := foldr insert_sorted [] xs.

(** [for variant in variants: if variant: positions.extend(
    self._find_all_positions(text, variant))] *)
Definition positions_of (text : pystr) (variants : list pystr) : list Z :=
  flat_map (λ variant,
    if truthy variant then _find_all_positions text variant else []) variants.

(** [name.split()[0] if name else ''] *)
Definition first_name (name : pystr) : result pystr :=
  if truthy name then
    match split name with
    | w :: _ => Ok w
    | [] => Raise IndexError
    end
  else Ok [].

(** [any(keyword in s for keyword in keywords)] *)
Definition any_keyword (keywords : list pystr) (s : pystr) : bool :=
  existsb (λ keyword, contains keyword s) keywords.

(** The removal of duplicates that ends [_extract_person_location_relations]. *)
Definition unique_step (st : list reldict * gset key) (rel : reldict)
  : list reldict * gset key :=
  let '(unique_relations, seen) := st in
  if bool_decide (key_of rel ∈ seen) then st
  else (unique_relations ++ [rel], {[key_of rel]} ∪ seen).

Definition unique (relations : list reldict) : list reldict :=
  fst (fold_left unique_step relations ([], ∅)).

(** The removal of duplicates that ends [_extract_person_person_relations]:
    a relation is also dropped when its mirror was kept. *)
Definition unique_undirected_step (st : list reldict * gset key)
    (rel : reldict) : list reldict * gset key :=
  let '(unique_relations, seen) := st in
  if negb (bool_decide (key_of rel ∈ seen))
     && negb (bool_decide (reverse_key_of rel ∈ seen))
  then (unique_relations ++ [rel], {[key_of rel]} ∪ seen)
  else st.

Definition unique_undirected (relations : list reldict) : list reldict :=
  fst (fold_left unique_undirected_step relations ([], ∅)).

(** *** [_extract_person_location_relations] *)

Definition case_endings : list pystr :=
  [u "а"; u "е"; u "и"; u "у"; u "ом"; u "ой"; u "е"; u "ами"].

(** The dict [loc_text_variants], in insertion order. *)
Definition loc_text_variants_step (d : list (pystr * entity)) (loc : entity)
  : list (pystr * entity) :=
  let loc_normalized := lower (e_normalized loc) in
  let loc_original := lower (e_text loc) in
  let d := dict_set d loc_normalized loc in
  let d := dict_set d loc_original loc in
  let base := rstrip loc_normalized (u "аеиоуыэюя") in
  if truthy base && negb (bool_decide (base = loc_normalized)) then
    fold_left (λ d ending, dict_set d (base ++ ending) loc) case_endings d
  else d.

Definition loc_text_variants (locations : list entity)
  : list (pystr * entity) :=
  fold_left loc_text_variants_step locations [].

Definition residence (source target : pystr) (confidence : Q)
    (window : pystr) : reldict :=
  {| r_source := source;
     r_target := target;
     r_type := RESIDENCE;
     r_confidence := Some confidence;
     r_context := Some (slice (strip window) 0 150);
     r_source_type := Some PERSON;
     r_target_type := Some LOC;
     r_is_reverse := None |}.

(** [loc_variant in search_window_lower or any(len(part) > 3 and part in
    search_window_lower for part in loc_variant.split())] *)
Definition variant_in_window (loc_variant search_window_lower : pystr)
  : bool :=
  contains loc_variant search_window_lower
  || existsb (λ part, (3 <? len part) && contains part search_window_lower)
       (split loc_variant).

(** Method 1, the body of [for person in persons]. *)
Definition pattern_relations (text : pystr)
    (variants : list (pystr * entity)) (person : entity) : list reldict :=
  let person_name := e_normalized person in
  let context_start := Z.max 0 (e_start person - 300) in
  let context_end := Z.min (len text) (e_end person + 300) in
  let context := slice text context_start context_end in
  let context_lower := lower context in
  flat_map (λ keyword,
    if contains keyword context_lower then
      let keyword_pos := find context_lower keyword 0 in
      let search_window :=
        slice context (Z.max 0 (keyword_pos - 100))
              (Z.min (len context) (keyword_pos + 100)) in
      let search_window_lower := lower search_window in
      match List.find (λ v, variant_in_window (fst v) search_window_lower)
                      variants with
      | Some (_, loc_data) =>
          [residence person_name (e_normalized loc_data) 0.8%Q search_window]
      | None => []
      end
    else []) RESIDENCE_KEYWORDS.

(** The dict [person_name_variants]; it is built and never read, but
    building it evaluates [person_normalized.split()[0]]. *)
Fixpoint person_name_variants (persons : list entity)
    (d : list (pystr * entity)) : result (list (pystr * entity)) :=
  match persons with
  | [] => Ok d
  | person :: persons' =>
      let d := dict_set d (lower (e_normalized person)) person in
      let d := dict_set d (lower (e_text person)) person in
      first ← first_name (e_normalized person);
      person_name_variants persons'
        (if truthy first then dict_set d (lower first) person else d)
  end.

(** The text between two mentions, with 100 characters of padding. *)
Definition between (text : pystr) (p_pos l_pos : Z) : pystr :=
  let min_pos := Z.min p_pos l_pos in
  let max_pos := Z.max p_pos l_pos in
  slice text (Z.max 0 (min_pos - 100)) (Z.min (len text) (max_pos + 100)).

(** Method 2, the body of [for loc in locations]. *)
Definition proximity_relations_loc (text : pystr) (person_name : pystr)
    (person_positions : list Z) (loc : entity) : list reldict :=
  let loc_name := e_normalized loc in
  let loc_original := e_text loc in
  let loc_positions :=
    take 20 (sorted_set (positions_of text [loc_name; loc_original])) in
  flat_map (λ p_pos,
    match List.find (λ l_pos,
            (Z.abs (p_pos - l_pos) <? 200)
            && any_keyword RESIDENCE_KEYWORDS (lower (between text p_pos l_pos)))
          loc_positions with
    | Some l_pos =>
        [residence person_name loc_name 0.75%Q (between text p_pos l_pos)]
    | None => []
    end) person_positions.

(** Method 2, the body of [for person in persons]. *)
Definition proximity_relations (text : pystr) (locations : list entity)
    (person : entity) : result (list reldict) :=
  let person_name := e_normalized person in
  person_first_name ← first_name person_name;
  if negb (truthy person_first_name) then Ok []
  else
    let person_positions :=
      take 20 (sorted_set (positions_of text [person_first_name; person_name])) in
    Ok (flat_map (proximity_relations_loc text person_name person_positions)
                 locations).

Definition _extract_person_location_relations (text : pystr)
    (ents : entities) : result (list reldict) :=
  let persons := get_kind ents PERSON in
  let locations := get_kind ents LOC in
  match persons, locations with
  | [], _ | _, [] => Ok []
  | _, _ =>
      let variants := loc_text_variants locations in
      let relations1 := flat_map (pattern_relations text variants) persons in
      _ ← person_name_variants persons [];
      relations2 ← flat_mapM (proximity_relations text locations) persons;
      Ok (unique (relations1 ++ relations2))
  end.

(** *** [_extract_person_person_relations] *)

Definition relation_types_keywords : list (list pystr * pystr) :=
  [(FAMILY_KEYWORDS, FAMILY); (FRIENDSHIP_KEYWORDS, FRIENDSHIP);
   (WORK_KEYWORDS, WORK); (LOVE_KEYWORDS, LOVE)].

Definition person_relation (source target relation_type window : pystr)
  : reldict :=
  {| r_source := source;
     r_target := target;
     r_type := relation_type;
     r_confidence := Some 0.75%Q;
     r_context := Some (slice (strip window) 0 150);
     r_source_type := Some PERSON;
     r_target_type := Some PERSON;
     r_is_reverse := None |}.

(** [for person2 in persons], left at the first relation appended. *)
Fixpoint second_person (text : pystr) (person1 : entity) (p1_pos : Z)
    (relation_type search_window : pystr) (persons : list entity)
  : result (list reldict) :=
  match persons with
  | [] => Ok []
  | person2 :: persons' =>
      let continue :=
        second_person text person1 p1_pos relation_type search_window persons' in
      if bool_decide (e_normalized person1 = e_normalized person2) then continue
      else
        let p2_name := e_normalized person2 in
        p2_first ← first_name p2_name;
        let p2_variants :=
          [lower p2_name; lower (e_text person2)]
          ++ (if truthy p2_first then [lower p2_first] else []) in
        if negb (truthy p2_first) then continue
        else if existsb (λ variant,
                   truthy variant && contains variant (lower search_window))
                 p2_variants
        then
          let p2_positions :=
            positions_of text [p2_first; p2_name; e_text person2] in
          if existsb (λ p2_pos, Z.abs (p1_pos - p2_pos) <? 600)
                     (take 20 p2_positions)
          then Ok [person_relation (e_normalized person1) p2_name
                                   relation_type search_window]
          else continue
        else continue
  end.

(** The body of [for p1_pos in p1_positions]. *)
Definition keyword_relations (text : pystr) (persons : list entity)
    (person1 : entity) (p1_first : pystr) (p1_pos : Z)
  : result (list reldict) :=
  let context_start := Z.max 0 (p1_pos - 300) in
  let context_end := Z.min (len text) (p1_pos + len p1_first + 300) in
  let context := slice text context_start context_end in
  let context_lower := lower context in
  flat_mapM (λ '(keywords, relation_type),
    flat_mapM (λ keyword,
      if contains keyword context_lower then
        let keyword_pos := find context_lower keyword 0 in
        let search_window :=
          slice context (Z.max 0 (keyword_pos - 150))
                (Z.min (len context) (keyword_pos + 150)) in
        second_person text person1 p1_pos relation_type search_window persons
      else Ok []) keywords) relation_types_keywords.

(** The body of [for person1 in persons]. *)
Definition first_person (text : pystr) (persons : list entity)
    (person1 : entity) : result (list reldict) :=
  let p1_name := e_normalized person1 in
  p1_first ← first_name p1_name;
  let p1_original := e_text person1 in
  if negb (truthy p1_first) then Ok []
  else
    let p1_positions :=
      take 30 (sorted_set (positions_of text [p1_first; p1_name; p1_original])) in
    flat_mapM (keyword_relations text persons person1 p1_first) p1_positions.

Definition _extract_person_person_relations (text : pystr) (ents : entities)
  : result (list reldict) :=
  let persons := get_kind ents PERSON in
  if (length persons <? 2)%nat then Ok []
  else
    relations ← flat_mapM (first_person text persons) persons;
    Ok (unique_undirected relations).

(** *** [_create_bidirectional_relations] *)

Definition bidirectional_map : list (pystr * pystr) :=
  [(RESIDENCE, HAS_RESIDENT); (FAMILY, FAMILY); (FRIENDSHIP, FRIENDSHIP);
   (WORK, WORK); (LOVE, LOVE)].

(** The dict appended for a relation whose mirror is to be created. *)
Definition reverse_relation (relation : reldict) (reverse_type : pystr)
  : reldict :=
  {| r_source := r_target relation;
     r_target := r_source relation;
     r_type := reverse_type;
     r_confidence := Some (default 0.5%Q (r_confidence relation));
     r_context := Some (default [] (r_context relation));
     r_source_type := Some (default UNKNOWN (r_target_type relation));
     r_target_type := Some (default UNKNOWN (r_source_type relation));
     r_is_reverse := Some true |}.

(** One iteration of [for relation in relations], on the pair
    [(all_relations, seen_reverse)]. *)
Definition bidirectional_step (st : list reldict * gset key)
    (relation : reldict) : list reldict * gset key :=
  let '(all_relations, seen_reverse) := st in
  let rel_type := r_type relation in
  let source := r_source relation in
  let target := r_target relation in
  if bool_decide (rel_type ∈ [FAMILY; FRIENDSHIP; LOVE])
     && negb (bool_decide ((target, source, rel_type) ∈ seen_reverse))
  then (all_relations, {[(target, source, rel_type)]} ∪ seen_reverse)
  else
    match dict_get bidirectional_map rel_type with
    | Some reverse_type =>
        if truthy reverse_type then
          let reverse_key := (target, source, reverse_type) in
          if bool_decide (reverse_key ∈ seen_reverse) then st
          else (all_relations ++ [reverse_relation relation reverse_type],
                {[reverse_key]} ∪ seen_reverse)
        else st
    | None => st
    end.

Definition _create_bidirectional_relations (relations : list reldict)
  : list reldict :=
  fst (fold_left bidirectional_step relations (relations, ∅)).

(** *** [extract_relations] *)

(** [self._extract_simple_relations]: the class defines no attribute of
    this name, so evaluating the call raises [AttributeError]. *)
Definition _extract_simple_relations (text : pystr) (ents : entities)
  : result (list reldict) :=
  Raise AttributeError.

Definition extract_relations (text : pystr) (ents : entities)
  : result (list reldict) :=
  person_loc_rels ← _extract_person_location_relations text ents;
  person_person_rels ← _extract_person_person_relations text ents;
  let relations := person_loc_rels ++ person_person_rels in
  relations ←
    (if (length relations =? 0)%nat && (2 <=? length (get_kind ents PERSON))%nat
     then simple ← _extract_simple_relations text ents; Ok (relations ++ simple)
     else Ok relations);
  Ok (_create_bidirectional_relations relations).

End RelationExtractor.

(** ** ontology_builder.py *)

Module OntologyBuilder.

(** The dict under ['attributes']: [first_mention] exists only for an entity
    that came from the entity lists, [total_relations] and [relation_types]
    only once [_enrich_entities] has run. *)
Record attributes := {
  a_mentions : Z;
  a_first_mention : option Z;
  a_total_relations : option Z;
  a_relation_types : option (gmap pystr Z)
}.

Record entity_data := {
  d_type : pystr;
  d_attributes : attributes
}.

(** [self.ontology] *)
Record ontology := {
  o_entities : gmap pystr entity_data;
  o_relations : list reldict;
  o_relation_types : gset pystr
}.

(** The state set up by [__init__]. *)
Definition __init__ : ontology :=
  {| o_entities := ∅; o_relations := []; o_relation_types := ∅ |}.

Definition with_mentions (d : entity_data) (n : Z) : entity_data :=
  {| d_type := d_type d;
     d_attributes :=
       {| a_mentions := n;
          a_first_mention := a_first_mention (d_attributes d);
          a_total_relations := a_total_relations (d_attributes d);
          a_relation_types := a_relation_types (d_attributes d) |} |}.

(** The body of [for entity in entity_list]. *)
Definition add_entity (entity_type : pystr)
    (ents : gmap pystr entity_data) (mention : entity)
  : gmap pystr entity_data :=
  let name := e_normalized mention in
  match ents !! name with
  | None =>
      <[name := {| d_type := entity_type;
                   d_attributes :=
                     {| a_mentions := 1;
                        a_first_mention := Some (e_start mention);
                        a_total_relations := None;
                        a_relation_types := None |} |}]> ents
  | Some d => <[name := with_mentions d (a_mentions (d_attributes d) + 1)]> ents
  end.

(** [for entity_type, entity_list in entities.items()] *)
Definition add_entities (ents : gmap pystr entity_data) (entities : entities)
  : gmap pystr entity_data :=
  fold_left (λ ents '(entity_type, entity_list),
               fold_left (add_entity entity_type) entity_list ents)
            entities ents.

(** [if name not in self.ontology['entities']: ...] for a relation
    endpoint. *)
Definition ensure_entity (ents : gmap pystr entity_data) (name : pystr)
    (kind : option pystr) : gmap pystr entity_data :=
  match ents !! name with
  | Some _ => ents
  | None =>
      <[name := {| d_type := default UNKNOWN kind;
                   d_attributes :=
                     {| a_mentions := 0;
                        a_first_mention := None;
                        a_total_relations := None;
                        a_relation_types := None |} |}]> ents
  end.

(** The dict appended to [self.ontology['relations']]. *)
Definition stored (relation : reldict) : reldict :=
  {| r_source := r_source relation;
     r_target := r_target relation;
     r_type := r_type relation;
     r_confidence := Some (default 0.5%Q (r_confidence relation));
     r_context := Some (default [] (r_context relation));
     r_source_type := None;
     r_target_type := None;
     r_is_reverse := None |}.

(** The body of [for relation in relations]. *)
Definition add_relation (o : ontology) (relation : reldict) : ontology :=
  let source := r_source relation in
  let target := r_target relation in
  let rel_type := r_type relation in
  let ents := ensure_entity (o_entities o) source (r_source_type relation) in
  let ents := ensure_entity ents target (r_target_type relation) in
  {| o_entities := ents;
     o_relations := o_relations o ++ [stored relation];
     o_relation_types := {[rel_type]} ∪ o_relation_types o |}.

(** [d[k] += 1] on a [defaultdict(int)] *)
Definition incr (d : gmap pystr Z) (k : pystr) : gmap pystr Z :=
  <[k := default 0 (d !! k) + 1]> d.

(** [d[k][t] += 1] on a [defaultdict(lambda: defaultdict(int))] *)
Definition incr2 (d : gmap pystr (gmap pystr Z)) (k t : pystr)
  : gmap pystr (gmap pystr Z) :=
  <[k := incr (default ∅ (d !! k)) t]> d.

(** The first loop of [_enrich_entities]. *)
Definition relation_count (relations : list reldict) : gmap pystr Z :=
  fold_left (λ c relation, incr (incr c (r_source relation)) (r_target relation))
            relations ∅.

Definition relation_types_count (relations : list reldict)
  : gmap pystr (gmap pystr Z) :=
  fold_left (λ c relation,
               incr2 (incr2 c (r_source relation) (r_type relation))
                     (r_target relation) (r_type relation))
            relations ∅.

Definition enrich (count : gmap pystr Z) (types : gmap pystr (gmap pystr Z))
    (entity_name : pystr) (data : entity_data) : entity_data :=
  {| d_type := d_type data;
     d_attributes :=
       {| a_mentions := a_mentions (d_attributes data);
          a_first_mention := a_first_mention (d_attributes data);
          a_total_relations := Some (default 0 (count !! entity_name));
          a_relation_types := Some (default ∅ (types !! entity_name)) |} |}.

Definition _enrich_entities (o : ontology) : ontology :=
  let count := relation_count (o_relations o) in
  let types := relation_types_count (o_relations o) in
  {| o_entities := map_imap (λ name d, Some (enrich count types name d))
                            (o_entities o);
     o_relations := o_relations o;
     o_relation_types := o_relation_types o |}.

(** [build_ontology], from the state [o] of the builder. *)
Definition build_ontology (o : ontology) (entities : entities)
    (relations : list reldict) : ontology :=
  let o := {| o_entities := add_entities (o_entities o) entities;
              o_relations := o_relations o;
              o_relation_types := o_relation_types o |} in
  let o := fold_left add_relation relations o in
  _enrich_entities o.

(** The sum of [total_relations] over all entities. *)
Definition sum_total_relations (ents : gmap pystr entity_data) : Z :=
  map_fold (λ _ d acc, default 0 (a_total_relations (d_attributes d)) + acc)
           0 ents.

(** The mentions of an entity mapping, in the order the aggregator visits
    them, each with its kind. *)
Definition occurrences (entities : entities) : list (pystr * entity) :=
  flat_map (λ '(entity_type, entity_list), pair entity_type <$> entity_list)
           entities.

(** *** [get_statistics] *)

(** [sum(1 for e in entities.values() if e['type'] == entity_type)] *)
Definition count_kind (ents : gmap pystr entity_data) (entity_type : pystr)
  : Z :=
  map_fold (λ _ e acc,
              (if bool_decide (d_type e = entity_type) then 1 else 0) + acc)
           0 ents.

(** [sum(1 for r in relations if r['type'] == rel_type)] *)
Definition count_type (relations : list reldict) (rel_type : pystr) : Z :=
  Z.of_nat (length (filter (λ r, r_type r = rel_type) relations)).

(** The dict returned by [get_statistics]; [entity_types] keeps the order
    of the list it is built from, [relation_types] is built from a set. *)
Record statistics := {
  s_total_entities : Z;
  s_total_relations : Z;
  s_entity_types : list (pystr * Z);
  s_relation_types : gmap pystr Z
}.

Definition get_statistics (o : ontology) : statistics :=
  {| s_total_entities := Z.of_nat (size (o_entities o));
     s_total_relations := Z.of_nat (length (o_relations o));
     s_entity_types :=
       (λ entity_type, (entity_type, count_kind (o_entities o) entity_type))
         <$> [PERSON; LOC; ORG];
     s_relation_types :=
       set_to_map (λ rel_type, (rel_type, count_type (o_relations o) rel_type))
                  (o_relation_types o) |}.

(** *** [_clean_owl_name] *)

(** The characters outside the class [[^a-zA-Zа-яА-ЯёЁ0-9_]]. *)
Definition owl_allowed (c : N) : bool :=
  (((97 <=? c) && (c <=? 122)) || ((65 <=? c) && (c <=? 90))
   || ((1072 <=? c) && (c <=? 1103)) || ((1040 <=? c) && (c <=? 1071))
   || (c =? 1105) || (c =? 1025)
   || ((48 <=? c) && (c <=? 57)) || (c =? 95))%N.

Definition is_underscore (c : N) : bool := (c =? 95)%N.

(** [str.isdigit] on a character that passed [owl_allowed]: of these, the
    digits are 0 to 9. *)
Definition isdigit_cp (c : N) : bool := ((48 <=? c) && (c <=? 57))%N.

(** [s.replace(a, b)] for one-character [a] and [b]. *)
Definition replace_char (a b : N) (s : pystr) : pystr :=
  map (λ c, if (c =? a)%N then b else c) s.

(** [re.sub(r'_+', '_', s)]: of a run of underscores the last one stays. *)
Fixpoint collapse_underscores (s : pystr) : pystr :=
  match s with
  | [] => []
  | c :: s' =>
      if is_underscore c
         && match s' with d :: _ => is_underscore d | [] => false end
      then collapse_underscores s'
      else c :: collapse_underscores s'
  end.

(** [s.lstrip(chars)] for a predicate on code points. *)
Fixpoint lstrip_with (p : N → bool) (s : pystr) : pystr :=
  match s with
  | c :: s' => if p c then lstrip_with p s' else s
  | [] => []
  end.

Definition _clean_owl_name (name : pystr) : pystr :=
  let clean := replace_char 32 95 name in
  let clean := map (λ c, if owl_allowed c then c else 95%N) clean in
  let clean := collapse_underscores clean in
  let clean := rstrip_with is_underscore (lstrip_with is_underscore clean) in
  let clean :=
    match clean with
    | c :: _ => if isdigit_cp c then u "entity_" ++ clean else clean
    | [] => clean
    end in
  if truthy clean then clean else u "Entity".

End OntologyBuilder.

(** ** entity_extractor.py: the normalisation step *)

Module EntityExtractor.

(** A bucket of [person_groups] or [loc_groups]. *)
Record group := {
  g_name : pystr;
  g_members : list entity
}.

(** [if key_lower not in groups: groups[key_lower] = {'name': key, ...: []}]
    followed by [groups[key_lower][...].append(mention)], on the dict in
    insertion order. *)
Fixpoint group_append (groups : list (pystr * group)) (key_lower key : pystr)
    (mention : entity) : list (pystr * group) :=
  match groups with
  | [] => [(key_lower, {| g_name := key; g_members := [mention] |})]
  | (k, g) :: groups' =>
      if bool_decide (k = key_lower)
      then (k, {| g_name := g_name g; g_members := g_members g ++ [mention] |})
             :: groups'
      else (k, g) :: group_append groups' key_lower key mention
  end.

(** The entity returned for a bucket: a copy of its first member, renamed
    and counted. Every bucket has a first member. *)
Definition canonical (kg : pystr * group) : option entity :=
  match g_members (snd kg) with
  | first :: _ =>
      Some {| e_text := e_text first;
              e_start := e_start first;
              e_end := e_end first;
              e_normalized := g_name (snd kg);
              e_mentions_count := Some (Z.of_nat (length (g_members (snd kg)))) |}
  | [] => None
  end.

(** The two loops shared by [_normalize_persons] and
    [_normalize_locations], which differ in the key they group by. *)
Definition group_by (key_of_name : pystr → pystr) (mentions : list entity)
  : list (pystr * group) :=
  fold_left (λ groups mention,
               let key := key_of_name (e_normalized mention) in
               group_append groups (lower key) key mention)
            mentions [].

Definition normalize_by (key_of_name : pystr → pystr)
    (mentions : list entity) : list entity :=
  omap canonical (group_by key_of_name mentions).

(** The key of a person: first and last word of the normalised name. *)
Definition person_key (normalized_name : pystr) : pystr :=
  let parts := split normalized_name in
  match parts with
  | p0 :: _ :: _ => p0 ++ u " " ++ List.last parts []
  | [p0] => p0
  | [] => normalized_name
  end.

Definition _normalize_persons (persons : list entity) : list entity :=
  normalize_by person_key persons.

(** The character class [[\s-]] that separates the components of a
    location name. *)
Definition name_separator (c : N) : bool := is_space c || (c =? 45)%N.

Section Locations.

(** [self.morph.parse(word)[0].normal_form], the morphological analyser. *)
Variable normal_form : pystr → pystr.

(** The body of [for word in words], for a non-empty word. *)
Definition base_word (word : pystr) : pystr :=
  let normal_form := normal_form word in
  match word with
  | c :: _ =>
      if isupper_cp c then
        match normal_form with
        | n0 :: (_ :: _) as rest => upper [n0] ++ rest
        | _ => upper normal_form
        end
      else normal_form
  | [] => normal_form
  end.

Definition _get_location_base_form (name : pystr) : pystr :=
  let name := strip name in
  if negb (truthy name) then name
  else
    let words := re_split name_separator name in
    let normalized_words :=
      flat_map (λ word, if truthy word then [base_word word] else []) words in
    if bool_decide (45%N ∈ name) then join (u "-") normalized_words
    else join (u " ") normalized_words.

Definition _normalize_locations (locations : list entity) : list entity :=
  normalize_by _get_location_base_form locations.

End Locations.

(** The entity with its mention count replaced. *)
Definition with_count (n : Z) (e : entity) : entity :=
  {| e_text := e_text e;
     e_start := e_start e;
     e_end := e_end e;
     e_normalized := e_normalized e;
     e_mentions_count := Some n |}.

End EntityExtractor.

(** ** app.py *)

Module App.

Definition ALLOWED_EXTENSIONS : list pystr := [u "txt"].

(** The two parts of [s] around the last [sep], when [sep] occurs. *)
Fixpoint rpartition (sep : N) (s : pystr) : option (pystr * pystr) :=
  match s with
  | [] => None
  | c :: s' =>
      match rpartition sep s' with
      | Some (a, b) => Some (c :: a, b)
      | None => if (c =? sep)%N then Some ([], s') else None
      end
  end.

(** [s.rsplit(sep, 1)] for a one-character [sep]. *)
Definition rsplit1 (sep : N) (s : pystr) : list pystr :=
  match rpartition sep s with
  | Some (a, b) => [a; b]
  | None => [s]
  end.

(** [l[i]] *)
Definition index {A} (l : list A) (i : nat) : result A :=
  match l !! i with
  | Some x => Ok x
  | None => Raise IndexError
  end.

Definition allowed_file (filename : pystr) : result bool :=
  if bool_decide (46%N ∈ filename) then
    ext ← index (rsplit1 46 filename) 1;
    Ok (bool_decide (lower ext ∈ ALLOWED_EXTENSIONS))
  else Ok false.

End App.

(** ** Specification vocabulary *)

Import RelationExtractor OntologyBuilder EntityExtractor.

(** [m] is the mirror that the synthesiser builds for [relation]. *)
Definition mirrors_relation (m relation : reldict) : Prop :=
  r_is_reverse m = Some true
  ∧ r_source m = r_target relation
  ∧ r_target m = r_source relation
  ∧ dict_get bidirectional_map (r_type relation) = Some (r_type m)
  ∧ r_confidence m = Some (default 0.5%Q (r_confidence relation))
  ∧ r_context m = Some (default [] (r_context relation))
  ∧ r_source_type m = Some (default UNKNOWN (r_target_type relation))
  ∧ r_target_type m = Some (default UNKNOWN (r_source_type relation)).

(** The relation types that [bidirectional_step] skips on first sight. *)
Definition skipped_types : list pystr := [FAMILY; FRIENDSHIP; LOVE].

(** The relation types of the person-to-person strategy. *)
Definition person_types : list pystr := [FAMILY; FRIENDSHIP; WORK; LOVE].

(** A mention dict as the recogniser hands it over. *)
Definition mention (t : string) (a b : Z) (n : string) : entity :=
  {| e_text := u t; e_start := a; e_end := b; e_normalized := u n;
     e_mentions_count := None |}.

(** A sum over the entries of a map. *)
Definition sum_map {V} (f : pystr → V → Z) (m : gmap pystr V) : Z :=
  map_fold (λ k v acc, f k v + acc) 0 m.

(** How often [n] is the source or the target of a relation. *)
Definition endpoint_count (relations : list reldict) (n : pystr) : Z :=
  Z.of_nat (length (filter (λ r, r_source r = n) relations))
  + Z.of_nat (length (filter (λ r, r_target r = n) relations)).

(** The names that the relations refer to. *)
Definition endpoints (relations : list reldict) : list pystr :=
  flat_map (λ r, [r_source r; r_target r]) relations.

(** The occurrences of the name [n] among the mentions, in the order the
    aggregator visits them. *)
Definition occurrences_of (n : pystr) (entities : entities)
  : list (pystr * entity) :=
  filter (λ ke, e_normalized ke.2 = n) (occurrences entities).

(** The kind recorded by [relation] for its endpoint [n]: the source kind
    when [n] is the source, the target kind otherwise. *)
Definition recorded_kind (relation : reldict) (n : pystr) : option pystr :=
  if bool_decide (r_source relation = n) then r_source_type relation
  else r_target_type relation.

(** *** Scenarios *)

(** Scenario 1: a person and a town in one sentence. *)
Definition scenario1_text : pystr := u "Иван живёт в Саратове.".

Definition scenario1_entities : entities :=
  [(PERSON, [mention "Иван" 0 4 "Иван"]);
   (LOC, [mention "Саратове" 13 21 "Саратов"])].

Definition scenario1_relations : list reldict :=
  [{| r_source := u "Иван"; r_target := u "Саратов"; r_type := RESIDENCE;
      r_confidence := Some 0.8%Q;
      r_context := Some (u "Иван живёт в Саратове.");
      r_source_type := Some PERSON; r_target_type := Some LOC;
      r_is_reverse := None |};
   {| r_source := u "Саратов"; r_target := u "Иван"; r_type := HAS_RESIDENT;
      r_confidence := Some 0.8%Q;
      r_context := Some (u "Иван живёт в Саратове.");
      r_source_type := Some LOC; r_target_type := Some PERSON;
      r_is_reverse := Some true |}].

(** Scenario 2: two persons and a friendship keyword. *)
Definition scenario2_text : pystr := u "Пётр и Анна — друзья.".

Definition scenario2_entities : entities :=
  [(PERSON, [mention "Пётр" 0 4 "Пётр"; mention "Анна" 7 11 "Анна"])].

Definition scenario2_relations : list reldict :=
  [{| r_source := u "Пётр"; r_target := u "Анна"; r_type := FRIENDSHIP;
      r_confidence := Some 0.75%Q;
      r_context := Some (u "Пётр и Анна — друзья.");
      r_source_type := Some PERSON; r_target_type := Some PERSON;
      r_is_reverse := None |}].

(** Two persons and a family keyword. *)
Definition siblings_text : pystr := u "Иван и Мария — брат и сестра.".

Definition siblings_entities : entities :=
  [(PERSON, [mention "Иван" 0 4 "Иван"; mention "Мария" 7 12 "Мария"])].

(** Two persons and no keyword of any table. *)
Definition plain_text : pystr := u "Пётр и Анна.".

Definition plain_entities : entities :=
  [(PERSON, [mention "Пётр" 0 4 "Пётр"; mention "Анна" 7 11 "Анна"])].

(** The same name under two kinds, and a relation to a name that is no
    mention. *)
Definition collapse_entities : entities :=
  [(PERSON, [mention "Орёл" 0 4 "Орёл"; mention "Орла" 20 24 "Орёл"]);
   (LOC, [mention "Орле" 40 44 "Орёл"])].

Definition collapse_relation : reldict :=
  {| r_source := u "Орёл"; r_target := u "Тула"; r_type := RESIDENCE;
     r_confidence := Some 0.8%Q; r_context := None;
     r_source_type := Some PERSON; r_target_type := Some LOC;
     r_is_reverse := None |}.

Definition collapse_relations : list reldict := [collapse_relation].

(** A word as [str.split()] returns it: not empty, and free of
    whitespace. *)
Definition is_word (w : pystr) : Prop :=
  w ≠ [] ∧ Forall (λ c, is_space c = false) w.

(** The buckets built from [mentions]: distinct keys, each the lower-cased
    name of its bucket; no bucket is empty, and every name is the key of a
    mention. *)
Definition well_grouped (key_of_name : pystr → pystr)
    (mentions : list entity) (groups : list (pystr * group)) : Prop :=
  NoDup (fst <$> groups)
  ∧ Forall (λ kg, kg.1 = lower (g_name kg.2)
                  ∧ g_members kg.2 ≠ []
                  ∧ ∃ e, e ∈ mentions
                         ∧ g_name kg.2 = key_of_name (e_normalized e))
           groups.

(** A component of a location name: not empty, and free of whitespace and
    hyphens. *)
Definition is_component (w : pystr) : Prop :=
  w ≠ [] ∧ Forall (λ c, name_separator c = false) w.

(** The same person mentioned twice. *)
Definition twice_ivan : list entity :=
  [mention "Иван" 0 4 "Иван"; mention "Иван" 30 34 "Иван"].

(** The same town in two cases, already lemmatised by the recogniser. *)
Definition twice_saratov : list entity :=
  [mention "Саратове" 13 21 "Саратов"; mention "Саратов" 40 47 "Саратов"].

(** *** Vocabulary of the further properties *)

(** [sub] occurs in [s] at offset [p]. *)
Definition occurs_at (s sub : pystr) (p : Z) : Prop :=
  0 ≤ p ≤ len s ∧ startswith (drop (Z.to_nat p) s) sub = true.

(** The relation types that have a mirror appended. *)
Definition mirrored_types : list pystr := [RESIDENCE; WORK].

(** The normalised names of a list of mentions. *)
Definition names (es : list entity) : list pystr := e_normalized <$> es.

(** The excerpt of a relation: present, and of at most 150 characters. *)
Definition short_context (r : reldict) : Prop :=
  ∃ ctx, r_context r = Some ctx ∧ (length ctx ≤ 150)%nat.

(** A relation as the person-to-location strategy appends it. *)
Definition residence_shape (persons locations : list entity) (r : reldict)
  : Prop :=
  r_type r = RESIDENCE
  ∧ r_source r ∈ names persons ∧ r_target r ∈ names locations
  ∧ r_source_type r = Some PERSON ∧ r_target_type r = Some LOC
  ∧ (r_confidence r = Some 0.8%Q ∨ r_confidence r = Some 0.75%Q)
  ∧ short_context r
  ∧ r_is_reverse r = None.

(** A relation as the person-to-person strategy appends it. *)
Definition person_shape (persons : list entity) (r : reldict) : Prop :=
  r_type r ∈ person_types
  ∧ r_source r ∈ names persons ∧ r_target r ∈ names persons
  ∧ r_source r ≠ r_target r
  ∧ r_source_type r = Some PERSON ∧ r_target_type r = Some PERSON
  ∧ r_confidence r = Some 0.75%Q
  ∧ short_context r
  ∧ r_is_reverse r = None.

Definition extracted_shape (ents : entities) (r : reldict) : Prop :=
  residence_shape (get_kind ents PERSON) (get_kind ents LOC) r
  ∨ person_shape (get_kind ents PERSON) r.

(** A person whose normalised name is not empty and holds no word. *)
Definition blank_name (person : entity) : Prop :=
  e_normalized person ≠ [] ∧ split (e_normalized person) = [].

(** A person named by whitespace, next to a town. *)
Definition blank_entities : entities :=
  [(PERSON, [mention "Иван" 0 4 "Иван"; mention " " 4 5 " "]);
   (LOC, [mention "Саратове" 13 21 "Саратов"])].

(** One location and no person. *)
Definition lonely_entities : entities :=
  [(PERSON, []); (LOC, [mention "Саратове" 13 21 "Саратов"])].

(** A colleague relation, as the person-to-person strategy returns it. *)
Definition colleagues : reldict :=
  {| r_source := u "Пётр"; r_target := u "Анна"; r_type := WORK;
     r_confidence := Some 0.75%Q; r_context := Some (u "Пётр и Анна — коллеги.");
     r_source_type := Some PERSON; r_target_type := Some PERSON;
     r_is_reverse := None |}.

(** Every relation of the ontology has both endpoints among its
    entities. *)
Definition closed (o : ontology) : Prop :=
  ∀ r, r ∈ o_relations o →
       is_Some (o_entities o !! r_source r)
       ∧ is_Some (o_entities o !! r_target r).

(** The sum of the values of a counter. *)
Definition sum_values (m : gmap pystr Z) : Z := sum_map (λ _ v, v) m.

(** The number of entities whose kind is none of PERSON, LOC and ORG. *)
Definition count_other (ents : gmap pystr entity_data) : Z :=
  sum_map (λ _ e, if bool_decide (d_type e ∈ [PERSON; LOC; ORG]) then 0 else 1)
          ents.

(** The sum of the counts of an ordered dict. *)
Definition sum_counts (d : list (pystr * Z)) : Z :=
  foldr (λ kv acc, kv.2 + acc) 0 d.

(** The ontology of the scenario with the same name under two kinds. *)
Definition collapse_ontology : ontology :=
  build_ontology __init__ collapse_entities collapse_relations.

(** No two underscores in a row. *)
Fixpoint no_double_underscore (s : pystr) : bool :=
  match s with
  | c :: s' =>
      negb (is_underscore c
            && match s' with d :: _ => is_underscore d | [] => false end)
      && no_double_underscore s'
  | [] => true
  end.

(** A name as [_clean_owl_name] returns it: not empty, made of letters,
    digits and single underscores, with no underscore at either end and no
    digit in front. *)
Definition valid_owl_name (s : pystr) : Prop :=
  s ≠ []
  ∧ Forall (λ c, owl_allowed c = true) s
  ∧ no_double_underscore s = true
  ∧ (∀ c, head s = Some c → is_underscore c = false ∧ isdigit_cp c = false)
  ∧ (∀ c, last s = Some c → is_underscore c = false).

(** The mentions whose lower-cased grouping key is [k], in input order. *)
Definition members (key_of_name : pystr → pystr) (k : pystr)
    (mentions : list entity) : list entity :=
  filter (λ e, lower (key_of_name (e_normalized e)) = k) mentions.

(** [c] stands for the mentions that share its key: it is the first of them,
    renamed to that mention's key and counted with the rest. *)
Definition represents (key_of_name : pystr → pystr) (mentions : list entity)
    (c : entity) : Prop :=
  ∃ first rest,
    members key_of_name (lower (e_normalized c)) mentions = first :: rest
    ∧ c = {| e_text := e_text first;
             e_start := e_start first;
             e_end := e_end first;
             e_normalized := key_of_name (e_normalized first);
             e_mentions_count := Some (Z.of_nat (length (first :: rest))) |}.

(** [out] holds one entity for each key of [mentions]. *)
Definition grouped_by (key_of_name : pystr → pystr) (mentions out : list entity)
  : Prop :=
  NoDup ((λ c, lower (e_normalized c)) <$> out)
  ∧ (∀ e, e ∈ mentions →
          ∃ c, c ∈ out
               ∧ lower (e_normalized c) = lower (key_of_name (e_normalized e)))
  ∧ Forall (represents key_of_name mentions) out.

(** The sum of the [mentions_count] fields. *)
Definition total_mentions (es : list entity) : Z :=
  foldr (λ e acc, default 0 (e_mentions_count e) + acc) 0 es.

(** The buckets after the first loop: distinct keys, one for every key of a
    mention, each holding the mentions of its key and named after the first
    of them. *)
Definition bucketed (key_of_name : pystr → pystr) (mentions : list entity)
    (groups : list (pystr * group)) : Prop :=
  NoDup (fst <$> groups)
  ∧ (∀ e, e ∈ mentions →
          lower (key_of_name (e_normalized e)) ∈ fst <$> groups)
  ∧ Forall (λ kg : pystr * group,
              ∃ first rest,
                g_members kg.2 = first :: rest
                ∧ members key_of_name kg.1 mentions = first :: rest
                ∧ g_name kg.2 = key_of_name (e_normalized first))
           groups.

(** The code points between the bounds of the ranges of a table. *)
Definition enum_range (r : N * N * N) : list N :=
  (λ i, (r.1.1 + N.of_nat i)%N) <$> seq 0 (S (N.to_nat (r.1.2 - r.1.1))).

Definition enum_table (t : list (N * N * N)) : list N :=
  flat_map enum_range t.

(** ** The synthesiser *)

Section Synthesizer.

Lemma skipped_types_map t :
  t ∈ skipped_types → dict_get bidirectional_map t = Some t.
Proof.
  unfold skipped_types. rewrite !elem_of_cons, elem_of_nil.
  intros [-> | [-> | [-> | []]]]; reflexivity.
Qed.

(** What one iteration does to [(all_relations, seen_reverse)]: it leaves
    the list alone, or appends the mirror of a relation whose type is not
    skipped and whose mirror key is new. *)
Lemma bidirectional_step_cases all seen relation :
  (∃ seen', bidirectional_step (all, seen) relation = (all, seen')
            ∧ seen ⊆ seen')
  ∨ (∃ reverse_type,
       dict_get bidirectional_map (r_type relation) = Some reverse_type
       ∧ (r_type relation ∉ skipped_types)
       ∧ (key_of (reverse_relation relation reverse_type) ∉ seen)
       ∧ bidirectional_step (all, seen) relation
         = (all ++ [reverse_relation relation reverse_type],
            {[key_of (reverse_relation relation reverse_type)]} ∪ seen)).
Proof.
  unfold bidirectional_step. fold skipped_types.
  destruct (decide (r_type relation ∈ skipped_types)) as [Hs | Hs].
  - rewrite (bool_decide_eq_true_2 _ Hs). cbn [andb].
    case_bool_decide as Hk; cbn [negb].
    + rewrite (skipped_types_map _ Hs).
      destruct (truthy (r_type relation)); [|left; eexists; split; done].
      rewrite (bool_decide_eq_true_2 _ Hk). left; eexists; split; done.
    + left. eexists; split; [done | apply union_subseteq_r].
  - rewrite (bool_decide_eq_false_2 _ Hs). cbn [andb].
    destruct (dict_get bidirectional_map (r_type relation)) as [rt|] eqn:Hm;
      [| left; eexists; split; done].
    destruct (truthy rt); [| left; eexists; split; done].
    case_bool_decide as Hk.
    + left; eexists; split; done.
    + right. exists rt. done.
Qed.

Lemma mirrors_reverse_relation relation reverse_type :
  dict_get bidirectional_map (r_type relation) = Some reverse_type →
  mirrors_relation (reverse_relation relation reverse_type) relation.
Proof.
  intros H. unfold mirrors_relation.
  repeat split; first [exact H | reflexivity].
Qed.

(** The loop of the synthesiser, from any state. *)
Lemma bidirectional_fold relations all seen :
  ∃ mirrors seen',
    fold_left bidirectional_step relations (all, seen) = (all ++ mirrors, seen')
    ∧ seen ⊆ seen'
    ∧ Forall (λ m, ∃ relation, relation ∈ relations
                               ∧ (r_type relation ∉ skipped_types)
                               ∧ mirrors_relation m relation) mirrors
    ∧ NoDup (key_of <$> mirrors)
    ∧ (∀ m, m ∈ mirrors → (key_of m ∉ seen) ∧ key_of m ∈ seen').
Proof.
  revert all seen. induction relations as [| relation relations IH];
    intros all seen; cbn [fold_left].
  - exists [], seen. rewrite app_nil_r.
    split_and!; [done | done | constructor | constructor |].
    intros m Hm. by apply elem_of_nil in Hm.
  - destruct (bidirectional_step_cases all seen relation)
      as [(seen1 & -> & Hsub) | (rt & Hm & Hs & Hk & ->)].
    + destruct (IH all seen1) as (ms & seen' & -> & Hsub' & Hall & Hnd & Hkeys).
      exists ms, seen'. split_and!; [done | by etrans | | done |].
      * eapply Forall_impl; [exact Hall|]. simpl.
        intros m (r & Hr & Hrest). exists r.
        split; [by apply elem_of_cons; right | done].
      * intros m Hin. destruct (Hkeys m Hin) as [Hnot Hyes].
        split; [| done]. intros Hin'. apply Hnot. by apply Hsub.
    + set (m0 := reverse_relation relation rt) in *.
      destruct (IH (all ++ [m0]) ({[key_of m0]} ∪ seen))
        as (ms & seen' & -> & Hsub' & Hall & Hnd & Hkeys).
      exists (m0 :: ms), seen'. rewrite <- app_assoc. cbn [app fmap list_fmap].
      split_and!; [done | | | |].
      * etrans; [| exact Hsub']. apply union_subseteq_r.
      * constructor.
        -- exists relation. split; [by apply elem_of_cons; left|].
           split; [done|]. by apply mirrors_reverse_relation.
        -- eapply Forall_impl; [exact Hall|]. simpl.
           intros m (r & Hr & Hrest). exists r.
           split; [by apply elem_of_cons; right | done].
      * constructor; [| done].
        intros Hin. apply list_elem_of_fmap in Hin as (m & Hm' & Hin).
        destruct (Hkeys m Hin) as [Hnot _]. apply Hnot. rewrite <- Hm'.
        apply elem_of_union_l. by apply elem_of_singleton.
      * intros m Hin. apply elem_of_cons in Hin as [-> | Hin].
        -- split; [done|]. apply Hsub'.
           apply elem_of_union_l. by apply elem_of_singleton.
        -- destruct (Hkeys m Hin) as [Hnot Hyes]. split; [| done].
           intros Hin'. apply Hnot. by apply elem_of_union_r.
Qed.

(** C9. The list returned by [_create_bidirectional_relations] starts with
    the input relations, unchanged and in their order; every element after
    that prefix is the mirror of an input relation: it is marked
    [is_reverse = True], swaps source and target, takes its type from
    [bidirectional_map], repeats the confidence and context of the
    relation it mirrors (0.5 and the empty string where the relation has
    none) and swaps its [source_type] and [target_type] (['UNKNOWN'] where
    absent). *)
Theorem create_bidirectional_prefix (relations : list reldict) :
  ∃ mirrors,
    _create_bidirectional_relations relations = relations ++ mirrors
    ∧ Forall (λ m, ∃ relation, relation ∈ relations
                               ∧ mirrors_relation m relation) mirrors.
Proof.
  unfold _create_bidirectional_relations.
  destruct (bidirectional_fold relations relations ∅)
    as (ms & seen' & -> & _ & Hall & _).
  exists ms. split; [done|].
  eapply Forall_impl; [exact Hall|]. simpl.
  intros m (r & Hr & _ & Hm). by exists r.
Qed.

End Synthesizer.

(** ** Uniqueness of the (source, target, type) key *)

Section Uniqueness.

Lemma flat_mapM_Forall {A B} (P : B → Prop) (f : A → result (list B)) l out :
  (∀ a bs, a ∈ l → f a = Ok bs → Forall P bs) →
  flat_mapM f l = Ok out → Forall P out.
Proof.
  revert out. induction l as [| a l IH]; intros out Hf; cbn [flat_mapM].
  - intros [= <-]. constructor.
  - destruct (f a) as [bs|] eqn:Hfa; [| discriminate]. cbn.
    destruct (flat_mapM f l) as [bs'|] eqn:Hl; [| discriminate]. cbn.
    intros [= <-]. apply Forall_app. split.
    + eapply Hf; [by apply elem_of_cons; left | done].
    + apply IH; [| done]. intros a' bs'' Hin. apply Hf.
      by apply elem_of_cons; right.
Qed.

Lemma flat_map_Forall {A B} (P : B → Prop) (f : A → list B) l :
  (∀ a, a ∈ l → Forall P (f a)) → Forall P (flat_map f l).
Proof.
  induction l as [| a l IH]; intros Hf; cbn [flat_map]; [constructor|].
  apply Forall_app. split.
  - apply Hf. by apply elem_of_cons; left.
  - apply IH. intros a' Hin. apply Hf. by apply elem_of_cons; right.
Qed.

(** The final loop of the person-to-location strategy keeps the first
    relation of each key. *)
Lemma unique_fold raw acc seen :
  NoDup (key_of <$> acc) →
  (∀ k, k ∈ seen ↔ k ∈ key_of <$> acc) →
  ∃ acc' seen',
    fold_left unique_step raw (acc, seen) = (acc', seen')
    ∧ NoDup (key_of <$> acc')
    ∧ (∀ r, r ∈ acc' → r ∈ acc ∨ r ∈ raw).
Proof.
  revert acc seen. induction raw as [| rel raw IH]; intros acc seen Hnd Hseen;
    cbn [fold_left].
  - exists acc, seen. split_and!; [done | done |]. intros r Hr. by left.
  - unfold unique_step at 2. case_bool_decide as Hk.
    + destruct (IH acc seen Hnd Hseen) as (acc' & seen' & -> & Hnd' & Hsub).
      exists acc', seen'. split_and!; [done | done |].
      intros r Hr. destruct (Hsub r Hr) as [H | H]; [by left | right].
      by apply elem_of_cons; right.
    + destruct (IH (acc ++ [rel]) ({[key_of rel]} ∪ seen))
        as (acc' & seen' & -> & Hnd' & Hsub).
      * rewrite fmap_app. apply NoDup_app. split_and!; [done | |].
        -- intros k Hin Hin'. apply list_elem_of_singleton in Hin'. subst k.
           apply Hk. by apply Hseen.
        -- apply NoDup_singleton.
      * intros k. rewrite fmap_app, elem_of_app, elem_of_union, elem_of_singleton.
        cbn [fmap list_fmap]. rewrite list_elem_of_singleton, Hseen. tauto.
      * exists acc', seen'. split_and!; [done | done |].
        intros r Hr. destruct (Hsub r Hr) as [H | H].
        -- apply elem_of_app in H as [H | H]; [by left | right].
           apply list_elem_of_singleton in H. subst r. by apply elem_of_cons; left.
        -- right. by apply elem_of_cons; right.
Qed.

Lemma unique_NoDup raw :
  NoDup (key_of <$> unique raw) ∧ (∀ r, r ∈ unique raw → r ∈ raw).
Proof.
  unfold unique.
  destruct (unique_fold raw [] ∅) as (acc' & seen' & -> & Hnd & Hsub).
  - constructor.
  - intros k. cbn. rewrite elem_of_nil. set_solver.
  - split; [done|]. intros r Hr. destruct (Hsub r Hr) as [H | H]; [| done].
    by apply elem_of_nil in H.
Qed.

(** The final loop of the person-to-person strategy also drops a relation
    whose mirror was kept, so no two kept relations mirror each other. *)
Lemma unique_undirected_fold raw acc seen :
  (∀ r, r ∈ raw → r_source r ≠ r_target r) →
  NoDup (key_of <$> acc) →
  (∀ k, k ∈ seen ↔ k ∈ key_of <$> acc) →
  (∀ r r', r ∈ acc → r' ∈ acc → key_of r ≠ reverse_key_of r') →
  ∃ acc' seen',
    fold_left unique_undirected_step raw (acc, seen) = (acc', seen')
    ∧ NoDup (key_of <$> acc')
    ∧ (∀ r, r ∈ acc' → r ∈ acc ∨ r ∈ raw)
    ∧ (∀ r r', r ∈ acc' → r' ∈ acc' → key_of r ≠ reverse_key_of r').
Proof.
  revert acc seen. induction raw as [| rel raw IH];
    intros acc seen Hne Hnd Hseen Hmir; cbn [fold_left].
  - exists acc, seen. split_and!; [done | done | | done]. intros r Hr. by left.
  - assert (Hne' : ∀ r, r ∈ raw → r_source r ≠ r_target r).
    { intros r Hr. apply Hne. by apply elem_of_cons; right. }
    unfold unique_undirected_step at 2.
    case_bool_decide as Hk; cbn [negb andb].
    { destruct (IH acc seen Hne' Hnd Hseen Hmir)
        as (acc' & seen' & -> & Hnd' & Hsub & Hmir').
      exists acc', seen'. split_and!; [done | done | | done].
      intros r Hr. destruct (Hsub r Hr) as [H | H]; [by left | right].
      by apply elem_of_cons; right. }
    case_bool_decide as Hrk; cbn [negb].
    { destruct (IH acc seen Hne' Hnd Hseen Hmir)
        as (acc' & seen' & -> & Hnd' & Hsub & Hmir').
      exists acc', seen'. split_and!; [done | done | | done].
      intros r Hr. destruct (Hsub r Hr) as [H | H]; [by left | right].
      by apply elem_of_cons; right. }
    destruct (IH (acc ++ [rel]) ({[key_of rel]} ∪ seen) Hne')
      as (acc' & seen' & -> & Hnd' & Hsub & Hmir').
    + rewrite fmap_app. apply NoDup_app. split_and!; [done | |].
      * intros k Hin Hin'. apply list_elem_of_singleton in Hin'. subst k.
        apply Hk. by apply Hseen.
      * apply NoDup_singleton.
    + intros k. rewrite fmap_app, elem_of_app, elem_of_union, elem_of_singleton.
      cbn [fmap list_fmap]. rewrite list_elem_of_singleton, Hseen. tauto.
    + intros r r' Hr Hr'.
      apply elem_of_app in Hr as [Hr | Hr]; apply elem_of_app in Hr' as [Hr' | Hr'];
        try (apply list_elem_of_singleton in Hr; subst r);
        try (apply list_elem_of_singleton in Hr'; subst r').
      * by apply Hmir.
      * intros Heq. apply Hrk. apply Hseen. rewrite <- Heq.
        by apply list_elem_of_fmap_2.
      * intros Heq. apply Hrk. apply Hseen.
        unfold key_of, reverse_key_of in *.
        assert (Hrev : (r_target rel, r_source rel, r_type rel) = key_of r')
          by (unfold key_of; congruence).
        rewrite Hrev. by apply list_elem_of_fmap_2.
      * unfold key_of, reverse_key_of. intros [= Heq _].
        eapply Hne; [by apply elem_of_cons; left | done].
    + exists acc', seen'. split_and!; [done | done | | done].
      intros r Hr. destruct (Hsub r Hr) as [H | H].
      * apply elem_of_app in H as [H | H]; [by left | right].
        apply list_elem_of_singleton in H. subst r. by apply elem_of_cons; left.
      * right. by apply elem_of_cons; right.
Qed.

Lemma unique_undirected_NoDup raw :
  (∀ r, r ∈ raw → r_source r ≠ r_target r) →
  NoDup (key_of <$> unique_undirected raw)
  ∧ (∀ r, r ∈ unique_undirected raw → r ∈ raw)
  ∧ (∀ r r', r ∈ unique_undirected raw → r' ∈ unique_undirected raw →
             key_of r ≠ reverse_key_of r').
Proof.
  intros Hne. unfold unique_undirected.
  destruct (unique_undirected_fold raw [] ∅ Hne)
    as (acc' & seen' & -> & Hnd & Hsub & Hmir).
  - constructor.
  - intros k. cbn. rewrite elem_of_nil. set_solver.
  - intros r r' Hr. by apply elem_of_nil in Hr.
  - split_and!; [done | | done].
    intros r Hr. destruct (Hsub r Hr) as [H | H]; [| done].
    by apply elem_of_nil in H.
Qed.

End Uniqueness.

(** ** What the two strategies emit *)

Section Strategies.

Lemma pattern_relations_type text variants person :
  Forall (λ r, r_type r = RESIDENCE) (pattern_relations text variants person).
Proof.
  unfold pattern_relations. apply flat_map_Forall. intros keyword _.
  destruct (contains keyword _); [| constructor].
  destruct (List.find _ variants) as [[? loc_data]|]; repeat constructor.
Qed.

Lemma proximity_relations_type text locations person bs :
  proximity_relations text locations person = Ok bs →
  Forall (λ r, r_type r = RESIDENCE) bs.
Proof.
  unfold proximity_relations.
  destruct (first_name (e_normalized person)) as [first|]; [| discriminate].
  cbn [mbind result_bind].
  destruct (truthy first); cbn [negb]; intros [= <-]; [| constructor].
  apply flat_map_Forall. intros loc _. unfold proximity_relations_loc.
  apply flat_map_Forall. intros p_pos _.
  destruct (List.find _ _); repeat constructor.
Qed.

(** The person-to-location strategy returns RESIDENCE relations with
    pairwise distinct keys. *)
Lemma person_location_relations_spec text ents relations :
  _extract_person_location_relations text ents = Ok relations →
  NoDup (key_of <$> relations)
  ∧ Forall (λ r, r_type r = RESIDENCE) relations.
Proof.
  unfold _extract_person_location_relations.
  destruct (get_kind ents PERSON) as [| person persons] eqn:Hp.
  { intros [= <-]. split; constructor. }
  destruct (get_kind ents LOC) as [| loc locations] eqn:Hl.
  { intros [= <-]. split; constructor. }
  destruct (person_name_variants _ _); [| discriminate]. cbn [mbind result_bind].
  destruct (flat_mapM _ _) as [relations2|] eqn:H2; [| discriminate]. cbn [mbind result_bind].
  intros [= <-].
  destruct (unique_NoDup
    (flat_map (pattern_relations text (loc_text_variants (loc :: locations)))
              (person :: persons) ++ relations2)) as [Hnd Hsub].
  split; [done|]. apply Forall_forall. intros r Hr. apply Hsub in Hr.
  apply elem_of_app in Hr as [Hr | Hr].
  - revert r Hr. apply Forall_forall. apply flat_map_Forall.
    intros p _. apply pattern_relations_type.
  - revert r Hr. apply Forall_forall.
    eapply flat_mapM_Forall; [| exact H2].
    intros p bs _. apply proximity_relations_type.
Qed.

Lemma second_person_spec text person1 p1_pos relation_type window persons bs :
  second_person text person1 p1_pos relation_type window persons = Ok bs →
  Forall (λ r, r_type r = relation_type ∧ r_source r ≠ r_target r) bs.
Proof.
  induction persons as [| person2 persons IH]; cbn [second_person].
  - intros [= <-]. constructor.
  - case_bool_decide as Hne; [done|].
    destruct (first_name (e_normalized person2)) as [p2_first|]; [| discriminate].
    cbn [mbind result_bind]. destruct (truthy p2_first); cbn [negb]; [| done].
    destruct (existsb _ _); [| done].
    destruct (existsb _ _); [| done].
    intros [= <-]. repeat constructor. exact Hne.
Qed.

Lemma relation_types_keywords_types keywords relation_type :
  (keywords, relation_type) ∈ relation_types_keywords →
  relation_type ∈ person_types.
Proof.
  unfold relation_types_keywords, person_types.
  rewrite !elem_of_cons, !elem_of_nil.
  intros [[= _ ->] | [[= _ ->] | [[= _ ->] | [[= _ ->] | []]]]]; tauto.
Qed.

Lemma first_person_spec text persons person1 bs :
  first_person text persons person1 = Ok bs →
  Forall (λ r, r_type r ∈ person_types ∧ r_source r ≠ r_target r) bs.
Proof.
  unfold first_person.
  destruct (first_name (e_normalized person1)) as [p1_first|]; [| discriminate].
  cbn [mbind result_bind]. destruct (truthy p1_first); cbn [negb]; [| intros [= <-]; constructor].
  apply flat_mapM_Forall. intros p1_pos bs1 _. unfold keyword_relations.
  apply flat_mapM_Forall. intros [keywords relation_type] bs2 Hin.
  apply flat_mapM_Forall. intros keyword bs3 _.
  destruct (contains keyword _); [| intros [= <-]; constructor].
  intros H. apply second_person_spec in H.
  eapply Forall_impl; [exact H|]. cbn. intros r [-> Hne]. split; [| done].
  by eapply relation_types_keywords_types.
Qed.

(** The person-to-person strategy returns relations of its four types, with
    pairwise distinct keys, none of which mirrors another. *)
Lemma person_person_relations_spec text ents relations :
  _extract_person_person_relations text ents = Ok relations →
  NoDup (key_of <$> relations)
  ∧ Forall (λ r, r_type r ∈ person_types) relations
  ∧ (∀ r r', r ∈ relations → r' ∈ relations → key_of r ≠ reverse_key_of r').
Proof.
  unfold _extract_person_person_relations.
  destruct (_ <? _)%nat.
  { intros [= <-]. split_and!; [constructor | constructor |].
    intros r r' Hr. by apply elem_of_nil in Hr. }
  destruct (flat_mapM _ _) as [raw|] eqn:Hraw; [| discriminate]. cbn [mbind result_bind].
  intros [= <-].
  assert (Hall : Forall (λ r, r_type r ∈ person_types ∧ r_source r ≠ r_target r) raw).
  { eapply flat_mapM_Forall; [| exact Hraw].
    intros p bs _. apply first_person_spec. }
  rewrite Forall_forall in Hall.
  destruct (unique_undirected_NoDup raw) as (Hnd & Hsub & Hmir).
  { intros r Hr. by apply Hall. }
  split_and!; [done | | done].
  apply Forall_forall. intros r Hr. by apply Hall, Hsub.
Qed.

End Strategies.

(** ** Triple uniqueness after synthesis *)

Section TripleUniqueness.

(** The two types outside the skipped ones that have a mirror type. *)
Lemma mirror_type_cases t reverse_type :
  t ∉ skipped_types →
  dict_get bidirectional_map t = Some reverse_type →
  (t = RESIDENCE ∧ reverse_type = HAS_RESIDENT)
  ∨ (t = WORK ∧ reverse_type = WORK).
Proof.
  intros Hs Hm. revert Hm Hs.
  unfold bidirectional_map, skipped_types. cbn [dict_get].
  rewrite !elem_of_cons, elem_of_nil.
  repeat case_bool_decide; intros [= <-] Hs; try discriminate.
  - by left.
  - exfalso. apply Hs. by left.
  - exfalso. apply Hs. right. by left.
  - by right.
  - exfalso. apply Hs. right. right. by left.
Qed.

(** A relation whose mirror is appended is a RESIDENCE or a WORK
    relation. *)
Lemma appended_mirror_types m relation :
  r_type relation ∉ skipped_types →
  mirrors_relation m relation →
  (r_type relation = RESIDENCE ∧ r_type m = HAS_RESIDENT)
  ∨ (r_type relation = WORK ∧ r_type m = WORK).
Proof.
  intros Hs (_ & _ & _ & Hm & _). by apply mirror_type_cases.
Qed.

Lemma create_bidirectional_NoDup relations :
  NoDup (key_of <$> relations) →
  (∀ r, r ∈ relations → r_type r = RESIDENCE →
        (r_target r, r_source r, HAS_RESIDENT) ∉ key_of <$> relations) →
  (∀ r, r ∈ relations → r_type r = WORK →
        (r_target r, r_source r, WORK) ∉ key_of <$> relations) →
  NoDup (key_of <$> _create_bidirectional_relations relations).
Proof.
  intros Hnd Hres Hwork. unfold _create_bidirectional_relations.
  destruct (bidirectional_fold relations relations ∅)
    as (ms & seen' & -> & _ & Hall & Hndm & _).
  cbn [fst]. rewrite fmap_app. apply NoDup_app. split_and!; [done | | done].
  intros k Hk Hk'. apply list_elem_of_fmap in Hk' as (m & -> & Hm).
  rewrite Forall_forall in Hall.
  destruct (Hall m Hm) as (r & Hr & Hs & Hmr).
  destruct (appended_mirror_types m r Hs Hmr) as [[Ht Ht'] | [Ht Ht']];
    destruct Hmr as (_ & Hsrc & Htgt & _);
    unfold key_of at 1 in Hk; rewrite Hsrc, Htgt, Ht' in Hk.
  - by eapply Hres.
  - by eapply Hwork.
Qed.

Lemma person_types_not_residence t : t ∈ person_types → t ≠ RESIDENCE.
Proof.
  unfold person_types. rewrite !elem_of_cons, elem_of_nil.
  intros [-> | [-> | [-> | [-> | []]]]]; discriminate.
Qed.

Lemma person_types_not_has_resident t : t ∈ person_types → t ≠ HAS_RESIDENT.
Proof.
  unfold person_types. rewrite !elem_of_cons, elem_of_nil.
  intros [-> | [-> | [-> | [-> | []]]]]; discriminate.
Qed.

(** The list handed to the synthesiser, when [extract_relations]
    returns. *)
Lemma extract_relations_Ok text ents relations :
  extract_relations text ents = Ok relations →
  ∃ person_loc_rels person_person_rels,
    _extract_person_location_relations text ents = Ok person_loc_rels
    ∧ _extract_person_person_relations text ents = Ok person_person_rels
    ∧ relations
      = _create_bidirectional_relations (person_loc_rels ++ person_person_rels).
Proof.
  unfold extract_relations.
  destruct (_extract_person_location_relations text ents) as [pl|];
    [| discriminate]. cbn [mbind result_bind].
  destruct (_extract_person_person_relations text ents) as [pp|];
    [| discriminate]. cbn [mbind result_bind].
  destruct (_ && _); cbn [mbind result_bind]; [discriminate|].
  intros [= <-]. by exists pl, pp.
Qed.

(** C3. No (source, target, type) triple occurs twice in the list that
    [extract_relations] returns. *)
Theorem extract_relations_unique text ents relations :
  extract_relations text ents = Ok relations →
  NoDup (key_of <$> relations).
Proof.
  intros H. apply extract_relations_Ok in H as (pl & pp & Hpl & Hpp & ->).
  apply person_location_relations_spec in Hpl as [Hndl Htl].
  apply person_person_relations_spec in Hpp as (Hndp & Htp & Hmir).
  rewrite Forall_forall in Htl. rewrite Forall_forall in Htp.
  apply create_bidirectional_NoDup.
  - rewrite fmap_app. apply NoDup_app. split_and!; [done | | done].
    intros k Hk Hk'.
    apply list_elem_of_fmap in Hk as (r & -> & Hr).
    apply list_elem_of_fmap in Hk' as (r' & Heq & Hr').
    apply (person_types_not_residence (r_type r')); [by apply Htp|].
    rewrite <- (Htl r Hr). unfold key_of in Heq. congruence.
  - intros r Hr Ht Hin.
    apply list_elem_of_fmap in Hin as (r' & Heq & Hr').
    assert (Ht' : r_type r' = HAS_RESIDENT) by (unfold key_of in Heq; congruence).
    apply elem_of_app in Hr' as [Hr' | Hr'].
    + rewrite (Htl r' Hr') in Ht'. discriminate.
    + by apply (person_types_not_has_resident (r_type r')); [apply Htp|].
  - intros r Hr Ht Hin.
    apply list_elem_of_fmap in Hin as (r' & Heq & Hr').
    assert (Ht' : r_type r' = WORK) by (unfold key_of in Heq; congruence).
    apply elem_of_app in Hr as [Hr | Hr].
    { rewrite (Htl r Hr) in Ht. discriminate. }
    apply elem_of_app in Hr' as [Hr' | Hr'].
    { rewrite (Htl r' Hr') in Ht'. discriminate. }
    apply (Hmir r' r Hr' Hr). unfold reverse_key_of. rewrite Ht. done.
Qed.

End TripleUniqueness.

(** ** [extract_relations] on the scenarios *)

Section Scenarios.

(** The witness of triple uniqueness: scenario 1 returns, and its two
    relations have distinct keys. *)
Lemma extract_relations_unique_witness :
  extract_relations scenario1_text scenario1_entities = Ok scenario1_relations
  ∧ NoDup (key_of <$> scenario1_relations).
Proof.
  assert (H : extract_relations scenario1_text scenario1_entities
              = Ok scenario1_relations) by (vm_compute; reflexivity).
  split; [exact H |].
  exact (extract_relations_unique scenario1_text scenario1_entities
           scenario1_relations H).
Defined.

(** C5. Scenario 1: on "Иван живёт в Саратове." with the person Иван and
    the location Саратове (normalised Саратов), [extract_relations] returns
    exactly RESIDENCE(Иван→Саратов) followed by its mirror
    HAS_RESIDENT(Саратов→Иван), both with confidence 0.8. *)
Theorem scenario1_residence :
  extract_relations scenario1_text scenario1_entities = Ok scenario1_relations.
Proof. vm_compute. reflexivity. Qed.

(** C4. Scenario 2: on "Пётр и Анна — друзья." with both persons tagged,
    [extract_relations] returns the single relation
    FRIENDSHIP(Пётр→Анна); the mirror FRIENDSHIP(Анна→Пётр) is missing, so
    the list has one element and not two. *)
Theorem scenario2_single_relation :
  extract_relations scenario2_text scenario2_entities = Ok scenario2_relations
  ∧ length scenario2_relations = 1%nat.
Proof. split; [vm_compute; reflexivity | reflexivity]. Qed.

(** C1. Mirror completeness fails for a FAMILY relation: on
    "Иван и Мария — брат и сестра." the returned list holds
    FAMILY(Иван→Мария) and no FAMILY(Мария→Иван). *)
Theorem siblings_mirror_missing :
  ∃ relations,
    extract_relations siblings_text siblings_entities = Ok relations
    ∧ (u "Иван", u "Мария", FAMILY) ∈ key_of <$> relations
    ∧ (u "Мария", u "Иван", FAMILY) ∉ key_of <$> relations.
Proof.
  eexists. split; [vm_compute; reflexivity |].
  split; apply (bool_decide_unpack _); vm_compute; exact I.
Qed.

(** When the two strategies find nothing and there are two persons, the
    fallback is called, and the call raises. *)
Lemma fallback_raises text ents :
  _extract_person_location_relations text ents = Ok [] →
  _extract_person_person_relations text ents = Ok [] →
  (2 ≤ length (get_kind ents PERSON))%nat →
  extract_relations text ents = Raise AttributeError.
Proof.
  intros HA HB Hp. unfold extract_relations. rewrite HA, HB.
  cbn [mbind result_bind app length Nat.eqb andb].
  apply Nat.leb_le in Hp. rewrite Hp. reflexivity.
Qed.

(** C2. [extract_relations] is not total: on "Пётр и Анна." with both
    persons tagged, the two strategies find nothing, the fallback is
    called, and the call raises [AttributeError]. *)
Theorem plain_text_raises :
  _extract_person_location_relations plain_text plain_entities = Ok []
  ∧ _extract_person_person_relations plain_text plain_entities = Ok []
  ∧ extract_relations plain_text plain_entities = Raise AttributeError.
Proof. split_and!; vm_compute; reflexivity. Qed.

End Scenarios.

(** ** Sums over maps *)

Section SumMap.

Context {V : Type}.
Implicit Types (f g : pystr → V → Z) (m : gmap pystr V).

Lemma sum_map_empty f : sum_map f (∅ : gmap pystr V) = 0.
Proof. unfold sum_map. by rewrite map_fold_empty. Qed.

Lemma sum_map_insert f m i x :
  m !! i = None → sum_map f (<[i:=x]> m) = f i x + sum_map f m.
Proof.
  intros Hi. unfold sum_map. rewrite map_fold_insert_L; [done | | done].
  intros. lia.
Qed.

Lemma sum_map_ext f g m :
  (∀ k v, m !! k = Some v → f k v = g k v) → sum_map f m = sum_map g m.
Proof.
  induction m as [| i x m Hi IH] using map_ind; intros Hfg.
  - by rewrite !sum_map_empty.
  - rewrite !sum_map_insert by done. f_equal.
    + apply Hfg. by rewrite lookup_insert_eq.
    + apply IH. intros k v Hk. apply Hfg.
      rewrite lookup_insert_ne; [done|]. intros ->. congruence.
Qed.

Lemma sum_map_plus f g m :
  sum_map (λ k v, f k v + g k v) m = sum_map f m + sum_map g m.
Proof.
  induction m as [| i x m Hi IH] using map_ind.
  - by rewrite !sum_map_empty.
  - rewrite !sum_map_insert by done. lia.
Qed.

Lemma sum_map_zero m : sum_map (λ _ _, 0) m = 0.
Proof.
  induction m as [| i x m Hi IH] using map_ind.
  - apply sum_map_empty.
  - rewrite sum_map_insert by done. lia.
Qed.

(** A name is counted once when it is a key, and not at all otherwise. *)
Lemma sum_map_indicator (a : pystr) m :
  sum_map (λ k _, if bool_decide (a = k) then 1 else 0) m
  = if bool_decide (is_Some (m !! a)) then 1 else 0.
Proof.
  induction m as [| i x m Hi IH] using map_ind.
  - rewrite sum_map_empty, lookup_empty.
    rewrite bool_decide_eq_false_2; [done|]. by intros [? ?].
  - rewrite sum_map_insert by done. rewrite IH.
    destruct (decide (a = i)) as [-> | Hne].
    + rewrite lookup_insert_eq, Hi.
      rewrite (bool_decide_eq_true_2 (i = i)) by done.
      rewrite (bool_decide_eq_true_2 (is_Some (Some x))) by eauto.
      rewrite bool_decide_eq_false_2; [done|]. by intros [? ?].
    + rewrite lookup_insert_ne by done.
      rewrite (bool_decide_eq_false_2 (a = i)) by done. lia.
Qed.

End SumMap.

Lemma sum_map_imap {V W} (f : pystr → W → Z) (g : pystr → V → W)
    (m : gmap pystr V) :
  sum_map f (map_imap (λ k v, Some (g k v)) m) = sum_map (λ k v, f k (g k v)) m.
Proof.
  induction m as [| i x m Hi IH] using map_ind.
  - by rewrite map_imap_empty, !sum_map_empty.
  - rewrite (map_imap_insert_Some _ _ _ _ (g i x)) by done.
    rewrite !sum_map_insert; [by rewrite IH | done |].
    by rewrite map_lookup_imap, Hi.
Qed.

(** ** The aggregator: relation statistics *)

Section Statistics.

Lemma incr_lookup (c : gmap pystr Z) k n :
  default 0 (incr c k !! n)
  = default 0 (c !! n) + (if bool_decide (k = n) then 1 else 0).
Proof.
  unfold incr. case_bool_decide as Hk.
  - subst. by rewrite lookup_insert_eq.
  - rewrite lookup_insert_ne by done. lia.
Qed.

Lemma endpoint_count_cons r relations n :
  endpoint_count (r :: relations) n
  = (if bool_decide (r_source r = n) then 1 else 0)
    + (if bool_decide (r_target r = n) then 1 else 0)
    + endpoint_count relations n.
Proof.
  unfold endpoint_count. rewrite !filter_cons.
  repeat case_bool_decide; repeat case_decide; try done; cbn [length]; lia.
Qed.

Lemma relation_count_fold (relations : list reldict) (c : gmap pystr Z)
    (n : pystr) :
  default 0
    (fold_left (λ c relation,
                  incr (incr c (r_source relation)) (r_target relation))
               relations c !! n)
  = default 0 (c !! n) + endpoint_count relations n.
Proof.
  revert c. induction relations as [| r relations IH]; intros c;
    cbn [fold_left].
  - unfold endpoint_count. cbn. lia.
  - rewrite IH, !incr_lookup, endpoint_count_cons. lia.
Qed.

(** The counter that [_enrich_entities] reads for an entity. *)
Lemma relation_count_lookup (relations : list reldict) (n : pystr) :
  default 0 (relation_count relations !! n) = endpoint_count relations n.
Proof.
  unfold relation_count. rewrite relation_count_fold, lookup_empty. cbn. lia.
Qed.

(** Summed over a map that holds every endpoint, the counts add up to two
    per relation. *)
Lemma sum_endpoint_count {V} (m : gmap pystr V) relations :
  (∀ n, n ∈ endpoints relations → is_Some (m !! n)) →
  sum_map (λ n _, endpoint_count relations n) m
  = 2 * Z.of_nat (length relations).
Proof.
  induction relations as [| r relations IH]; intros Hdom.
  - rewrite (sum_map_ext _ (λ _ _, 0)).
    + rewrite sum_map_zero. cbn. lia.
    + intros. unfold endpoint_count. cbn. lia.
  - rewrite (sum_map_ext _
      (λ n v, ((if bool_decide (r_source r = n) then 1 else 0)
               + (if bool_decide (r_target r = n) then 1 else 0))
              + endpoint_count relations n)).
    2: { intros. apply endpoint_count_cons. }
    rewrite (sum_map_plus
      (λ n _, (if bool_decide (r_source r = n) then 1 else 0)
              + (if bool_decide (r_target r = n) then 1 else 0))
      (λ n _, endpoint_count relations n)).
    rewrite (sum_map_plus
      (λ n _, if bool_decide (r_source r = n) then 1 else 0)
      (λ n _, if bool_decide (r_target r = n) then 1 else 0)).
    rewrite !sum_map_indicator.
    rewrite !bool_decide_eq_true_2.
    + rewrite IH.
      * cbn [length]. lia.
      * intros n Hn. apply Hdom. unfold endpoints. cbn [flat_map].
        apply elem_of_cons; right. by apply elem_of_cons; right.
    + apply Hdom. unfold endpoints. cbn [flat_map].
      apply elem_of_cons; right. by apply elem_of_cons; left.
    + apply Hdom. unfold endpoints. cbn [flat_map].
      by apply elem_of_cons; left.
Qed.

End Statistics.

(** ** The aggregator: entities *)

Section Aggregator.

Implicit Types (ents : gmap pystr entity_data) (o : ontology).

(** *** Mentions *)

Lemma add_entity_other kind ents e n :
  e_normalized e ≠ n → add_entity kind ents e !! n = ents !! n.
Proof.
  intros Hne. unfold add_entity.
  destruct (ents !! e_normalized e); by rewrite lookup_insert_ne.
Qed.

Lemma add_entity_new kind ents e :
  ents !! e_normalized e = None →
  ∃ d, add_entity kind ents e !! e_normalized e = Some d
       ∧ d_type d = kind
       ∧ a_mentions (d_attributes d) = 1
       ∧ a_first_mention (d_attributes d) = Some (e_start e).
Proof.
  intros Hn. unfold add_entity. rewrite Hn, lookup_insert_eq. eauto.
Qed.

Lemma add_entity_old kind ents e d :
  ents !! e_normalized e = Some d →
  ∃ d', add_entity kind ents e !! e_normalized e = Some d'
        ∧ d_type d' = d_type d
        ∧ a_mentions (d_attributes d') = a_mentions (d_attributes d) + 1
        ∧ a_first_mention (d_attributes d') = a_first_mention (d_attributes d).
Proof.
  intros Hn. unfold add_entity. rewrite Hn, lookup_insert_eq. eauto.
Qed.

Lemma add_entity_dom kind ents e :
  dom (add_entity kind ents e) = {[e_normalized e]} ∪ dom ents.
Proof.
  unfold add_entity. destruct (ents !! e_normalized e); apply dom_insert_L.
Qed.

(** The nested loops visit the occurrences in order. *)
Lemma add_entities_occurrences ents entities :
  add_entities ents entities
  = fold_left (λ ents ke, add_entity ke.1 ents ke.2) (occurrences entities) ents.
Proof.
  unfold add_entities, occurrences. revert ents.
  induction entities as [| [kind l] entities IH]; intros ents; [done|].
  cbn [fold_left flat_map]. rewrite fold_left_app, IH. f_equal.
  clear IH. revert ents. induction l as [| e l IHl]; intros ents; [done|].
  cbn [fold_left fmap list_fmap]. apply IHl.
Qed.

(** Later occurrences of a name that is already a key only add to
    [mentions]. *)
Lemma add_occurrences_old occ ents n d :
  ents !! n = Some d →
  ∃ d', fold_left (λ ents ke, add_entity ke.1 ents ke.2) occ ents !! n = Some d'
        ∧ d_type d' = d_type d
        ∧ a_mentions (d_attributes d')
          = a_mentions (d_attributes d)
            + Z.of_nat (length (filter (λ ke, e_normalized ke.2 = n) occ))
        ∧ a_first_mention (d_attributes d') = a_first_mention (d_attributes d).
Proof.
  revert ents d. induction occ as [| [kind e] occ IH]; intros ents d Hn;
    cbn [fold_left].
  - exists d. split_and!; [done | done | cbn; lia | done].
  - rewrite filter_cons. cbn [fst snd]. case_decide as He.
    + subst n. destruct (add_entity_old kind ents e d Hn)
        as (d1 & H1 & Ht1 & Hm1 & Hf1).
      destruct (IH _ d1 H1) as (d' & H' & Ht' & Hm' & Hf').
      exists d'. split_and!; [done | congruence | | congruence].
      rewrite Hm', Hm1. cbn [length]. lia.
    + apply IH. by rewrite add_entity_other.
Qed.

Lemma add_occurrences_absent occ ents n :
  ents !! n = None →
  filter (λ ke, e_normalized ke.2 = n) occ = [] →
  fold_left (λ ents ke, add_entity ke.1 ents ke.2) occ ents !! n = None.
Proof.
  revert ents. induction occ as [| [kind e] occ IH]; intros ents Hn;
    cbn [fold_left]; [done|].
  rewrite filter_cons. cbn [fst snd]. case_decide as He; [done|].
  intros Hf. apply IH; [| done]. by rewrite add_entity_other.
Qed.

(** The first occurrence of a name creates the entity and fixes its kind. *)
Lemma add_occurrences_first occ ents n kind first rest :
  ents !! n = None →
  filter (λ ke, e_normalized ke.2 = n) occ = (kind, first) :: rest →
  ∃ d, fold_left (λ ents ke, add_entity ke.1 ents ke.2) occ ents !! n = Some d
       ∧ d_type d = kind
       ∧ a_mentions (d_attributes d) = 1 + Z.of_nat (length rest)
       ∧ a_first_mention (d_attributes d) = Some (e_start first).
Proof.
  revert ents. induction occ as [| [kind' e] occ IH]; intros ents Hn;
    cbn [fold_left]; [done|].
  rewrite filter_cons. cbn [fst snd]. case_decide as He.
  - intros [= -> -> Hrest]. subst n.
    destruct (add_entity_new kind ents first Hn) as (d1 & H1 & Ht1 & Hm1 & Hf1).
    destruct (add_occurrences_old occ _ _ d1 H1) as (d' & H' & Ht' & Hm' & Hf').
    exists d'. split_and!; [done | congruence | | congruence].
    rewrite Hm', Hm1, Hrest. done.
  - intros Hf. apply IH; [| done]. by rewrite add_entity_other.
Qed.

Lemma add_occurrences_dom occ ents :
  dom (fold_left (λ ents ke, add_entity ke.1 ents ke.2) occ ents)
  = dom ents ∪ list_to_set ((λ ke, e_normalized ke.2) <$> occ).
Proof.
  revert ents. induction occ as [| [kind e] occ IH]; intros ents;
    cbn [fold_left fmap list_fmap list_to_set].
  - set_solver.
  - rewrite IH, add_entity_dom. cbn [fst snd]. set_solver.
Qed.

(** *** Relation endpoints *)

Lemma ensure_entity_preserves ents n kind m d :
  ents !! m = Some d → ensure_entity ents n kind !! m = Some d.
Proof.
  intros Hm. unfold ensure_entity. destruct (ents !! n) eqn:Hn; [done|].
  rewrite lookup_insert_ne; [done|]. intros ->. congruence.
Qed.

Lemma ensure_entity_other ents n kind m :
  n ≠ m → ensure_entity ents n kind !! m = ents !! m.
Proof.
  intros Hne. unfold ensure_entity. destruct (ents !! n); [done|].
  by rewrite lookup_insert_ne.
Qed.

Lemma ensure_entity_fresh ents n kind :
  ents !! n = None →
  ∃ d, ensure_entity ents n kind !! n = Some d
       ∧ d_type d = default UNKNOWN kind
       ∧ a_mentions (d_attributes d) = 0
       ∧ a_first_mention (d_attributes d) = None.
Proof.
  intros Hn. unfold ensure_entity. rewrite Hn, lookup_insert_eq. eauto.
Qed.

Lemma ensure_entity_present ents n kind :
  is_Some (ensure_entity ents n kind !! n).
Proof.
  unfold ensure_entity. destruct (ents !! n) eqn:Hn.
  - rewrite Hn. eauto.
  - rewrite lookup_insert_eq. eauto.
Qed.

Lemma ensure_entity_dom ents n kind :
  dom (ensure_entity ents n kind) = {[n]} ∪ dom ents.
Proof.
  unfold ensure_entity. destruct (ents !! n) eqn:Hn.
  - apply elem_of_dom_2 in Hn. set_solver.
  - apply dom_insert_L.
Qed.

Lemma add_relations_preserves relations o n d :
  o_entities o !! n = Some d →
  o_entities (fold_left add_relation relations o) !! n = Some d.
Proof.
  revert o. induction relations as [| r relations IH]; intros o Hn;
    cbn [fold_left]; [done|].
  apply IH. unfold add_relation. cbn [o_entities].
  by do 2 apply ensure_entity_preserves.
Qed.

Lemma add_relations_relations relations o :
  o_relations (fold_left add_relation relations o)
  = o_relations o ++ (stored <$> relations).
Proof.
  revert o. induction relations as [| r relations IH]; intros o;
    cbn [fold_left fmap list_fmap].
  - by rewrite app_nil_r.
  - rewrite IH. unfold add_relation. cbn [o_relations].
    by rewrite <- app_assoc.
Qed.

Lemma add_relations_untouched relations o n :
  n ∉ endpoints relations →
  o_entities (fold_left add_relation relations o) !! n = o_entities o !! n.
Proof.
  revert o. induction relations as [| r relations IH]; intros o Hn;
    cbn [fold_left]; [done|].
  unfold endpoints in Hn. cbn [flat_map app] in Hn.
  rewrite !not_elem_of_cons in Hn. destruct Hn as (Hs & Ht & Hn).
  rewrite IH by done. unfold add_relation. cbn [o_entities].
  rewrite !ensure_entity_other; done.
Qed.

Lemma add_relations_present relations o n :
  n ∈ endpoints relations →
  is_Some (o_entities (fold_left add_relation relations o) !! n).
Proof.
  revert o. induction relations as [| r relations IH]; intros o Hn;
    cbn [fold_left].
  - by apply elem_of_nil in Hn.
  - unfold endpoints in Hn. cbn [flat_map app] in Hn.
    rewrite !elem_of_cons in Hn. destruct Hn as [-> | [-> | Hn]].
    + pose proof (ensure_entity_present (o_entities o) (r_source r)
                    (r_source_type r)) as [d Hd].
      eexists. apply add_relations_preserves. unfold add_relation.
      cbn [o_entities]. apply ensure_entity_preserves. exact Hd.
    + pose proof (ensure_entity_present
                    (ensure_entity (o_entities o) (r_source r) (r_source_type r))
                    (r_target r) (r_target_type r)) as [d Hd].
      eexists. apply add_relations_preserves. unfold add_relation.
      cbn [o_entities]. exact Hd.
    + by apply IH.
Qed.

Lemma add_relations_dom relations o :
  dom (o_entities (fold_left add_relation relations o))
  = dom (o_entities o) ∪ list_to_set (endpoints relations).
Proof.
  revert o. induction relations as [| r relations IH]; intros o;
    cbn [fold_left].
  - unfold endpoints. cbn. set_solver.
  - rewrite IH. unfold add_relation, endpoints.
    cbn [o_entities flat_map app list_to_set].
    rewrite !ensure_entity_dom. set_solver.
Qed.

(** The first relation that refers to an unknown name creates its entity,
    with the kind recorded for that endpoint. *)
Lemma add_relations_created before relation after o n :
  o_entities o !! n = None →
  n ∉ endpoints before →
  n ∈ [r_source relation; r_target relation] →
  ∃ d, o_entities (fold_left add_relation (before ++ relation :: after) o) !! n
       = Some d
       ∧ d_type d = default UNKNOWN (recorded_kind relation n)
       ∧ a_mentions (d_attributes d) = 0
       ∧ a_first_mention (d_attributes d) = None.
Proof.
  intros Hn Hbefore Hin. rewrite fold_left_app. cbn [fold_left].
  set (o1 := fold_left add_relation before o).
  assert (H1 : o_entities o1 !! n = None).
  { unfold o1. by rewrite add_relations_untouched. }
  assert (∃ d, o_entities (add_relation o1 relation) !! n = Some d
               ∧ d_type d = default UNKNOWN (recorded_kind relation n)
               ∧ a_mentions (d_attributes d) = 0
               ∧ a_first_mention (d_attributes d) = None)
    as (d & Hd & Hrest).
  { unfold add_relation, recorded_kind. cbn [o_entities].
    case_bool_decide as Hs.
    - subst n.
      destruct (ensure_entity_fresh (o_entities o1) (r_source relation)
                  (r_source_type relation) H1) as (d & Hd & Hrest).
      exists d. split; [| done]. by apply ensure_entity_preserves.
    - rewrite !elem_of_cons, elem_of_nil in Hin.
      destruct Hin as [-> | [-> | []]]; [done|].
      apply ensure_entity_fresh. by rewrite ensure_entity_other. }
  exists d. split; [| done]. by apply add_relations_preserves.
Qed.

(** *** Enrichment *)

Lemma enrich_entities_lookup o n :
  o_entities (_enrich_entities o) !! n
  = enrich (relation_count (o_relations o))
           (relation_types_count (o_relations o)) n <$> (o_entities o !! n).
Proof.
  unfold _enrich_entities. cbn [o_entities]. rewrite map_lookup_imap.
  by destruct (o_entities o !! n).
Qed.

Lemma enrich_entities_dom o :
  dom (o_entities (_enrich_entities o)) = dom (o_entities o).
Proof.
  apply set_eq. intros n. rewrite !elem_of_dom, enrich_entities_lookup.
  by rewrite fmap_is_Some.
Qed.

End Aggregator.

(** ** The ontology built by a fresh aggregator *)

Section Ontology.

(** The state that [_enrich_entities] works on. *)
Lemma build_ontology_unfold entities relations :
  build_ontology __init__ entities relations
  = _enrich_entities
      (fold_left add_relation relations
         {| o_entities := add_entities ∅ entities;
            o_relations := [];
            o_relation_types := ∅ |}).
Proof. reflexivity. Qed.

Lemma build_ontology_relations entities relations :
  o_relations (build_ontology __init__ entities relations) = stored <$> relations.
Proof.
  rewrite build_ontology_unfold. unfold _enrich_entities. cbn [o_relations].
  by rewrite add_relations_relations.
Qed.

Lemma endpoints_stored relations :
  endpoints (stored <$> relations) = endpoints relations.
Proof.
  unfold endpoints. induction relations as [| r relations IH]; [done|].
  cbn [fmap list_fmap flat_map]. cbn [fmap list_fmap] in IH. by rewrite IH.
Qed.

Lemma build_ontology_endpoints entities relations n :
  n ∈ endpoints relations →
  is_Some (o_entities (build_ontology __init__ entities relations) !! n).
Proof.
  intros Hn. rewrite build_ontology_unfold, enrich_entities_lookup.
  apply fmap_is_Some. by apply add_relations_present.
Qed.

Lemma elem_of_endpoints r relations :
  r ∈ relations →
  r_source r ∈ endpoints relations ∧ r_target r ∈ endpoints relations.
Proof.
  intros Hr. unfold endpoints. split; apply list_elem_of_In, in_flat_map;
    exists r; (split; [by apply list_elem_of_In |]); cbn; tauto.
Qed.

(** C6. After [build_ontology] on a fresh aggregator, the source and the
    target of every relation of the ontology are keys of its entity
    mapping; and a name that is no mention of the input is created by the
    first relation that refers to it, with the kind that relation records
    for that endpoint (['UNKNOWN'] when it records none) and with mention
    count 0. *)
Theorem build_ontology_referential entities relations :
  (∀ r, r ∈ o_relations (build_ontology __init__ entities relations) →
        is_Some (o_entities (build_ontology __init__ entities relations)
                   !! r_source r)
        ∧ is_Some (o_entities (build_ontology __init__ entities relations)
                     !! r_target r))
  ∧ (∀ n before relation after,
       occurrences_of n entities = [] →
       relations = before ++ relation :: after →
       n ∉ endpoints before →
       n ∈ [r_source relation; r_target relation] →
       ∃ d, o_entities (build_ontology __init__ entities relations) !! n = Some d
            ∧ d_type d = default UNKNOWN (recorded_kind relation n)
            ∧ a_mentions (d_attributes d) = 0).
Proof.
  split.
  - intros r Hr. rewrite build_ontology_relations in Hr.
    apply elem_of_endpoints in Hr as [Hs Ht].
    rewrite endpoints_stored in Hs, Ht.
    split; by apply build_ontology_endpoints.
  - intros n before relation after Hocc -> Hbefore Hin.
    rewrite build_ontology_unfold, enrich_entities_lookup.
    edestruct (add_relations_created before relation after
      {| o_entities := add_entities ∅ entities;
         o_relations := [];
         o_relation_types := ∅ |} n) as (d & Hd & Ht & Hm & _);
      [| done | done |].
    + cbn [o_entities]. rewrite add_entities_occurrences.
      apply add_occurrences_absent; [apply lookup_empty | exact Hocc].
    + rewrite Hd. eexists. split; [reflexivity|]. by split.
Qed.

(** The witness: Тула is no mention, and the one relation that targets it
    records the kind LOC. *)
Lemma build_ontology_referential_witness :
  ∃ d, o_entities (build_ontology __init__ collapse_entities collapse_relations)
         !! u "Тула" = Some d
       ∧ d_type d = LOC
       ∧ a_mentions (d_attributes d) = 0.
Proof.
  destruct (build_ontology_referential collapse_entities collapse_relations)
    as [_ H].
  destruct (H (u "Тула") [] collapse_relation []) as (d & Hd & Ht & Hm).
  - reflexivity.
  - reflexivity.
  - apply not_elem_of_nil.
  - apply (bool_decide_unpack _). vm_compute. exact I.
  - exists d. split; [exact Hd |]. split; [exact Ht | exact Hm].
Defined.

(** C7. After [build_ontology] on a fresh aggregator, every entity carries
    [total_relations], which counts the relations it is the source of plus
    the relations it is the target of, and the sum of [total_relations]
    over all entities is twice the number of relations. *)
Theorem build_ontology_total_relations entities relations :
  sum_total_relations (o_entities (build_ontology __init__ entities relations))
  = 2 * Z.of_nat (length (o_relations (build_ontology __init__ entities relations)))
  ∧ (∀ n d,
       o_entities (build_ontology __init__ entities relations) !! n = Some d →
       a_total_relations (d_attributes d)
       = Some (endpoint_count
                 (o_relations (build_ontology __init__ entities relations)) n)).
Proof.
  rewrite build_ontology_relations. rewrite build_ontology_unfold.
  set (o := fold_left add_relation relations _).
  assert (Hrel : o_relations o = stored <$> relations).
  { unfold o. by rewrite add_relations_relations. }
  split.
  - unfold sum_total_relations, _enrich_entities. cbn [o_entities].
    change (sum_map (λ _ d, default 0 (a_total_relations (d_attributes d)))
              (map_imap (λ name d, Some (enrich (relation_count (o_relations o))
                 (relation_types_count (o_relations o)) name d)) (o_entities o))
            = 2 * Z.of_nat (length (stored <$> relations))).
    rewrite (sum_map_imap (λ _ d, default 0 (a_total_relations (d_attributes d)))).
    cbn [enrich d_attributes a_total_relations default].
    rewrite (sum_map_ext _ (λ n _, endpoint_count (o_relations o) n)).
    2: { intros. apply relation_count_lookup. }
    rewrite Hrel. apply sum_endpoint_count.
    intros n Hn. rewrite endpoints_stored in Hn.
    unfold o. by apply add_relations_present.
  - intros n d. rewrite enrich_entities_lookup.
    destruct (o_entities o !! n) as [d0|]; [| done]. cbn [fmap option_fmap option_map].
    intros [= <-]. cbn [enrich d_attributes a_total_relations].
    by rewrite relation_count_lookup, Hrel.
Qed.

(** The witness: Орёл is the source of the one relation. *)
Lemma build_ontology_total_relations_witness :
  ∃ d, o_entities (build_ontology __init__ collapse_entities collapse_relations)
         !! u "Орёл" = Some d
       ∧ a_total_relations (d_attributes d) = Some 1.
Proof.
  destruct (build_ontology_total_relations collapse_entities collapse_relations)
    as [_ H].
  destruct (o_entities (build_ontology __init__ collapse_entities collapse_relations)
              !! u "Орёл") as [d|] eqn:Hd.
  - exists d. split; [reflexivity |]. exact (H _ d Hd).
  - vm_compute in Hd. discriminate Hd.
Defined.

(** C10. [build_ontology] keys the entities by normalised name alone: the
    keys are the names of the mentions and of the relation endpoints,
    whatever their kinds; and for a name with occurrences among the input
    mentions, the one entity under that name has the kind of the first
    occurrence, the start of the first occurrence as [first_mention], and
    one mention per occurrence, of whatever kind. *)
Theorem build_ontology_name_collapse entities relations :
  dom (o_entities (build_ontology __init__ entities relations))
  = list_to_set ((λ ke, e_normalized ke.2) <$> occurrences entities)
    ∪ list_to_set (endpoints relations)
  ∧ (∀ n kind first rest,
       occurrences_of n entities = (kind, first) :: rest →
       ∃ d, o_entities (build_ontology __init__ entities relations) !! n = Some d
            ∧ d_type d = kind
            ∧ a_mentions (d_attributes d) = 1 + Z.of_nat (length rest)
            ∧ a_first_mention (d_attributes d) = Some (e_start first)).
Proof.
  rewrite build_ontology_unfold. split.
  - rewrite enrich_entities_dom, add_relations_dom. cbn [o_entities].
    rewrite add_entities_occurrences, add_occurrences_dom.
    rewrite dom_empty_L. by rewrite (left_id_L ∅ (∪)).
  - intros n kind first rest Hocc. rewrite enrich_entities_lookup.
    destruct (add_occurrences_first (occurrences entities) ∅ n kind first rest)
      as (d & Hd & Ht & Hm & Hf); [apply lookup_empty | exact Hocc |].
    rewrite (add_relations_preserves relations _ n d).
    + eexists. split; [reflexivity|]. by split_and!.
    + cbn [o_entities]. by rewrite add_entities_occurrences.
Qed.

(** The witness: Орёл occurs twice as a person and once as a location. *)
Lemma build_ontology_name_collapse_witness :
  ∃ d, o_entities (build_ontology __init__ collapse_entities collapse_relations)
         !! u "Орёл" = Some d
       ∧ d_type d = PERSON
       ∧ a_mentions (d_attributes d) = 3
       ∧ a_first_mention (d_attributes d) = Some 0.
Proof.
  destruct (build_ontology_name_collapse collapse_entities collapse_relations)
    as [_ H].
  exact (H (u "Орёл") PERSON (mention "Орёл" 0 4 "Орёл")
           [(PERSON, mention "Орла" 20 24 "Орёл");
            (LOC, mention "Орле" 40 44 "Орёл")] eq_refl).
Defined.

End Ontology.

(** ** Facts about strings *)

Section Strings.

Lemma find_aux_range sub s i :
  find_aux sub s i = -1
  ∨ (i ≤ find_aux sub s i ≤ i + Z.of_nat (length s)).
Proof.
  revert i. induction s as [| c s IH]; intros i; cbn [find_aux].
  - destruct (startswith [] sub); [right; cbn; lia | by left].
  - destruct (startswith (c :: s) sub); [right; cbn [length]; lia |].
    destruct (IH (i + 1)) as [-> | H]; [by left | right].
    cbn [length]. lia.
Qed.

(** [s.find(sub, start)] is -1 or an offset from [start] to [len(s)]. *)
Lemma find_range s sub start :
  0 ≤ start →
  find s sub start = -1 ∨ (start ≤ find s sub start ≤ len s).
Proof.
  intros Hstart. unfold find, len.
  destruct (Z.ltb_spec (Z.of_nat (length s)) start) as [Hlt | Hle]; [by left|].
  unfold norm_index. destruct (Z.ltb_spec start 0) as [? | _]; [lia|].
  rewrite Z.min_r by lia.
  destruct (find_aux_range sub (drop (Z.to_nat start) s) start) as [-> | H];
    [by left | right].
  rewrite length_drop in H. lia.
Qed.

(** The loop of [_find_all_positions] ends before its fuel does. *)
Lemma find_all_loop_total fuel text sub start :
  0 ≤ start →
  (Z.to_nat (len text + 1 - start) < fuel)%nat →
  is_Some (find_all_loop fuel text sub start).
Proof.
  revert start. induction fuel as [| fuel IH]; intros start Hstart Hfuel;
    [lia|]. cbn [find_all_loop].
  destruct (Z.eqb_spec (find text sub start) (-1)) as [_ | Hne]; [eauto|].
  destruct (find_range text sub start Hstart) as [? | Hr]; [done|].
  apply fmap_is_Some. apply IH; lia.
Qed.

Lemma find_all_positions_total text substring :
  find_all_loop (S (S (length (lower text)))) (lower text) (lower substring) 0
  = Some (_find_all_positions text substring).
Proof.
  unfold _find_all_positions.
  destruct (find_all_loop_total (S (S (length (lower text)))) (lower text)
              (lower substring) 0) as [l ->]; [lia | | done].
  unfold len. lia.
Qed.

Lemma split_ws_words s cur :
  Forall (λ c, is_space c = false) cur →
  Forall is_word (split_ws s cur).
Proof.
  revert cur. induction s as [| c s IH]; intros cur Hcur; cbn [split_ws].
  - destruct cur as [| d cur]; [constructor|]. repeat constructor.
    + intros Hnil. by apply (f_equal length) in Hnil;
        rewrite length_reverse in Hnil.
    + by apply Forall_reverse.
  - destruct (is_space c) eqn:Hc.
    + destruct cur as [| d cur]; [apply IH; constructor|].
      constructor; [| apply IH; constructor]. split.
      * intros Hnil. by apply (f_equal length) in Hnil;
          rewrite length_reverse in Hnil.
      * by apply Forall_reverse.
    + apply IH. by constructor.
Qed.

Lemma split_ws_app w s cur :
  Forall (λ c, is_space c = false) w →
  split_ws (w ++ s) cur = split_ws s (reverse w ++ cur).
Proof.
  revert cur. induction w as [| c w IH]; intros cur Hw; [done|].
  apply Forall_cons in Hw as [Hc Hw]. cbn [app split_ws]. rewrite Hc.
  rewrite IH by done. by rewrite reverse_cons, <- app_assoc.
Qed.

Lemma split_word w : is_word w → split w = [w].
Proof.
  intros [Hne Hw]. unfold split.
  rewrite <- (app_nil_r w) at 1. rewrite split_ws_app by done.
  cbn [split_ws]. rewrite app_nil_r.
  destruct (reverse w) eqn:Hr.
  - apply (f_equal length) in Hr. rewrite length_reverse in Hr.
    by destruct w.
  - by rewrite <- Hr, reverse_involutive.
Qed.

Lemma split_two_words a b :
  is_word a → is_word b → split (a ++ u " " ++ b) = [a; b].
Proof.
  intros [Ha Hwa] Hb. unfold split. rewrite split_ws_app by done.
  change (u " " ++ b) with (32%N :: b). cbn [split_ws].
  change (is_space 32) with true. cbv iota. rewrite app_nil_r.
  destruct (reverse a) eqn:Hr.
  - apply (f_equal length) in Hr. rewrite length_reverse in Hr.
    by destruct a.
  - rewrite <- Hr, reverse_involutive. f_equal. by apply split_word.
Qed.

End Strings.

(** ** The string operations on examples *)

Section StringExamples.

Example utf8_cyrillic : u "Ёж — ёж" = [1025; 1078; 32; 8212; 32; 1105; 1078]%N.
Proof. reflexivity. Qed.

Example lower_mixed : lower (u "Пётр ИВАН Ёж Abc") = u "пётр иван ёж abc".
Proof. reflexivity. Qed.

(** The lower case of a string can be longer than the string, depends on
    the position of a capital sigma, and reaches beyond the two alphabets
    of the keyword tables. *)
Example lower_full_mappings :
  lower (u "İİİx") = [105; 775; 105; 775; 105; 775; 120]%N
  ∧ lower (u "Émile и ÉMILE") = u "émile и émile"
  ∧ lower (u "ΟΔΥΣΣΕΥΣ") = u "οδυσσευς"
  ∧ upper (u "straße") = u "STRASSE"
  ∧ isupper_cp 201 = true.
Proof. vm_compute. by split_and!. Qed.

Example split_runs : split (u "  Иван   Петров ") = [u "Иван"; u "Петров"].
Proof. reflexivity. Qed.

Example re_split_keeps_empty_pieces :
  re_split name_separator (u "-Санкт - Петербург ")
  = [[]; u "Санкт"; u "Петербург"; []].
Proof. reflexivity. Qed.

Example find_from_offset :
  find (u "abcabc") (u "bc") 2 = 4 ∧ find (u "abc") (u "x") 0 = -1
  ∧ find (u "abc") [] 3 = 3 ∧ find (u "abc") [] 4 = -1.
Proof. by split_and!. Qed.

Example slice_bounds :
  slice (u "abcdef") (-2) 100 = u "ef" ∧ slice (u "abcdef") 4 2 = []
  ∧ slice (u "abcdef") 0 (-4) = u "ab".
Proof. by split_and!. Qed.

Example rstrip_vowels : rstrip (u "москва") (u "аеиоуыэюя") = u "москв".
Proof. reflexivity. Qed.

Example find_all_overlapping :
  _find_all_positions (u "аАа Аа") (u "АА") = [0; 1; 4].
Proof. reflexivity. Qed.

(** The offsets are those of the lower-cased text, which can lie beyond
    the end of the text. *)
Example find_all_lowered :
  _find_all_positions (u "İİİx") (u "x") = [6]
  ∧ _find_all_positions (u "Émile и ÉMILE") (u "émile") = [0; 8].
Proof. vm_compute. by split_and!. Qed.

(** Two spellings of a name that differ in case fall into one bucket. *)
Example normalize_accented :
  _normalize_persons [mention "Émile" 0 5 "Émile"; mention "émile" 9 14 "émile"]
  = [with_count 2 (mention "Émile" 0 5 "Émile")].
Proof. vm_compute. reflexivity. Qed.

Example person_key_first_last :
  person_key (u "Иван Петрович Сидоров") = u "Иван Сидоров".
Proof. reflexivity. Qed.

Example base_form_compound :
  _get_location_base_form lower (u " Санкт - петербурге ")
  = u "Санкт-петербурге".
Proof. reflexivity. Qed.

End StringExamples.

(** ** The normaliser *)

Section Normalizer.

Lemma last_word (ws : list pystr) :
  ws ≠ [] → Forall is_word ws → is_word (List.last ws []).
Proof.
  induction ws as [| w ws IH]; [done|]. intros _ Hws.
  apply Forall_cons in Hws as [Hw Hws]. destruct ws as [| w' ws]; [done|].
  change (List.last (w :: w' :: ws) []) with (List.last (w' :: ws) []).
  by apply IH.
Qed.

(** The key of a person is the key of itself. *)
Lemma person_key_idempotent n : person_key (person_key n) = person_key n.
Proof.
  unfold person_key at 2 3.
  pose proof (split_ws_words n [] (Forall_nil_2 _)) as Hws. fold (split n) in Hws.
  destruct (split n) as [| p0 [| p1 ps]] eqn:Hn.
  - unfold person_key. by rewrite Hn.
  - apply Forall_cons in Hws as [Hp0 _].
    unfold person_key. by rewrite (split_word p0 Hp0).
  - assert (Hl : is_word (List.last (p0 :: p1 :: ps) [])).
    { by apply last_word. }
    apply Forall_cons in Hws as [Hp0 _].
    unfold person_key. by rewrite (split_two_words _ _ Hp0 Hl).
Qed.

Context (key_of_name : pystr → pystr).

Lemma group_append_new groups key_lower key e :
  key_lower ∉ fst <$> groups →
  group_append groups key_lower key e
  = groups ++ [(key_lower, {| g_name := key; g_members := [e] |})].
Proof.
  induction groups as [| [k g] groups IH]; intros Hk; cbn [group_append];
    [done|].
  cbn [fmap list_fmap fst] in Hk. apply not_elem_of_cons in Hk as [Hne Hk].
  rewrite bool_decide_eq_false_2 by done. cbn [app]. by rewrite IH.
Qed.

Lemma group_append_old groups key_lower key e :
  key_lower ∈ fst <$> groups →
  fst <$> group_append groups key_lower key e = fst <$> groups.
Proof.
  induction groups as [| [k g] groups IH]; intros Hk; cbn [group_append].
  - by apply elem_of_nil in Hk.
  - case_bool_decide as Hkk; [done|]. cbn [fmap list_fmap fst] in *.
    apply elem_of_cons in Hk as [-> | Hk]; [done|]. by rewrite IH.
Qed.

Lemma group_append_Forall (P : pystr * group → Prop) groups key_lower key e :
  Forall P groups →
  (∀ g, P (key_lower, g) →
        P (key_lower, {| g_name := g_name g; g_members := g_members g ++ [e] |})) →
  P (key_lower, {| g_name := key; g_members := [e] |}) →
  Forall P (group_append groups key_lower key e).
Proof.
  intros Hall Hold Hnew.
  induction groups as [| [k g] groups IH]; cbn [group_append].
  - by constructor.
  - apply Forall_cons in Hall as [Hkg Hall]. case_bool_decide as Hk.
    + subst k. constructor; [by apply Hold | done].
    + constructor; [done | by apply IH].
Qed.

(** The grouping loop keeps the buckets well formed. *)
Lemma group_by_fold mentions pending groups :
  (∀ e, e ∈ pending → e ∈ mentions) →
  well_grouped key_of_name mentions groups →
  well_grouped key_of_name mentions
    (fold_left (λ groups mention,
                  let key := key_of_name (e_normalized mention) in
                  group_append groups (lower key) key mention)
               pending groups).
Proof.
  revert groups. induction pending as [| e pending IH];
    intros groups Hsub Hwg; cbn [fold_left]; [done|].
  apply IH; [intros e' He'; apply Hsub; by apply elem_of_cons; right |].
  destruct Hwg as [Hnd Hall]. split.
  - destruct (decide (lower (key_of_name (e_normalized e)) ∈ fst <$> groups))
      as [Hin | Hnin].
    + by rewrite group_append_old.
    + rewrite group_append_new, fmap_app by done.
      apply NoDup_app. split_and!; [done | | apply NoDup_singleton].
      intros k Hk Hk'. apply list_elem_of_singleton in Hk'. by subst k.
  - apply group_append_Forall; [done | |].
    + cbn [fst snd g_name g_members]. intros g (Hk & Hne & He).
      split_and!; [done | | done]. by destruct (g_members g).
    + cbn [fst snd g_name g_members]. split_and!; [done | done |].
      exists e. split; [| done]. apply Hsub. by apply elem_of_cons; left.
Qed.

Lemma group_by_well_grouped mentions :
  well_grouped key_of_name mentions (group_by key_of_name mentions).
Proof.
  unfold group_by. apply group_by_fold; [done|].
  split; [constructor | constructor].
Qed.

(** On mentions whose keys are pairwise distinct, the grouping loop makes
    one bucket per mention. *)
Lemma group_by_distinct pending groups :
  NoDup ((fst <$> groups)
         ++ ((λ e, lower (key_of_name (e_normalized e))) <$> pending)) →
  fold_left (λ groups mention,
               let key := key_of_name (e_normalized mention) in
               group_append groups (lower key) key mention)
            pending groups
  = groups
    ++ ((λ e, (lower (key_of_name (e_normalized e)),
               {| g_name := key_of_name (e_normalized e);
                  g_members := [e] |})) <$> pending).
Proof.
  revert groups. induction pending as [| e pending IH]; intros groups Hnd;
    cbn [fold_left fmap list_fmap].
  - by rewrite app_nil_r.
  - cbn [fmap list_fmap] in Hnd.
    rewrite group_append_new.
    + rewrite IH.
      * by rewrite <- app_assoc.
      * rewrite fmap_app. cbn [fmap list_fmap fst]. by rewrite <- app_assoc.
    + apply NoDup_app in Hnd as (_ & Hdisj & _). intros Hin.
      apply (Hdisj _ Hin). by apply elem_of_cons; left.
Qed.

(** The entities returned for well-formed buckets. *)
Lemma canonical_well_grouped mentions groups :
  well_grouped key_of_name mentions groups →
  NoDup ((λ c, lower (e_normalized c)) <$> omap canonical groups)
  ∧ Forall (λ c, ∃ e, e ∈ mentions
                      ∧ e_normalized c = key_of_name (e_normalized e))
           (omap canonical groups).
Proof.
  intros [Hnd Hall].
  assert (Hkeys : (λ c, lower (e_normalized c)) <$> omap canonical groups
                  = fst <$> groups).
  { clear Hnd. induction groups as [| [k g] groups IH]; [done|].
    apply Forall_cons in Hall as [(Hk & Hne & _) Hall].
    cbn [fst snd] in Hk, Hne. cbn [omap list_omap]. unfold canonical at 1.
    cbn [snd]. destruct (g_members g) as [| first rest]; [done|].
    cbn [fmap list_fmap fst e_normalized]. rewrite <- Hk. f_equal.
    by apply IH. }
  split; [by rewrite Hkeys|].
  clear Hnd Hkeys. induction groups as [| [k g] groups IH]; [constructor|].
  apply Forall_cons in Hall as [(_ & Hne & He) Hall].
  cbn [fst snd] in Hne, He. cbn [omap list_omap]. unfold canonical at 1.
  cbn [snd]. destruct (g_members g) as [| first rest]; [done|].
  constructor; [exact He | by apply IH].
Qed.

(** A second run of the normalisation step keeps the entities of the
    first, in their order, and counts one mention for each. *)
Lemma normalize_by_twice mentions :
  (∀ e, e ∈ mentions →
        key_of_name (key_of_name (e_normalized e))
        = key_of_name (e_normalized e)) →
  normalize_by key_of_name (normalize_by key_of_name mentions)
  = with_count 1 <$> normalize_by key_of_name mentions.
Proof.
  intros Hidem. unfold normalize_by.
  destruct (canonical_well_grouped mentions _ (group_by_well_grouped mentions))
    as [Hnd Hall].
  set (out := omap canonical (group_by key_of_name mentions)) in *.
  assert (Hfix : Forall (λ c, key_of_name (e_normalized c) = e_normalized c) out).
  { eapply Forall_impl; [exact Hall|]. cbn. intros c (e & He & ->).
    by apply Hidem. }
  unfold group_by. rewrite group_by_distinct.
  - clear Hnd Hall. cbn [app].
    induction out as [| c out IH]; [done|].
    apply Forall_cons in Hfix as [Hc Hfix].
    cbn [fmap list_fmap omap list_omap]. unfold canonical at 1.
    cbn [snd g_members g_name length]. rewrite Hc. cbn [fmap list_fmap] in IH.
    by rewrite IH.
  - cbn [fmap list_fmap app].
    replace ((λ e, lower (key_of_name (e_normalized e))) <$> out)
      with ((λ c, lower (e_normalized c)) <$> out); [done|].
    clear Hnd Hall. induction out as [| c out IH]; [done|].
    apply Forall_cons in Hfix as [Hc Hfix]. cbn [fmap list_fmap].
    rewrite Hc. f_equal. by apply IH.
Qed.

End Normalizer.

(** ** The base form of a location name *)

Section BaseForm.

Lemma split_on_free p s cur b :
  Forall (λ c, p c = false) cur →
  Forall (Forall (λ c, p c = false)) (split_on p s cur b).
Proof.
  revert cur b. induction s as [| c s IH]; intros cur b Hcur; cbn [split_on].
  - constructor; [by apply Forall_reverse | constructor].
  - destruct (p c) eqn:Hc.
    + destruct b; [by apply IH|].
      constructor; [by apply Forall_reverse | apply IH; constructor].
    + apply IH. by constructor.
Qed.

(** Reading a run of characters that are no separators. *)
Lemma split_on_run p w s cur b :
  w ≠ [] → Forall (λ c, p c = false) w →
  split_on p (w ++ s) cur b = split_on p s (reverse w ++ cur) false.
Proof.
  revert cur b. induction w as [| c w IH]; intros cur b Hne Hw; [done|].
  apply Forall_cons in Hw as [Hc Hw]. cbn [app split_on]. rewrite Hc.
  destruct w as [| c' w]; [done|].
  rewrite IH by done. by rewrite (reverse_cons _ c), <- app_assoc.
Qed.

(** Splitting what was joined by one separator gives the pieces back. *)
Lemma split_on_join p c (ws : list pystr) b :
  p c = true → ws ≠ [] →
  Forall (λ w, w ≠ [] ∧ Forall (λ c, p c = false) w) ws →
  split_on p (join [c] ws) [] b = ws.
Proof.
  intros Hc. revert b. induction ws as [| w ws IH]; intros b Hne Hws; [done|].
  apply Forall_cons in Hws as [[Hw Hfree] Hws].
  destruct ws as [| w' ws].
  - cbn [join]. rewrite <- (app_nil_r w) at 1.
    rewrite split_on_run by done. cbn [split_on].
    by rewrite app_nil_r, reverse_involutive.
  - change (join [c] (w :: w' :: ws)) with (w ++ c :: join [c] (w' :: ws)).
    rewrite split_on_run by done. cbn [split_on]. rewrite Hc.
    rewrite app_nil_r, reverse_involutive. f_equal. by apply IH.
Qed.

Lemma rstrip_with_snoc p s d :
  p d = false → rstrip_with p (s ++ [d]) = s ++ [d].
Proof.
  intros Hd. induction s as [| a s IH]; cbn [app rstrip_with].
  - by rewrite Hd.
  - rewrite IH. by destruct (s ++ [d]) eqn:Hs; [destruct s |].
Qed.

Lemma join_head (sep w : pystr) (ws : list pystr) :
  w ≠ [] → ∃ d s, join sep (w :: ws) = d :: s ∧ d ∈ w.
Proof.
  intros Hw. destruct w as [| d w]; [done|]. exists d.
  destruct ws as [| w' ws]; cbn [join app]; eexists;
    (split; [reflexivity | by apply elem_of_cons; left]).
Qed.

Lemma join_last (sep : pystr) (ws : list pystr) :
  ws ≠ [] → Forall (λ w, w ≠ []) ws →
  ∃ s d w, join sep ws = s ++ [d] ∧ w ∈ ws ∧ d ∈ w.
Proof.
  induction ws as [| w ws IH]; intros Hne Hws; [done|].
  apply Forall_cons in Hws as [Hw Hws]. destruct ws as [| w' ws].
  - cbn [join]. destruct (exists_last Hw) as (s & d & ->).
    exists s, d, (s ++ [d]). split_and!; [done | by apply elem_of_cons; left |].
    apply elem_of_app. right. by apply elem_of_cons; left.
  - destruct IH as (s & d & w0 & Hj & Hw0 & Hd); [done | done |].
    change (join sep (w :: w' :: ws)) with (w ++ sep ++ join sep (w' :: ws)).
    rewrite Hj. exists (w ++ sep ++ s), d, w0.
    split_and!; [by rewrite <- !app_assoc | by apply elem_of_cons; right | done].
Qed.

Lemma elem_of_join (x : N) (sep : pystr) (ws : list pystr) :
  x ∈ join sep ws → x ∈ sep ∨ ∃ w, w ∈ ws ∧ x ∈ w.
Proof.
  induction ws as [| w ws IH]; [by intros H; apply elem_of_nil in H|].
  destruct ws as [| w' ws].
  - cbn [join]. intros Hx. right. exists w.
    split; [by apply elem_of_cons; left | done].
  - change (join sep (w :: w' :: ws)) with (w ++ sep ++ join sep (w' :: ws)).
    rewrite !elem_of_app. intros [Hx | [Hx | Hx]].
    + right. exists w. split; [by apply elem_of_cons; left | done].
    + by left.
    + destruct (IH Hx) as [? | (w0 & Hw0 & Hx0)]; [by left | right].
      exists w0. split; [by apply elem_of_cons; right | done].
Qed.

Lemma component_no_space w c :
  is_component w → c ∈ w → is_space c = false ∧ c ≠ 45%N.
Proof.
  intros [_ Hw] Hc. rewrite Forall_forall in Hw. specialize (Hw c Hc).
  unfold name_separator in Hw. apply orb_false_iff in Hw as [Hs Hh].
  split; [done|]. intros ->. discriminate Hh.
Qed.

(** A name joined from components is already stripped. *)
Lemma strip_join c (ws : list pystr) :
  is_space c = true ∨ c = 45%N →
  ws ≠ [] → Forall is_component ws →
  strip (join [c] ws) = join [c] ws.
Proof.
  intros _ Hne Hws. unfold strip.
  assert (Hne' : Forall (λ w : pystr, w ≠ []) ws).
  { eapply Forall_impl; [exact Hws|]. by intros w [? _]. }
  rewrite Forall_forall in Hws.
  assert (Hl : lstrip (join [c] ws) = join [c] ws).
  { destruct ws as [| w ws]; [done|].
    destruct (join_head [c] w ws (Forall_inv Hne')) as (d & s & Hj & Hd).
    assert (Hw : is_component w) by (apply Hws; by apply elem_of_cons; left).
    destruct (component_no_space w d Hw Hd) as [Hs _].
    rewrite Hj. cbn [lstrip]. by rewrite Hs. }
  rewrite Hl.
  destruct (join_last [c] ws Hne Hne') as (s & d & w & -> & Hw & Hd).
  apply rstrip_with_snoc. by destruct (component_no_space w d (Hws w Hw) Hd).
Qed.

Context (normal_form : pystr → pystr).
Context (Hcomponent : ∀ w, is_component w →
                           is_component (base_word normal_form w)).
Context (Hstable : ∀ w, is_component w →
                        base_word normal_form (base_word normal_form w)
                        = base_word normal_form w).

(** The base form of a name that is joined from stable components is the
    name itself. *)
Lemma base_form_join c (ws : list pystr) :
  c = 45%N ∨ c = 32%N →
  Forall (λ w, is_component w ∧ base_word normal_form w = w) ws →
  _get_location_base_form normal_form (join [c] ws) = join [c] ws.
Proof.
  intros Hc Hws. destruct ws as [| w0 ws0] eqn:Hws0; [reflexivity|].
  rewrite <- Hws0 in *. assert (Hne : ws ≠ []) by (by subst ws).
  clear Hws0 w0 ws0.
  assert (Hcomp : Forall is_component ws).
  { eapply Forall_impl; [exact Hws|]. by intros w [? _]. }
  assert (Hsep : name_separator c = true) by (by destruct Hc as [-> | ->]).
  unfold _get_location_base_form.
  rewrite strip_join; [| destruct Hc as [-> | ->]; [by right | by left] | done | done].
  assert (Htruthy : truthy (join [c] ws) = true).
  { destruct ws as [| w ws]; [done|].
    apply Forall_inv in Hcomp. destruct Hcomp as [Hw _].
    by destruct (join_head [c] w ws Hw) as (d & s & -> & _). }
  rewrite Htruthy. cbn [negb]. unfold re_split.
  rewrite (split_on_join name_separator c ws false Hsep Hne Hcomp).
  assert (Hwords : flat_map (λ word, if truthy word
                                     then [base_word normal_form word] else [])
                            ws = ws).
  { clear Hne Hcomp Htruthy. induction ws as [| w ws IH]; [done|].
    apply Forall_cons in Hws as [[[Hw _] Hb] Hws]. cbn [flat_map].
    destruct w as [| d w]; [done|]. cbn [truthy app]. rewrite Hb.
    f_equal. by apply IH. }
  rewrite Hwords.
  change (u "-") with [45%N]. change (u " ") with [32%N].
  assert (Hno : ∀ w, w ∈ ws → 45%N ∉ w).
  { intros w Hw H45. rewrite Forall_forall in Hcomp.
    by destruct (component_no_space w 45%N (Hcomp w Hw) H45). }
  case_bool_decide as H45.
  - destruct Hc as [-> | ->]; [done|]. exfalso.
    apply elem_of_join in H45 as [H | (w & Hw & H)].
    + apply list_elem_of_singleton in H. discriminate H.
    + by apply (Hno w).
  - destruct Hc as [-> | ->]; [| done].
    destruct ws as [| w [| w' ws]]; [done | done |]. exfalso. apply H45.
    change (join [45%N] (w :: w' :: ws))
      with (w ++ 45%N :: join [45%N] (w' :: ws)).
    apply elem_of_app. right. by apply elem_of_cons; left.
Qed.

(** The base form of a base form is that base form. *)
Lemma base_form_idempotent name :
  _get_location_base_form normal_form
    (_get_location_base_form normal_form name)
  = _get_location_base_form normal_form name.
Proof.
  unfold _get_location_base_form at 2 3.
  destruct (truthy (strip name)) eqn:Ht; cbn [negb].
  2: { by destruct (strip name). }
  set (ws := flat_map _ (re_split name_separator (strip name))).
  assert (Hws : Forall (λ w, is_component w ∧ base_word normal_form w = w) ws).
  { unfold ws, re_split.
    pose proof (split_on_free name_separator (strip name) [] false
                  (Forall_nil_2 _)) as Hfree.
    induction (split_on name_separator (strip name) [] false) as [| w words IH];
      [constructor|].
    apply Forall_cons in Hfree as [Hw Hfree]. cbn [flat_map].
    destruct (truthy w) eqn:Hwt; [| by apply IH].
    assert (Hcw : is_component w) by (split; [by destruct w | done]).
    constructor; [| by apply IH].
    split; [by apply Hcomponent | by apply Hstable]. }
  change (u "-") with [45%N]. change (u " ") with [32%N].
  case_bool_decide; apply base_form_join; auto.
Qed.

End BaseForm.

Lemma in_table_enum t c : in_table t c = true → c ∈ enum_table t.
Proof.
  unfold in_table, enum_table. intros H.
  apply existsb_exists in H as ([[lo hi] step] & Hin & Hr).
  apply list_elem_of_In, in_flat_map. exists (lo, hi, step).
  split; [done|]. apply list_elem_of_In. unfold enum_range. cbn [fst snd].
  unfold in_range in Hr.
  apply andb_true_iff in Hr as [[Hlo Hhi]%andb_true_iff _].
  apply N.leb_le in Hlo, Hhi.
  apply list_elem_of_fmap. exists (N.to_nat (c - lo)). split; [lia|].
  apply elem_of_seq. lia.
Qed.

Lemma uppercase_fixed :
  forallb (λ c, implb (isupper_cp c) (bool_decide (upper_cp c = [c])))
          (enum_table uppercase_table) = true.
Proof. vm_compute. reflexivity. Qed.

Lemma isupper_upper c : isupper_cp c = true → upper_cp c = [c].
Proof.
  intros Hc. pose proof (in_table_enum _ _ Hc) as Hin.
  apply list_elem_of_In in Hin.
  pose proof (proj1 (forallb_forall _ _) uppercase_fixed c Hin) as H.
  cbn beta in H. rewrite Hc in H. cbn [implb] in H.
  by apply bool_decide_eq_true in H.
Qed.

(** An analyser that returns every word unchanged leaves every word as its
    own base. *)
Lemma base_word_id w : base_word (λ w, w) w = w.
Proof.
  unfold base_word. destruct w as [| c w]; [done|].
  destruct (isupper_cp c) eqn:Hc; [| done].
  destruct w as [| c' w]; cbn [upper flat_map app];
    by rewrite isupper_upper.
Qed.


(** ** Mirrors of RESIDENCE and WORK relations *)

Section MirrorCompleteness.

Lemma mirror_type_not_skipped t reverse_type :
  t ∉ skipped_types →
  dict_get bidirectional_map t = Some reverse_type →
  (reverse_type ∉ skipped_types) ∧ truthy reverse_type = true.
Proof.
  intros Hs Hm.
  destruct (mirror_type_cases t reverse_type Hs Hm) as [[_ ->] | [_ ->]];
    (split; [| reflexivity]); unfold skipped_types;
    rewrite !elem_of_cons, elem_of_nil; intros [H | [H | [H | []]]];
    discriminate H.
Qed.

(** One iteration keeps this invariant: a key in [seen_reverse] whose type
    is not skipped is the key of a relation in [all_relations]; and it
    leaves the mirror key of a RESIDENCE or WORK relation in the list. *)
Lemma bidirectional_step_complete all seen relation :
  (∀ k, k ∈ seen → k.2 ∉ skipped_types → k ∈ key_of <$> all) →
  ∃ mirrors seen',
    bidirectional_step (all, seen) relation = (all ++ mirrors, seen')
    ∧ (∀ k, k ∈ seen' → k.2 ∉ skipped_types → k ∈ key_of <$> all ++ mirrors)
    ∧ (∀ reverse_type,
         r_type relation ∉ skipped_types →
         dict_get bidirectional_map (r_type relation) = Some reverse_type →
         (r_target relation, r_source relation, reverse_type)
           ∈ key_of <$> all ++ mirrors).
Proof.
  intros Hinv. unfold bidirectional_step. fold skipped_types.
  destruct (decide (r_type relation ∈ skipped_types)) as [Hs | Hs].
  - rewrite (bool_decide_eq_true_2 _ Hs). cbn [andb].
    case_bool_decide as Hk; cbn [negb].
    + rewrite (skipped_types_map _ Hs).
      exists [], seen. rewrite app_nil_r.
      split_and!; [| done | done].
      destruct (truthy (r_type relation)); [| done].
      by rewrite (bool_decide_eq_true_2 _ Hk).
    + eexists [], _. rewrite app_nil_r. split_and!; [done | | done].
      intros k Hin Hks. apply elem_of_union in Hin as [Hin | Hin].
      * apply elem_of_singleton in Hin. subst k. done.
      * by apply Hinv.
  - rewrite (bool_decide_eq_false_2 _ Hs). cbn [andb].
    destruct (dict_get bidirectional_map (r_type relation)) as [rt|] eqn:Hm.
    2: { exists [], seen. rewrite app_nil_r. by split_and!. }
    destruct (mirror_type_not_skipped _ _ Hs Hm) as [Hrt ->].
    case_bool_decide as Hk.
    + exists [], seen. rewrite app_nil_r. split_and!; [done | done |].
      intros rt' _ [= <-]. by apply Hinv.
    + eexists [_], _. split_and!; [done | |].
      * intros k Hin Hks. rewrite fmap_app, elem_of_app.
        apply elem_of_union in Hin as [Hin | Hin].
        -- apply elem_of_singleton in Hin. subst k. right.
           cbn [fmap list_fmap]. by apply list_elem_of_singleton.
        -- left. by apply Hinv.
      * intros rt' _ [= <-]. rewrite fmap_app, elem_of_app. right.
        cbn [fmap list_fmap]. by apply list_elem_of_singleton.
Qed.

Lemma bidirectional_fold_complete relations all seen :
  (∀ k, k ∈ seen → k.2 ∉ skipped_types → k ∈ key_of <$> all) →
  ∀ relation reverse_type,
    relation ∈ relations →
    r_type relation ∉ skipped_types →
    dict_get bidirectional_map (r_type relation) = Some reverse_type →
    (r_target relation, r_source relation, reverse_type)
      ∈ key_of <$> (fold_left bidirectional_step relations (all, seen)).1.
Proof.
  revert all seen. induction relations as [| r0 relations IH];
    intros all seen Hinv r rt Hr Hs Hm; cbn [fold_left].
  - by apply elem_of_nil in Hr.
  - destruct (bidirectional_step_complete all seen r0 Hinv)
      as (ms & seen1 & -> & Hinv1 & Hdone).
    apply elem_of_cons in Hr as [-> | Hr]; [| by eapply IH].
    destruct (bidirectional_fold relations (all ++ ms) seen1)
      as (ms' & seen' & -> & _).
    cbn [fst]. rewrite fmap_app, elem_of_app. left. by apply Hdone.
Qed.

(** X23. Every RESIDENCE relation of the list returned by the synthesiser
    has its HAS_RESIDENT mirror in the list, and every WORK relation its
    WORK mirror. *)
Lemma mirror_complete_residence_work relations r :
  r ∈ _create_bidirectional_relations relations →
  (r_type r = RESIDENCE →
   (r_target r, r_source r, HAS_RESIDENT)
     ∈ key_of <$> _create_bidirectional_relations relations)
  ∧ (r_type r = WORK →
     (r_target r, r_source r, WORK)
       ∈ key_of <$> _create_bidirectional_relations relations).
Proof.
  intros Hr.
  assert (Hin : ∀ r0 rt, r0 ∈ relations → r_type r0 ∉ skipped_types →
            dict_get bidirectional_map (r_type r0) = Some rt →
            (r_target r0, r_source r0, rt)
              ∈ key_of <$> _create_bidirectional_relations relations).
  { intros r0 rt. apply bidirectional_fold_complete.
    intros k Hk. by apply elem_of_empty in Hk. }
  revert Hr. unfold _create_bidirectional_relations in *.
  destruct (bidirectional_fold relations relations ∅)
    as (ms & seen' & Hfold & _ & Hall & _).
  rewrite Hfold in *. cbn [fst] in *. intros Hr.
  apply elem_of_app in Hr as [Hr | Hr].
  - split; intros Ht; apply Hin; try done; rewrite Ht; try reflexivity;
      unfold skipped_types; rewrite !elem_of_cons, elem_of_nil;
      intros [H | [H | [H | []]]]; discriminate H.
  - rewrite Forall_forall in Hall.
    destruct (Hall r Hr) as (r0 & Hr0 & Hs & Hm).
    destruct (appended_mirror_types r r0 Hs Hm) as [[Ht0 Ht] | [Ht0 Ht]];
      destruct Hm as (_ & Hsrc & Htgt & _).
    + split; intros Ht'; rewrite Ht in Ht'; discriminate Ht'.
    + split; intros Ht'; [rewrite Ht in Ht'; discriminate Ht' |].
      rewrite fmap_app, elem_of_app. left.
      apply list_elem_of_fmap. exists r0. split; [| done].
      unfold key_of. by rewrite Hsrc, Htgt, Ht0.
Qed.

End MirrorCompleteness.

(** ** All occurrences of a substring *)

Section FindAll.

Lemma find_aux_spec sub s i :
  (find_aux sub s i = -1
   ∧ ∀ k, (k ≤ length s)%nat → startswith (drop k s) sub = false)
  ∨ (∃ k, (k ≤ length s)%nat
          ∧ find_aux sub s i = i + Z.of_nat k
          ∧ startswith (drop k s) sub = true
          ∧ ∀ j, (j < k)%nat → startswith (drop j s) sub = false).
Proof.
  revert i. induction s as [| c s IH]; intros i; cbn [find_aux].
  - destruct (startswith [] sub) eqn:Hs.
    + right. exists 0%nat. split_and!; [done | lia | done | lia].
    + left. split; [done|]. intros k Hk. by rewrite drop_nil.
  - destruct (startswith (c :: s) sub) eqn:Hs.
    + right. exists 0%nat. split_and!; [cbn; lia | lia | done | lia].
    + destruct (IH (i + 1)) as [[-> Hno] | (k & Hk & -> & Hyes & Hno)].
      * left. split; [done|]. intros [| k] Hk; [done|].
        cbn [drop]. apply Hno. cbn [length] in Hk. lia.
      * right. exists (S k). split_and!; [cbn [length]; lia | lia | done |].
        intros [| j] Hj; [done|]. cbn [drop]. apply Hno. lia.
Qed.

(** [find] returns the first occurrence from [start] on, or -1 when there
    is none. *)
Lemma find_first s sub start :
  0 ≤ start →
  (find s sub start = -1 ∧ ∀ p, start ≤ p → ¬ occurs_at s sub p)
  ∨ (start ≤ find s sub start
     ∧ occurs_at s sub (find s sub start)
     ∧ ∀ p, start ≤ p < find s sub start → ¬ occurs_at s sub p).
Proof.
  intros Hstart. unfold find, occurs_at, len.
  destruct (Z.ltb_spec (Z.of_nat (length s)) start) as [Hlt | Hle].
  { left. split; [done|]. intros p Hp [Hr _]. lia. }
  unfold norm_index. destruct (Z.ltb_spec start 0) as [? | _]; [lia|].
  rewrite Z.min_r by lia.
  destruct (find_aux_spec sub (drop (Z.to_nat start) s) start)
    as [[-> Hno] | (k & Hk & -> & Hyes & Hno)].
  - left. split; [done|]. intros p Hp [Hr Hm].
    specialize (Hno (Z.to_nat p - Z.to_nat start)%nat).
    rewrite length_drop, drop_drop in Hno.
    replace (Z.to_nat start + (Z.to_nat p - Z.to_nat start))%nat
      with (Z.to_nat p) in Hno by lia.
    rewrite Hno in Hm; [done | lia].
  - rewrite length_drop in Hk. rewrite drop_drop in Hyes.
    right. split_and!; [lia | lia | lia | |].
    + replace (Z.to_nat (start + Z.of_nat k)) with (Z.to_nat start + k)%nat
        by lia. done.
    + intros p Hp [Hr Hm].
      specialize (Hno (Z.to_nat p - Z.to_nat start)%nat).
      rewrite drop_drop in Hno.
      replace (Z.to_nat start + (Z.to_nat p - Z.to_nat start))%nat
        with (Z.to_nat p) in Hno by lia.
      rewrite Hno in Hm; [done | lia].
Qed.

Lemma find_all_loop_spec fuel text sub start l :
  0 ≤ start →
  find_all_loop fuel text sub start = Some l →
  Forall (λ p, start ≤ p) l
  ∧ StronglySorted Z.lt l
  ∧ ∀ p, start ≤ p → (p ∈ l ↔ occurs_at text sub p).
Proof.
  revert start l. induction fuel as [| fuel IH]; intros start l Hstart;
    [done|]. cbn [find_all_loop].
  destruct (find_first text sub start Hstart) as [[Hf Hno] | (Hle & Hocc & Hno)].
  - rewrite Hf. cbn. intros [= <-].
    split_and!; [constructor | constructor |].
    intros p Hp. split; [by intros H; apply elem_of_nil in H|].
    intros H. by destruct (Hno p Hp).
  - destruct (Z.eqb_spec (find text sub start) (-1)) as [Heq | Hne]; [lia|].
    set (pos := find text sub start) in *.
    destruct (find_all_loop fuel text sub (pos + 1)) as [l'|] eqn:Hl';
      [| done].
    cbn. intros [= <-].
    destruct (IH (pos + 1) l' ltac:(lia) Hl') as (Hall & Hsort & Hmem).
    split_and!.
    + constructor; [done|]. eapply Forall_impl; [exact Hall|].
      cbn. intros. lia.
    + constructor; [done|]. eapply Forall_impl; [exact Hall|].
      cbn. intros. lia.
    + intros p Hp. rewrite elem_of_cons. split.
      * intros [-> | Hin]; [done|]. apply Hmem; [| done].
        rewrite Forall_forall in Hall. by apply Hall.
      * intros Hp'. destruct (Z.lt_trichotomy p pos) as [Hlt | [-> | Hgt]].
        -- destruct (Hno p); [lia | done].
        -- by left.
        -- right. apply Hmem; [lia | done].
Qed.

(** X1. [_find_all_positions] returns, in increasing order and without
    repetition, exactly the offsets of the lower-cased text at which the
    lower-cased substring occurs; occurrences may overlap. *)
Theorem find_all_positions_spec text substring :
  StronglySorted Z.lt (_find_all_positions text substring)
  ∧ ∀ p, p ∈ _find_all_positions text substring
         ↔ occurs_at (lower text) (lower substring) p.
Proof.
  pose proof (find_all_positions_total text substring) as Htotal.
  destruct (find_all_loop_spec _ _ _ 0 _ ltac:(lia) Htotal)
    as (_ & Hsort & Hmem).
  split; [done|]. intros p. split.
  - intros Hin.
    assert (Hp : 0 ≤ p).
    { destruct (find_all_loop_spec _ _ _ 0 _ ltac:(lia) Htotal) as (Hall & _).
      rewrite Forall_forall in Hall. by apply Hall. }
    by apply Hmem.
  - intros Hocc. apply Hmem; [| done]. by destruct Hocc as [[? _] _].
Qed.

End FindAll.

(** ** What the synthesiser leaves alone *)

Section SynthesizerBounds.

Lemma mirrored_types_cases t reverse_type :
  t ∉ skipped_types →
  dict_get bidirectional_map t = Some reverse_type →
  t ∈ mirrored_types.
Proof.
  intros Hs Hm. unfold mirrored_types.
  destruct (mirror_type_cases t reverse_type Hs Hm) as [[-> _] | [-> _]].
  - by apply elem_of_cons; left.
  - apply elem_of_cons; right. by apply elem_of_cons; left.
Qed.

Lemma bidirectional_fold_length relations all seen :
  (length (fold_left bidirectional_step relations (all, seen)).1
   ≤ length all
     + length (filter (λ r, r_type r ∈ mirrored_types) relations))%nat.
Proof.
  revert all seen. induction relations as [| r relations IH];
    intros all seen; cbn [fold_left]; [cbn; lia|].
  rewrite filter_cons.
  destruct (bidirectional_step_cases all seen r)
    as [(seen1 & -> & _) | (rt & Hm & Hs & _ & ->)].
  - etrans; [apply IH|]. case_decide; cbn [length]; lia.
  - etrans; [apply IH|]. rewrite length_app. cbn [length].
    rewrite decide_True by (by eapply mirrored_types_cases).
    cbn [length]. lia.
Qed.

(** X2. The synthesiser appends at most one mirror for each RESIDENCE or
    WORK relation of its input and nothing else: the result is never
    shorter than the input and never longer than the input plus its number
    of RESIDENCE and WORK relations. *)
Theorem create_bidirectional_length (relations : list reldict) :
  (length relations ≤ length (_create_bidirectional_relations relations)
   ≤ length relations
     + length (filter (λ r, r_type r ∈ mirrored_types) relations))%nat.
Proof.
  unfold _create_bidirectional_relations. split.
  - destruct (bidirectional_fold relations relations ∅)
      as (ms & seen' & -> & _). cbn [fst]. rewrite length_app. lia.
  - apply bidirectional_fold_length.
Qed.

(** X3. No mirror is ever appended for a FAMILY, FRIENDSHIP or LOVE
    relation: the relations of these three types in the result are those of
    the input, in the same order. *)
Theorem skipped_types_never_mirrored (relations : list reldict) :
  filter (λ r, r_type r ∈ skipped_types)
         (_create_bidirectional_relations relations)
  = filter (λ r, r_type r ∈ skipped_types) relations.
Proof.
  unfold _create_bidirectional_relations.
  destruct (bidirectional_fold relations relations ∅)
    as (ms & seen' & -> & _ & Hall & _).
  cbn [fst]. rewrite filter_app.
  assert (Hnone : filter (λ r, r_type r ∈ skipped_types) ms = []).
  { clear -Hall. induction ms as [| m ms IH]; [done|].
    apply Forall_cons in Hall as [(r & _ & Hs & Hm) Hall].
    rewrite filter_cons, decide_False; [by apply IH|].
    destruct (appended_mirror_types m r Hs Hm) as [[_ ->] | [_ ->]];
      unfold skipped_types; rewrite !elem_of_cons, elem_of_nil;
      intros [H | [H | [H | []]]]; discriminate H. }
  by rewrite Hnone, app_nil_r.
Qed.

End SynthesizerBounds.

(** ** The shape of the extracted relations *)

Section Shape.

Lemma slice_prefix_length s n :
  0 ≤ n → (length (slice s 0 n) ≤ Z.to_nat n)%nat.
Proof.
  intros Hn. unfold slice, norm_index, len.
  destruct (Z.ltb_spec 0 0) as [? | _]; [lia|].
  destruct (Z.ltb_spec n 0) as [? | _]; [lia|].
  rewrite length_take. lia.
Qed.

Lemma dict_set_values {V} (P : V → Prop) (d : list (pystr * V)) k v :
  Forall (λ kv, P kv.2) d → P v → Forall (λ kv, P kv.2) (dict_set d k v).
Proof.
  intros Hd Hv. induction d as [| [k' v'] d IH]; cbn [dict_set].
  - by repeat constructor.
  - apply Forall_cons in Hd as [Hkv Hd]. case_bool_decide.
    + by constructor.
    + constructor; [done | by apply IH].
Qed.

(** Every variant of [loc_text_variants] stands for an input location. *)
Lemma loc_text_variants_values locations :
  Forall (λ kv, kv.2 ∈ locations) (loc_text_variants locations).
Proof.
  unfold loc_text_variants.
  assert (H : ∀ pending d,
            (∀ l, l ∈ pending → l ∈ locations) →
            Forall (λ kv : pystr * entity, kv.2 ∈ locations) d →
            Forall (λ kv : pystr * entity, kv.2 ∈ locations)
                   (fold_left loc_text_variants_step pending d)).
  { induction pending as [| loc pending IH]; intros d Hsub Hd;
      cbn [fold_left]; [done|].
    apply IH; [intros l Hl; apply Hsub; by apply elem_of_cons; right |].
    assert (Hloc : loc ∈ locations) by (apply Hsub; by apply elem_of_cons; left).
    unfold loc_text_variants_step.
    assert (H2 : Forall (λ kv : pystr * entity, kv.2 ∈ locations)
                   (dict_set (dict_set d (lower (e_normalized loc)) loc)
                             (lower (e_text loc)) loc)).
    { apply (dict_set_values (λ v, v ∈ locations)); [| done].
      by apply (dict_set_values (λ v, v ∈ locations)). }
    destruct (_ && _); [| done].
    generalize dependent (dict_set (dict_set d (lower (e_normalized loc)) loc)
                                   (lower (e_text loc)) loc).
    induction case_endings as [| ending endings IHe]; intros d' Hd';
      cbn [fold_left]; [done|].
    apply IHe. by apply (dict_set_values (λ v, v ∈ locations)). }
  apply H; [done | constructor].
Qed.

Lemma residence_short_context source target confidence window :
  short_context (residence source target confidence window).
Proof.
  eexists. split; [reflexivity|].
  apply (slice_prefix_length (strip window) 150). lia.
Qed.

Lemma pattern_relations_shape text persons locations person :
  person ∈ persons →
  Forall (residence_shape persons locations)
         (pattern_relations text (loc_text_variants locations) person).
Proof.
  intros Hp. unfold pattern_relations. apply flat_map_Forall. intros keyword _.
  destruct (contains keyword _); [| constructor].
  destruct (List.find _ _) as [[k loc_data]|] eqn:Hfind; [| constructor].
  apply find_some in Hfind as [Hin _]. apply list_elem_of_In in Hin.
  pose proof (loc_text_variants_values locations) as Hv.
  rewrite Forall_forall in Hv. specialize (Hv _ Hin). cbn [snd] in Hv.
  constructor; [| constructor]. unfold residence_shape.
  split_and!; [reflexivity | | | reflexivity | reflexivity | by left | |
               reflexivity].
  - by apply (list_elem_of_fmap_2 e_normalized).
  - by apply (list_elem_of_fmap_2 e_normalized).
  - apply residence_short_context.
Qed.

Lemma proximity_relations_shape text persons locations person bs :
  person ∈ persons →
  proximity_relations text locations person = Ok bs →
  Forall (residence_shape persons locations) bs.
Proof.
  intros Hp. unfold proximity_relations.
  destruct (first_name (e_normalized person)) as [first|]; [| discriminate].
  cbn [mbind result_bind].
  destruct (truthy first); cbn [negb]; intros [= <-]; [| constructor].
  apply flat_map_Forall. intros loc Hloc. unfold proximity_relations_loc.
  apply flat_map_Forall. intros p_pos _.
  destruct (List.find _ _); [| constructor].
  constructor; [| constructor]. unfold residence_shape.
  split_and!; [reflexivity | | | reflexivity | reflexivity | by right | |
               reflexivity].
  - by apply (list_elem_of_fmap_2 e_normalized).
  - by apply (list_elem_of_fmap_2 e_normalized).
  - apply residence_short_context.
Qed.

Lemma person_location_relations_shape text ents relations :
  _extract_person_location_relations text ents = Ok relations →
  Forall (residence_shape (get_kind ents PERSON) (get_kind ents LOC)) relations.
Proof.
  unfold _extract_person_location_relations.
  destruct (get_kind ents PERSON) as [| person persons] eqn:Hp.
  { intros [= <-]. constructor. }
  destruct (get_kind ents LOC) as [| loc locations] eqn:Hl.
  { intros [= <-]. constructor. }
  destruct (person_name_variants _ _); [| discriminate].
  cbn [mbind result_bind].
  destruct (flat_mapM _ _) as [relations2|] eqn:H2; [| discriminate].
  cbn [mbind result_bind]. intros [= <-].
  apply Forall_forall. intros r Hr. apply unique_NoDup in Hr.
  apply elem_of_app in Hr as [Hr | Hr]; revert r Hr; apply Forall_forall.
  - apply (flat_map_Forall _
             (pattern_relations text (loc_text_variants (loc :: locations)))
             (person :: persons)).
    intros p Hin. by apply pattern_relations_shape.
  - eapply flat_mapM_Forall; [| exact H2].
    intros p bs Hin. by apply proximity_relations_shape.
Qed.

Lemma second_person_shape text all person1 p1_pos relation_type window persons bs :
  person1 ∈ all → (∀ p, p ∈ persons → p ∈ all) →
  relation_type ∈ person_types →
  second_person text person1 p1_pos relation_type window persons = Ok bs →
  Forall (person_shape all) bs.
Proof.
  intros H1 Hsub Ht.
  induction persons as [| person2 persons IH]; cbn [second_person].
  - intros [= <-]. constructor.
  - assert (IH' := IH (λ p Hp, Hsub p (proj2 (elem_of_cons _ _ _) (or_intror Hp)))).
    case_bool_decide as Hne; [done|].
    destruct (first_name (e_normalized person2)) as [p2_first|]; [| discriminate].
    cbn [mbind result_bind]. destruct (truthy p2_first); cbn [negb]; [| done].
    destruct (existsb _ _); [| done].
    destruct (existsb _ _); [| done].
    intros [= <-]. constructor; [| constructor]. unfold person_shape.
    split_and!; [exact Ht | | | exact Hne | reflexivity | reflexivity |
                 reflexivity | | reflexivity].
    + by apply (list_elem_of_fmap_2 e_normalized).
    + apply (list_elem_of_fmap_2 e_normalized). apply Hsub.
      by apply elem_of_cons; left.
    + eexists. split; [reflexivity|].
      apply (slice_prefix_length (strip window) 150). lia.
Qed.

Lemma first_person_shape text persons person1 bs :
  person1 ∈ persons →
  first_person text persons person1 = Ok bs →
  Forall (person_shape persons) bs.
Proof.
  intros H1. unfold first_person.
  destruct (first_name (e_normalized person1)) as [p1_first|]; [| discriminate].
  cbn [mbind result_bind].
  destruct (truthy p1_first); cbn [negb]; [| intros [= <-]; constructor].
  apply flat_mapM_Forall. intros p1_pos bs1 _. unfold keyword_relations.
  apply flat_mapM_Forall. intros [keywords relation_type] bs2 Hin.
  apply flat_mapM_Forall. intros keyword bs3 _.
  destruct (contains keyword _); [| intros [= <-]; constructor].
  apply second_person_shape; [done | done |].
  by eapply relation_types_keywords_types.
Qed.

Lemma person_person_relations_shape text ents relations :
  _extract_person_person_relations text ents = Ok relations →
  Forall (person_shape (get_kind ents PERSON)) relations.
Proof.
  unfold _extract_person_person_relations.
  destruct (_ <? _)%nat; [intros [= <-]; constructor|].
  destruct (flat_mapM _ _) as [raw|] eqn:Hraw; [| discriminate].
  cbn [mbind result_bind]. intros [= <-].
  assert (Hall : Forall (person_shape (get_kind ents PERSON)) raw).
  { eapply flat_mapM_Forall; [| exact Hraw].
    intros p bs Hin. by apply first_person_shape. }
  rewrite Forall_forall in Hall. apply Forall_forall. intros r Hr.
  apply Hall. apply unique_undirected_NoDup; [| done].
  intros r' Hr'. by destruct (Hall r' Hr') as (_ & _ & _ & Hne & _).
Qed.

(** The list returned by [extract_relations]: the relations of the two
    strategies, then the mirrors of RESIDENCE and WORK relations among
    them. *)
Lemma extract_relations_parts text ents relations :
  extract_relations text ents = Ok relations →
  ∃ extracted mirrors,
    relations = extracted ++ mirrors
    ∧ Forall (extracted_shape ents) extracted
    ∧ Forall (λ m, ∃ r, r ∈ extracted ∧ r_type r ∈ mirrored_types
                        ∧ mirrors_relation m r) mirrors.
Proof.
  intros H. apply extract_relations_Ok in H as (pl & pp & Hpl & Hpp & ->).
  apply person_location_relations_shape in Hpl.
  apply person_person_relations_shape in Hpp.
  unfold _create_bidirectional_relations.
  destruct (bidirectional_fold (pl ++ pp) (pl ++ pp) ∅)
    as (ms & seen' & -> & _ & Hall & _).
  exists (pl ++ pp), ms. cbn [fst]. split_and!; [done | |].
  - apply Forall_app. split.
    + eapply Forall_impl; [exact Hpl|]. intros r Hr. by left.
    + eapply Forall_impl; [exact Hpp|]. intros r Hr. by right.
  - eapply Forall_impl; [exact Hall|]. cbn.
    intros m (r & Hr & Hs & Hm). exists r. split_and!; [done | | done].
    destruct Hm as (_ & _ & _ & Hmap & _). by eapply mirrored_types_cases.
Qed.

End Shape.

(** ** What [extract_relations] returns *)

Section Returned.

(** X4. Every relation returned by [extract_relations] records a kind,
    PERSON or LOC, for each of its endpoints, and its source and target are
    normalised names of input entities of the recorded kinds. *)
Theorem extract_relations_endpoints text ents relations r :
  extract_relations text ents = Ok relations →
  r ∈ relations →
  ∃ source_kind target_kind,
    r_source_type r = Some source_kind
    ∧ r_target_type r = Some target_kind
    ∧ source_kind ∈ [PERSON; LOC] ∧ target_kind ∈ [PERSON; LOC]
    ∧ r_source r ∈ names (get_kind ents source_kind)
    ∧ r_target r ∈ names (get_kind ents target_kind).
Proof.
  intros H Hr.
  apply extract_relations_parts in H as (ex & ms & -> & Hex & Hms).
  rewrite Forall_forall in Hex. rewrite Forall_forall in Hms.
  assert (Hshape : ∀ r0, r0 ∈ ex →
            ∃ ks kt, r_source_type r0 = Some ks ∧ r_target_type r0 = Some kt
                     ∧ ks ∈ [PERSON; LOC] ∧ kt ∈ [PERSON; LOC]
                     ∧ r_source r0 ∈ names (get_kind ents ks)
                     ∧ r_target r0 ∈ names (get_kind ents kt)).
  { intros r0 Hr0.
    destruct (Hex r0 Hr0) as [(_ & Hs & Ht & Hsk & Htk & _)
                             | (_ & Hs & Ht & _ & Hsk & Htk & _)].
    - exists PERSON, LOC. split_and!; try done.
      + by apply elem_of_cons; left.
      + apply elem_of_cons; right. by apply elem_of_cons; left.
    - exists PERSON, PERSON. split_and!; try done;
        by apply elem_of_cons; left. }
  apply elem_of_app in Hr as [Hr | Hr]; [by apply Hshape|].
  destruct (Hms r Hr) as (r0 & Hr0 & _ & Hm).
  destruct (Hshape r0 Hr0) as (ks & kt & Hsk & Htk & Hks & Hkt & Hs & Ht).
  destruct Hm as (_ & Hsrc & Htgt & _ & _ & _ & Hst & Htt).
  exists kt, ks. rewrite Hst, Htt, Hsk, Htk, Hsrc, Htgt. by split_and!.
Qed.

Lemma extract_relations_endpoints_witness :
  ∃ source_kind target_kind,
    r_source_type (List.last scenario1_relations collapse_relation)
    = Some source_kind
    ∧ r_target_type (List.last scenario1_relations collapse_relation)
      = Some target_kind
    ∧ source_kind ∈ [PERSON; LOC] ∧ target_kind ∈ [PERSON; LOC]
    ∧ r_source (List.last scenario1_relations collapse_relation)
        ∈ names (get_kind scenario1_entities source_kind)
    ∧ r_target (List.last scenario1_relations collapse_relation)
        ∈ names (get_kind scenario1_entities target_kind).
Proof.
  apply (extract_relations_endpoints scenario1_text scenario1_entities
           scenario1_relations).
  - vm_compute. reflexivity.
  - apply elem_of_cons; right. apply elem_of_cons; left. reflexivity.
Defined.

(** X5. The type of a returned relation fixes the kinds it records and its
    [is_reverse] mark: RESIDENCE goes from a PERSON to a LOC and is never
    marked; HAS_RESIDENT goes from a LOC to a PERSON and is always marked;
    FAMILY, FRIENDSHIP, WORK and LOVE go from a PERSON to a PERSON, and of
    these only WORK can be marked. *)
Theorem extract_relations_kinds text ents relations r :
  extract_relations text ents = Ok relations →
  r ∈ relations →
  (r_type r = RESIDENCE
   ∧ r_source_type r = Some PERSON ∧ r_target_type r = Some LOC
   ∧ r_is_reverse r = None)
  ∨ (r_type r = HAS_RESIDENT
     ∧ r_source_type r = Some LOC ∧ r_target_type r = Some PERSON
     ∧ r_is_reverse r = Some true)
  ∨ (r_type r ∈ person_types
     ∧ r_source_type r = Some PERSON ∧ r_target_type r = Some PERSON
     ∧ (r_is_reverse r = None
        ∨ (r_type r = WORK ∧ r_is_reverse r = Some true))).
Proof.
  intros H Hr.
  apply extract_relations_parts in H as (ex & ms & -> & Hex & Hms).
  rewrite Forall_forall in Hex. rewrite Forall_forall in Hms.
  apply elem_of_app in Hr as [Hr | Hr].
  - destruct (Hex r Hr) as [(Ht & _ & _ & Hsk & Htk & _ & _ & Hrev)
                           | (Ht & _ & _ & _ & Hsk & Htk & _ & _ & Hrev)].
    + left. by split_and!.
    + right; right. split_and!; [done | done | done | by left].
  - destruct (Hms r Hr) as (r0 & Hr0 & Hmt & Hm).
    assert (Hs : r_type r0 ∉ skipped_types).
    { unfold mirrored_types, skipped_types in *.
      rewrite !elem_of_cons, elem_of_nil in Hmt.
      rewrite !elem_of_cons, elem_of_nil.
      destruct Hmt as [-> | [-> | []]]; intros [H | [H | [H | []]]];
        discriminate H. }
    destruct (appended_mirror_types r r0 Hs Hm) as [[Ht0 Ht] | [Ht0 Ht]];
      destruct Hm as (Hrev & _ & _ & _ & _ & _ & Hst & Htt);
      (destruct (Hex r0 Hr0) as [(Ht1 & _ & _ & Hsk & Htk & _)
                                | (Ht1 & _ & _ & _ & Hsk & Htk & _)]).
    + right; left. rewrite Hst, Htt, Hsk, Htk. by split_and!.
    + exfalso. rewrite Ht0 in Ht1.
      by apply (person_types_not_residence RESIDENCE).
    + rewrite Ht0 in Ht1. discriminate Ht1.
    + right; right. rewrite Hst, Htt, Hsk, Htk, Ht.
      split_and!; [| done | done | by right].
      unfold person_types. apply elem_of_cons; right.
      apply elem_of_cons; right. by apply elem_of_cons; left.
Qed.

Lemma extract_relations_kinds_witness :
  r_type (List.last scenario1_relations collapse_relation) = HAS_RESIDENT
  ∧ r_is_reverse (List.last scenario1_relations collapse_relation) = Some true.
Proof.
  destruct (extract_relations_kinds scenario1_text scenario1_entities
              scenario1_relations
              (List.last scenario1_relations collapse_relation))
    as [(Ht & _) | [(Ht & _ & _ & Hrev) | (Ht & _)]].
  - vm_compute. reflexivity.
  - apply elem_of_cons; right. apply elem_of_cons; left. reflexivity.
  - discriminate Ht.
  - split; [exact Ht | exact Hrev].
  - exfalso. revert Ht. apply (bool_decide_unpack _). vm_compute. exact I.
Defined.

(** X6. Every returned relation carries an excerpt of at most 150
    characters and the confidence 0.75 or 0.8; the confidence 0.8 occurs
    only on RESIDENCE relations and their HAS_RESIDENT mirrors. *)
Theorem extract_relations_context text ents relations r :
  extract_relations text ents = Ok relations →
  r ∈ relations →
  short_context r
  ∧ (r_confidence r = Some 0.75%Q
     ∨ (r_confidence r = Some 0.8%Q ∧ r_type r ∈ [RESIDENCE; HAS_RESIDENT])).
Proof.
  intros H Hr.
  apply extract_relations_parts in H as (ex & ms & -> & Hex & Hms).
  rewrite Forall_forall in Hex. rewrite Forall_forall in Hms.
  apply elem_of_app in Hr as [Hr | Hr].
  - destruct (Hex r Hr) as [(Ht & _ & _ & _ & _ & Hc & Hctx & _)
                           | (_ & _ & _ & _ & _ & _ & Hc & Hctx & _)].
    + split; [done|]. destruct Hc as [Hc | Hc]; [right | by left].
      split; [done|]. rewrite Ht. by apply elem_of_cons; left.
    + split; [done | by left].
  - destruct (Hms r Hr) as (r0 & Hr0 & Hmt & Hm).
    assert (Hs : r_type r0 ∉ skipped_types).
    { unfold mirrored_types, skipped_types in *.
      rewrite !elem_of_cons, elem_of_nil in Hmt.
      rewrite !elem_of_cons, elem_of_nil.
      destruct Hmt as [-> | [-> | []]]; intros [H | [H | [H | []]]];
        discriminate H. }
    pose proof (appended_mirror_types r r0 Hs Hm) as Htypes.
    destruct Hm as (_ & _ & _ & _ & Hconf & Hcm & _).
    destruct (Hex r0 Hr0) as [(Ht & _ & _ & _ & _ & Hc & (ctx & Hctx & Hlen) & _)
                             | (Ht & _ & _ & _ & _ & _ & Hc & (ctx & Hctx & Hlen) & _)].
    + split.
      * exists ctx. rewrite Hcm, Hctx. done.
      * rewrite Hconf. destruct Hc as [-> | ->]; [right | by left].
        split; [done|]. destruct Htypes as [[_ ->] | [Hw _]].
        -- apply elem_of_cons; right. by apply elem_of_cons; left.
        -- rewrite Hw in Ht. discriminate Ht.
    + split.
      * exists ctx. rewrite Hcm, Hctx. done.
      * rewrite Hconf, Hc. by left.
Qed.

Lemma extract_relations_context_witness :
  short_context (List.last scenario1_relations collapse_relation).
Proof.
  apply (extract_relations_context scenario1_text scenario1_entities
           scenario1_relations).
  - vm_compute. reflexivity.
  - apply elem_of_cons; right. apply elem_of_cons; left. reflexivity.
Defined.

(** X7. No returned relation of a person-to-person type relates a name to
    itself. *)
Theorem extract_relations_no_self_relation text ents relations r :
  extract_relations text ents = Ok relations →
  r ∈ relations →
  r_type r ∈ person_types →
  r_source r ≠ r_target r.
Proof.
  intros H Hr Ht.
  apply extract_relations_parts in H as (ex & ms & -> & Hex & Hms).
  rewrite Forall_forall in Hex. rewrite Forall_forall in Hms.
  assert (Hshape : ∀ r0, r0 ∈ ex → r_type r0 ∈ person_types →
                         r_source r0 ≠ r_target r0).
  { intros r0 Hr0 Ht0.
    destruct (Hex r0 Hr0) as [(Ht1 & _) | (_ & _ & _ & Hne & _)]; [| done].
    exfalso. by apply (person_types_not_residence (r_type r0)). }
  apply elem_of_app in Hr as [Hr | Hr]; [by apply Hshape|].
  destruct (Hms r Hr) as (r0 & Hr0 & Hmt & Hm).
  assert (Hs : r_type r0 ∉ skipped_types).
  { unfold mirrored_types, skipped_types in *.
    rewrite !elem_of_cons, elem_of_nil in Hmt.
    rewrite !elem_of_cons, elem_of_nil.
    destruct Hmt as [-> | [-> | []]]; intros [H | [H | [H | []]]];
      discriminate H. }
  destruct (appended_mirror_types r r0 Hs Hm) as [[_ Ht'] | [Ht0 _]].
  - exfalso. by apply (person_types_not_has_resident (r_type r)).
  - destruct Hm as (_ & -> & -> & _). intros Heq.
    apply (Hshape r0 Hr0); [| done]. rewrite Ht0. unfold person_types.
    apply elem_of_cons; right. apply elem_of_cons; right.
    by apply elem_of_cons; left.
Qed.

Lemma extract_relations_no_self_relation_witness :
  r_source (List.hd collapse_relation scenario2_relations)
  ≠ r_target (List.hd collapse_relation scenario2_relations).
Proof.
  apply (extract_relations_no_self_relation scenario2_text scenario2_entities
           scenario2_relations).
  - vm_compute. reflexivity.
  - apply elem_of_cons; left. reflexivity.
  - apply (bool_decide_unpack _). vm_compute. exact I.
Defined.

End Returned.

(** ** Edge cases of [extract_relations] *)

Section Edges.

(** X8. With fewer than two persons, and no person or no location at all,
    [extract_relations] returns the empty list: neither strategy runs, and
    the fallback is not reached. *)
Theorem extract_relations_nothing_to_relate text ents :
  (length (get_kind ents PERSON) < 2)%nat →
  get_kind ents PERSON = [] ∨ get_kind ents LOC = [] →
  extract_relations text ents = Ok [].
Proof.
  intros Hlen Hempty. unfold extract_relations.
  assert (HA : _extract_person_location_relations text ents = Ok []).
  { unfold _extract_person_location_relations.
    destruct Hempty as [-> | ->]; [done|].
    by destruct (get_kind ents PERSON). }
  assert (HB : _extract_person_person_relations text ents = Ok []).
  { unfold _extract_person_person_relations.
    apply Nat.ltb_lt in Hlen. by rewrite Hlen. }
  rewrite HA, HB. cbn [mbind result_bind app length Nat.eqb andb].
  destruct (Nat.leb_spec 2 (length (get_kind ents PERSON))) as [? | _]; [lia|].
  reflexivity.
Qed.

Lemma extract_relations_nothing_to_relate_witness :
  extract_relations scenario1_text lonely_entities = Ok [].
Proof.
  apply extract_relations_nothing_to_relate.
  - apply Nat.ltb_lt. vm_compute. reflexivity.
  - left. reflexivity.
Defined.

Lemma first_name_raises name e : first_name name = Raise e → e = IndexError.
Proof.
  unfold first_name. destruct (truthy name); [| discriminate].
  destruct (split name); [| discriminate]. by intros [= <-].
Qed.

Lemma first_name_blank person :
  blank_name person → first_name (e_normalized person) = Raise IndexError.
Proof.
  intros [Hne Hsplit]. unfold first_name. rewrite Hsplit.
  by destruct (e_normalized person).
Qed.

Lemma person_name_variants_blank persons person d :
  person ∈ persons → blank_name person →
  person_name_variants persons d = Raise IndexError.
Proof.
  revert d. induction persons as [| p persons IH]; intros d Hin Hblank.
  - by apply elem_of_nil in Hin.
  - cbn [person_name_variants].
    destruct (first_name (e_normalized p)) as [first | e] eqn:Hfirst.
    + cbn [mbind result_bind]. apply IH; [| done].
      apply elem_of_cons in Hin as [-> | Hin]; [| done].
      rewrite (first_name_blank p Hblank) in Hfirst. discriminate Hfirst.
    + cbn [mbind result_bind]. by rewrite (first_name_raises _ _ Hfirst).
Qed.

(** A loop raises what its body raises at the first element where it
    does. *)
Lemma flat_mapM_raises {A B} (f : A → result (list B)) l a e0 :
  (∀ a' e, a' ∈ l → f a' = Raise e → e = e0) →
  a ∈ l → f a = Raise e0 →
  flat_mapM f l = Raise e0.
Proof.
  induction l as [| a' l IH]; intros Hall Hin Hfa.
  - by apply elem_of_nil in Hin.
  - cbn [flat_mapM]. destruct (f a') as [bs | e] eqn:Hfa'.
    + cbn [mbind result_bind].
      apply elem_of_cons in Hin as [-> | Hin]; [congruence|].
      rewrite IH; [done | | done | done].
      intros a'' e' Hin'. apply Hall. by apply elem_of_cons; right.
    + cbn [mbind result_bind]. f_equal.
      eapply Hall; [by apply elem_of_cons; left | done].
Qed.

Lemma flat_mapM_raise_inv {A B} (f : A → result (list B)) l e :
  flat_mapM f l = Raise e → ∃ a, a ∈ l ∧ f a = Raise e.
Proof.
  induction l as [| a l IH]; cbn [flat_mapM]; [discriminate|].
  destruct (f a) as [bs | e'] eqn:Hfa; cbn [mbind result_bind].
  - destruct (flat_mapM f l) as [bs' | e'']; cbn [mbind result_bind];
      [discriminate|].
    intros [= ->]. destruct IH as (a' & Hin & Ha'); [done|].
    exists a'. split; [by apply elem_of_cons; right | done].
  - intros [= ->]. exists a. split; [by apply elem_of_cons; left | done].
Qed.

Lemma second_person_raises text person1 p1_pos relation_type window persons e :
  second_person text person1 p1_pos relation_type window persons = Raise e →
  e = IndexError.
Proof.
  induction persons as [| person2 persons IH]; cbn [second_person];
    [discriminate|].
  case_bool_decide; [done|].
  destruct (first_name (e_normalized person2)) as [p2_first | e'] eqn:Hfirst;
    cbn [mbind result_bind].
  - destruct (truthy p2_first); cbn [negb]; [| done].
    destruct (existsb _ _); [| done].
    destruct (existsb _ _); [discriminate | done].
  - intros [= <-]. by eapply first_name_raises.
Qed.

Lemma first_person_raises text persons person1 e :
  first_person text persons person1 = Raise e → e = IndexError.
Proof.
  unfold first_person.
  destruct (first_name (e_normalized person1)) as [p1_first | e'] eqn:Hfirst;
    cbn [mbind result_bind].
  2: { intros [= <-]. by eapply first_name_raises. }
  destruct (truthy p1_first); cbn [negb]; [| discriminate].
  intros H. apply flat_mapM_raise_inv in H as (p1_pos & _ & H).
  unfold keyword_relations in H.
  apply flat_mapM_raise_inv in H as ([keywords relation_type] & _ & H).
  apply flat_mapM_raise_inv in H as (keyword & _ & H).
  destruct (contains keyword _); [| discriminate].
  by eapply second_person_raises.
Qed.

(** X9. A person whose normalised name consists of whitespace makes
    [extract_relations] raise [IndexError], as soon as there is a location
    or a second person for one of the strategies to run. *)
Theorem extract_relations_blank_name text ents person :
  person ∈ get_kind ents PERSON →
  blank_name person →
  get_kind ents LOC ≠ [] ∨ (2 ≤ length (get_kind ents PERSON))%nat →
  extract_relations text ents = Raise IndexError.
Proof.
  intros Hin Hblank Hrun. unfold extract_relations.
  destruct (get_kind ents LOC) as [| loc locations] eqn:Hloc.
  - destruct Hrun as [? | Hlen]; [done|].
    assert (HA : _extract_person_location_relations text ents = Ok []).
    { unfold _extract_person_location_relations. rewrite Hloc.
      by destruct (get_kind ents PERSON). }
    rewrite HA. cbn [mbind result_bind].
    unfold _extract_person_person_relations.
    destruct (Nat.ltb_spec (length (get_kind ents PERSON)) 2) as [? | _];
      [lia|].
    rewrite (flat_mapM_raises _ _ person IndexError); [done | | done |].
    + intros p e _. apply first_person_raises.
    + unfold first_person. by rewrite (first_name_blank person Hblank).
  - unfold _extract_person_location_relations. rewrite Hloc.
    destruct (get_kind ents PERSON) as [| p persons] eqn:Hp.
    { by apply elem_of_nil in Hin. }
    by rewrite (person_name_variants_blank _ person).
Qed.

Lemma extract_relations_blank_name_witness :
  extract_relations scenario1_text blank_entities = Raise IndexError.
Proof.
  apply (extract_relations_blank_name scenario1_text blank_entities
           (mention " " 4 5 " ")).
  - apply elem_of_cons; right. apply elem_of_cons; left. reflexivity.
  - split; [discriminate | reflexivity].
  - left. discriminate.
Defined.

(** X22. With two or more persons [extract_relations] never returns an
    empty list: it finds a relation, or it raises. When both strategies
    find nothing it raises AttributeError, from the call of the fallback
    that the class does not define. *)
Theorem extract_relations_never_empty (text : pystr) (ents : entities) :
  (2 ≤ length (get_kind ents PERSON))%nat →
  extract_relations text ents ≠ Ok []
  ∧ (_extract_person_location_relations text ents = Ok [] →
     _extract_person_person_relations text ents = Ok [] →
     extract_relations text ents = Raise AttributeError).
Proof.
  intros Hp. split; [| intros HA HB; by apply fallback_raises].
  unfold extract_relations.
  destruct (_extract_person_location_relations text ents) as [pl |];
    [| discriminate]. cbn [mbind result_bind].
  destruct (_extract_person_person_relations text ents) as [pp |];
    [| discriminate]. cbn [mbind result_bind].
  apply Nat.leb_le in Hp. rewrite Hp, andb_true_r.
  destruct (Nat.eqb_spec (length (pl ++ pp)) 0) as [_ | Hlen];
    cbn [mbind result_bind]; [discriminate|].
  intros [= Hnil]. apply Hlen. unfold _create_bidirectional_relations in Hnil.
  destruct (bidirectional_fold (pl ++ pp) (pl ++ pp) ∅)
    as (ms & seen' & Hfold & _).
  rewrite Hfold in Hnil. cbn [fst] in Hnil.
  apply app_eq_nil in Hnil as [-> _]. reflexivity.
Qed.

(** The witness: two persons and no keyword. *)
Lemma extract_relations_never_empty_witness :
  extract_relations plain_text plain_entities ≠ Ok []
  ∧ (_extract_person_location_relations plain_text plain_entities = Ok [] →
     _extract_person_person_relations plain_text plain_entities = Ok [] →
     extract_relations plain_text plain_entities = Raise AttributeError).
Proof.
  apply (extract_relations_never_empty plain_text plain_entities).
  apply Nat.leb_le. vm_compute. reflexivity.
Defined.

(** The witness of [mirror_complete_residence_work]: a WORK relation
    between two colleagues. *)
Lemma mirror_complete_residence_work_witness :
  (u "Анна", u "Пётр", WORK)
    ∈ key_of <$> _create_bidirectional_relations [colleagues].
Proof.
  assert (Hin : colleagues ∈ _create_bidirectional_relations [colleagues]).
  { assert (Heq : _create_bidirectional_relations [colleagues]
                  = [colleagues; reverse_relation colleagues WORK])
      by (vm_compute; reflexivity).
    rewrite Heq. apply elem_of_cons; left. reflexivity. }
  destruct (mirror_complete_residence_work [colleagues] colleagues Hin)
    as [_ H].
  exact (H eq_refl).
Defined.

End Edges.

(** ** The aggregator behind the extractor, and on a used builder *)

Section Pipeline.

Lemma elem_of_get_kind (ents : entities) kind e :
  e ∈ get_kind ents kind → (kind, e) ∈ occurrences ents.
Proof.
  unfold get_kind, occurrences.
  induction ents as [| [k l] ents IH]; cbn [dict_get flat_map].
  - intros H. by apply elem_of_nil in H.
  - case_bool_decide as Hk.
    + subst k. cbn [default]. intros He. apply elem_of_app. left.
      by apply list_elem_of_fmap_2.
    + intros He. apply elem_of_app. right. by apply IH.
Qed.

Lemma elem_of_names_occurrences (ents : entities) kind n :
  n ∈ names (get_kind ents kind) →
  n ∈ (λ ke, e_normalized ke.2) <$> occurrences ents.
Proof.
  intros Hn. apply list_elem_of_fmap in Hn as (e & -> & He).
  apply elem_of_get_kind in He.
  by apply (list_elem_of_fmap_2 (λ ke : pystr * entity, e_normalized ke.2)) in He.
Qed.

(** X10. Behind [extract_relations] the aggregator creates no entity of
    its own: the entities of the ontology are exactly the normalised names
    of the input mentions, each with the kind and start of one of its
    mentions and at least one mention. *)
Theorem pipeline_entities text (ents : entities) relations :
  extract_relations text ents = Ok relations →
  dom (o_entities (build_ontology __init__ ents relations))
  = list_to_set ((λ ke, e_normalized ke.2) <$> occurrences ents)
  ∧ ∀ n d,
      o_entities (build_ontology __init__ ents relations) !! n = Some d →
      ∃ first, (d_type d, first) ∈ occurrences ents
               ∧ e_normalized first = n
               ∧ a_first_mention (d_attributes d) = Some (e_start first)
               ∧ 1 ≤ a_mentions (d_attributes d).
Proof.
  intros H.
  assert (Hend : ∀ n, n ∈ endpoints relations →
                      n ∈ (λ ke, e_normalized ke.2) <$> occurrences ents).
  { intros n Hn. unfold endpoints in Hn.
    apply list_elem_of_In, in_flat_map in Hn as (r & Hr & Hn).
    apply list_elem_of_In in Hr.
    destruct (extract_relations_parts text ents relations H)
      as (ex & ms & -> & Hex & Hms).
    assert (Hex' : ∀ r0, r0 ∈ ex →
              r_source r0 ∈ (λ ke, e_normalized ke.2) <$> occurrences ents
              ∧ r_target r0 ∈ (λ ke, e_normalized ke.2) <$> occurrences ents).
    { rewrite Forall_forall in Hex. intros r0 Hr0.
      destruct (Hex r0 Hr0) as [(_ & Hs & Ht & _) | (_ & Hs & Ht & _)];
        split; by eapply elem_of_names_occurrences. }
    assert (Hboth : r_source r ∈ (λ ke, e_normalized ke.2) <$> occurrences ents
                    ∧ r_target r ∈ (λ ke, e_normalized ke.2) <$> occurrences ents).
    { apply elem_of_app in Hr as [Hr | Hr]; [by apply Hex'|].
      rewrite Forall_forall in Hms.
      destruct (Hms r Hr) as (r0 & Hr0 & _ & (_ & -> & -> & _)).
      destruct (Hex' r0 Hr0). by split. }
    destruct Hboth. cbn in Hn. destruct Hn as [<- | [<- | []]]; done. }
  assert (Hdom : dom (o_entities (build_ontology __init__ ents relations))
                 = list_to_set ((λ ke, e_normalized ke.2) <$> occurrences ents)).
  { rewrite build_ontology_unfold, enrich_entities_dom, add_relations_dom.
    cbn [o_entities]. rewrite add_entities_occurrences, add_occurrences_dom.
    rewrite dom_empty_L, (left_id_L ∅ (∪)). apply set_eq. intros n.
    rewrite elem_of_union, !elem_of_list_to_set. split; [| by left].
    intros [Hn | Hn]; [done | by apply Hend]. }
  split; [done|]. intros n d Hd.
  assert (Hn : n ∈ (λ ke, e_normalized ke.2) <$> occurrences ents).
  { pose proof (elem_of_dom_2 _ _ _ Hd) as Hn. rewrite Hdom in Hn.
    by apply elem_of_list_to_set in Hn. }
  destruct (occurrences_of n ents) as [| [kind first] rest] eqn:Hocc.
  { exfalso. apply list_elem_of_fmap in Hn as (ke & -> & Hke).
    assert (Hin : ke ∈ occurrences_of (e_normalized ke.2) ents)
      by (by apply list_elem_of_filter).
    rewrite Hocc in Hin. by apply elem_of_nil in Hin. }
  assert (Hfirst : (kind, first) ∈ occurrences_of n ents)
    by (rewrite Hocc; by apply elem_of_cons; left).
  apply list_elem_of_filter in Hfirst as [Hname Hfirst]. cbn [snd] in Hname.
  rewrite build_ontology_unfold, enrich_entities_lookup in Hd.
  destruct (add_occurrences_first (occurrences ents) ∅ n kind first rest)
    as (d0 & Hd0 & Ht & Hm & Hf); [apply lookup_empty | exact Hocc |].
  rewrite (add_relations_preserves relations _ n d0) in Hd.
  2: { cbn [o_entities]. by rewrite add_entities_occurrences. }
  cbn in Hd. injection Hd as <-. cbn [enrich d_type d_attributes a_mentions
                                       a_first_mention].
  exists first. rewrite Ht, Hm. split_and!; [done | done | done | lia].
Qed.

Lemma pipeline_entities_witness :
  dom (o_entities (build_ontology __init__ scenario1_entities
                     scenario1_relations))
  = list_to_set ((λ ke, e_normalized ke.2) <$> occurrences scenario1_entities).
Proof.
  apply (pipeline_entities scenario1_text scenario1_entities
           scenario1_relations).
  vm_compute. reflexivity.
Defined.

Lemma add_entity_is_Some kind ents e n :
  is_Some (ents !! n) → is_Some (add_entity kind ents e !! n).
Proof.
  intros Hn. destruct (decide (e_normalized e = n)) as [<- | Hne].
  - destruct Hn as [d Hd].
    destruct (add_entity_old kind ents e d Hd) as (d' & -> & _). eauto.
  - by rewrite add_entity_other.
Qed.

Lemma add_entities_is_Some ents (entities : entities) n :
  is_Some (ents !! n) → is_Some (add_entities ents entities !! n).
Proof.
  rewrite add_entities_occurrences. revert ents.
  induction (occurrences entities) as [| [kind e] occ IH]; intros ents Hn;
    cbn [fold_left]; [done|].
  apply IH. by apply add_entity_is_Some.
Qed.

Lemma add_relations_is_Some relations o n :
  is_Some (o_entities o !! n) →
  is_Some (o_entities (fold_left add_relation relations o) !! n).
Proof.
  intros [d Hd]. exists d. by apply add_relations_preserves.
Qed.

(** X11. Referential completeness and the relation statistics are
    invariants of [build_ontology], also on a builder that was used before:
    if every relation of the builder has its endpoints among the entities,
    the same holds after the call, the new relations are appended to the
    old ones without any removal of duplicates, and the sum of
    [total_relations] is twice the number of all relations. *)
Theorem build_ontology_keeps_closed o (entities : entities) relations :
  closed o →
  closed (build_ontology o entities relations)
  ∧ o_relations (build_ontology o entities relations)
    = o_relations o ++ (stored <$> relations)
  ∧ sum_total_relations (o_entities (build_ontology o entities relations))
    = 2 * Z.of_nat (length (o_relations (build_ontology o entities relations))).
Proof.
  intros Hclosed. unfold build_ontology.
  set (o1 := {| o_entities := add_entities (o_entities o) entities;
                o_relations := o_relations o;
                o_relation_types := o_relation_types o |}).
  set (o2 := fold_left add_relation relations o1).
  assert (Hrel : o_relations o2 = o_relations o ++ (stored <$> relations)).
  { unfold o2. by rewrite add_relations_relations. }
  assert (Hend : ∀ n, n ∈ endpoints (o_relations o2) →
                      is_Some (o_entities o2 !! n)).
  { intros n. rewrite Hrel. unfold endpoints.
    intros Hn. apply list_elem_of_In, in_flat_map in Hn as (r & Hr & Hn).
    apply list_elem_of_In, elem_of_app in Hr as [Hr | Hr].
    - unfold o2. apply add_relations_is_Some. unfold o1. cbn [o_entities].
      apply add_entities_is_Some.
      destruct (Hclosed r Hr). cbn in Hn. destruct Hn as [<- | [<- | []]]; done.
    - unfold o2. apply add_relations_present.
      change (n ∈ endpoints relations). rewrite <- endpoints_stored.
      unfold endpoints. apply list_elem_of_In, in_flat_map.
      exists r. split; [by apply list_elem_of_In | done]. }
  split_and!.
  - intros r Hr. change (o_relations (_enrich_entities o2)) with (o_relations o2) in Hr.
    apply elem_of_endpoints in Hr as [Hs Ht].
    rewrite !enrich_entities_lookup, !fmap_is_Some. split; by apply Hend.
  - exact Hrel.
  - change (o_relations (_enrich_entities o2)) with (o_relations o2).
    unfold sum_total_relations, _enrich_entities. cbn [o_entities].
    change (sum_map (λ _ d, default 0 (a_total_relations (d_attributes d)))
              (map_imap (λ name d, Some (enrich (relation_count (o_relations o2))
                 (relation_types_count (o_relations o2)) name d)) (o_entities o2))
            = 2 * Z.of_nat (length (o_relations o2))).
    rewrite (sum_map_imap (λ _ d, default 0 (a_total_relations (d_attributes d)))).
    cbn [enrich d_attributes a_total_relations default].
    rewrite (sum_map_ext _ (λ n _, endpoint_count (o_relations o2) n)).
    2: { intros. apply relation_count_lookup. }
    by apply sum_endpoint_count.
Qed.

Lemma build_ontology_keeps_closed_witness :
  closed (build_ontology collapse_ontology collapse_entities collapse_relations).
Proof.
  assert (H0 : closed __init__).
  { intros r Hr. by apply elem_of_nil in Hr. }
  destruct (build_ontology_keeps_closed __init__ collapse_entities
              collapse_relations H0) as [H1 _].
  destruct (build_ontology_keeps_closed collapse_ontology collapse_entities
              collapse_relations H1) as [H2 _].
  exact H2.
Defined.

(** X12. On a builder that was used before, [build_ontology] never changes
    the kind or the first mention of an entity it already holds: it only
    adds one to [mentions] for every mention of that name in the new
    input. *)
Theorem build_ontology_accumulates o (entities : entities) relations n d :
  o_entities o !! n = Some d →
  ∃ d', o_entities (build_ontology o entities relations) !! n = Some d'
        ∧ d_type d' = d_type d
        ∧ a_mentions (d_attributes d')
          = a_mentions (d_attributes d)
            + Z.of_nat (length (occurrences_of n entities))
        ∧ a_first_mention (d_attributes d')
          = a_first_mention (d_attributes d).
Proof.
  intros Hd. unfold build_ontology.
  destruct (add_occurrences_old (occurrences entities) (o_entities o) n d Hd)
    as (d1 & Hd1 & Ht & Hm & Hf).
  rewrite enrich_entities_lookup.
  rewrite (add_relations_preserves relations _ n d1).
  2: { cbn [o_entities]. by rewrite add_entities_occurrences. }
  eexists. split; [reflexivity|]. by split_and!.
Qed.

Lemma build_ontology_accumulates_witness :
  ∃ d', o_entities (build_ontology collapse_ontology collapse_entities
                      collapse_relations) !! u "Орёл" = Some d'
        ∧ d_type d' = PERSON
        ∧ a_mentions (d_attributes d') = 6.
Proof.
  destruct (o_entities collapse_ontology !! u "Орёл") as [d|] eqn:Hd.
  - destruct (build_ontology_accumulates collapse_ontology collapse_entities
                collapse_relations (u "Орёл") d Hd) as (d' & Hd' & Ht & Hm & _).
    exists d'. split; [exact Hd' |].
    vm_compute in Hd. injection Hd as <-. split; [exact Ht | exact Hm].
  - vm_compute in Hd. discriminate Hd.
Defined.

End Pipeline.

(** ** Per-type counters and [get_statistics] *)

Section Counters.

Lemma sum_map_delete {V} (f : pystr → V → Z) (m : gmap pystr V) i x :
  m !! i = Some x → sum_map f m = f i x + sum_map f (delete i m).
Proof.
  intros Hi.
  assert (Hm : m = <[i:=x]> (delete i m))
    by (by rewrite insert_delete_eq, insert_id).
  rewrite Hm at 1. apply sum_map_insert. apply lookup_delete_eq.
Qed.

(** [d[k] += 1] adds one to the sum of a counter. *)
Lemma sum_values_incr (m : gmap pystr Z) t :
  sum_values (incr m t) = sum_values m + 1.
Proof.
  unfold sum_values, incr. destruct (m !! t) as [v|] eqn:Ht; cbn [default].
  - rewrite (sum_map_delete _ m t v Ht), <- insert_delete_eq.
    rewrite sum_map_insert by apply lookup_delete_eq. unfold id. lia.
  - rewrite sum_map_insert by done. lia.
Qed.

Lemma incr_positive (m : gmap pystr Z) t :
  map_Forall (λ _ c, 0 < c) m → map_Forall (λ _ c, 0 < c) (incr m t).
Proof.
  intros Hm. unfold incr. apply map_Forall_insert_2; [| done].
  destruct (m !! t) as [v|] eqn:Ht; cbn [default]; [| lia].
  specialize (Hm t v Ht). cbn in Hm. unfold id. lia.
Qed.

Lemma incr2_lookup (tc : gmap pystr (gmap pystr Z)) k t n :
  default ∅ (incr2 tc k t !! n)
  = if bool_decide (k = n) then incr (default ∅ (tc !! n)) t
    else default ∅ (tc !! n).
Proof.
  unfold incr2. case_bool_decide as Hk.
  - subst. by rewrite lookup_insert_eq.
  - by rewrite lookup_insert_ne.
Qed.

(** The two counters of [_enrich_entities] agree: for every name, the
    per-type counts are positive and add up to the count of relations. *)
Lemma relation_counters_fold (relations : list reldict) (c : gmap pystr Z)
    (tc : gmap pystr (gmap pystr Z)) (n : pystr) :
  sum_values (default ∅ (tc !! n)) = default 0 (c !! n) →
  map_Forall (λ _ v, 0 < v) (default ∅ (tc !! n)) →
  sum_values
    (default ∅
       (fold_left (λ c relation,
                     incr2 (incr2 c (r_source relation) (r_type relation))
                           (r_target relation) (r_type relation))
                  relations tc !! n))
  = default 0
      (fold_left (λ c relation,
                    incr (incr c (r_source relation)) (r_target relation))
                 relations c !! n)
  ∧ map_Forall (λ _ v, 0 < v)
      (default ∅
         (fold_left (λ c relation,
                       incr2 (incr2 c (r_source relation) (r_type relation))
                             (r_target relation) (r_type relation))
                    relations tc !! n)).
Proof.
  revert c tc. induction relations as [| r relations IH]; intros c tc Hsum Hpos;
    cbn [fold_left]; [done|].
  apply IH.
  - rewrite !incr2_lookup, !incr_lookup.
    repeat case_bool_decide; rewrite ?sum_values_incr; lia.
  - rewrite !incr2_lookup.
    repeat case_bool_decide; repeat apply incr_positive; done.
Qed.

(** X13. After [build_ontology], on any builder, every entity carries
    [total_relations] and [relation_types]; the counts of [relation_types]
    are positive and add up to [total_relations]. *)
Theorem enriched_relation_types o (entities : entities) relations n d :
  o_entities (build_ontology o entities relations) !! n = Some d →
  ∃ total types,
    a_total_relations (d_attributes d) = Some total
    ∧ a_relation_types (d_attributes d) = Some types
    ∧ sum_values types = total
    ∧ map_Forall (λ _ count, 0 < count) types.
Proof.
  unfold build_ontology. rewrite enrich_entities_lookup.
  destruct (_ !! n) as [d0|]; [| done]. cbn [fmap option_fmap option_map].
  intros [= <-]. cbn [enrich d_attributes a_total_relations a_relation_types].
  eexists _, _. split_and!; [reflexivity | reflexivity | |].
  - unfold relation_types_count, relation_count.
    apply relation_counters_fold.
    + rewrite !lookup_empty. cbn [default]. apply sum_map_empty.
    + rewrite lookup_empty. cbn [default]. apply map_Forall_empty.
  - unfold relation_types_count.
    eapply (relation_counters_fold _ ∅ ∅ n).
    + rewrite !lookup_empty. cbn [default]. apply sum_map_empty.
    + rewrite lookup_empty. cbn [default]. apply map_Forall_empty.
Qed.

Lemma enriched_relation_types_witness :
  ∃ d total types,
    o_entities collapse_ontology !! u "Тула" = Some d
    ∧ a_total_relations (d_attributes d) = Some total
    ∧ a_relation_types (d_attributes d) = Some types
    ∧ sum_values types = total.
Proof.
  destruct (o_entities collapse_ontology !! u "Тула") as [d|] eqn:Hd.
  - destruct (enriched_relation_types __init__ collapse_entities
                collapse_relations (u "Тула") d Hd)
      as (total & types & Ht & Hty & Hsum & _).
    exists d, total, types.
    split; [reflexivity|]. split; [exact Ht|]. split; [exact Hty | exact Hsum].
  - vm_compute in Hd. discriminate Hd.
Defined.

Lemma sum_map_list_to_map {V} (f : pystr → V → Z) (l : list (pystr * V)) :
  NoDup l.*1 →
  sum_map f (list_to_map l) = foldr (λ kv acc, f kv.1 kv.2 + acc) 0 l.
Proof.
  induction l as [| [k v] l IH]; intros Hnd; cbn [list_to_map foldr].
  - apply sum_map_empty.
  - cbn [fmap list_fmap fst] in Hnd. apply NoDup_cons in Hnd as [Hk Hnd].
    rewrite sum_map_insert by (by apply not_elem_of_list_to_map_1).
    cbn [fst snd]. by rewrite IH.
Qed.

Lemma count_type_cons r relations t :
  count_type (r :: relations) t
  = (if bool_decide (r_type r = t) then 1 else 0) + count_type relations t.
Proof.
  unfold count_type. rewrite filter_cons.
  case_bool_decide; case_decide; try done; cbn [length]; lia.
Qed.

Lemma sum_indicator (a : pystr) (ts : list pystr) :
  NoDup ts → a ∈ ts →
  foldr (λ t acc, (if bool_decide (a = t) then 1 else 0) + acc) 0 ts = 1.
Proof.
  induction ts as [| t ts IH]; intros Hnd Ha; [by apply elem_of_nil in Ha|].
  apply NoDup_cons in Hnd as [Ht Hnd]. cbn [foldr].
  apply elem_of_cons in Ha as [-> | Ha].
  - rewrite bool_decide_eq_true_2 by done.
    assert (H0 : foldr (λ t0 acc, (if bool_decide (t = t0) then 1 else 0) + acc)
                       0 ts = 0).
    { clear IH Hnd. induction ts as [| t' ts IH']; [done|]. cbn [foldr].
      apply not_elem_of_cons in Ht as [Hne Ht].
      rewrite bool_decide_eq_false_2 by done. rewrite IH' by done. lia. }
    lia.
  - rewrite bool_decide_eq_false_2; [rewrite IH by done; lia |].
    intros ->. done.
Qed.

(** Summed over distinct types that cover the relations, the per-type
    counts give the number of relations. *)
Lemma count_types_sum (ts : list pystr) relations :
  NoDup ts → (∀ r, r ∈ relations → r_type r ∈ ts) →
  foldr (λ t acc, count_type relations t + acc) 0 ts
  = Z.of_nat (length relations).
Proof.
  intros Hnd. induction relations as [| r relations IH]; intros Hcover.
  - clear. induction ts as [| t ts IHt]; [reflexivity|]. cbn [foldr].
    rewrite IHt. reflexivity.
  - assert (Hsplit : ∀ l : list pystr,
              foldr (λ t acc, count_type (r :: relations) t + acc) 0 l
              = foldr (λ t acc, (if bool_decide (r_type r = t) then 1 else 0)
                                + acc) 0 l
                + foldr (λ t acc, count_type relations t + acc) 0 l).
    { induction l as [| t l IHl]; [reflexivity|]. cbn [foldr].
      rewrite IHl, count_type_cons. lia. }
    rewrite Hsplit, sum_indicator, IH.
    + cbn [length]. lia.
    + intros r' Hr'. apply Hcover. by apply elem_of_cons; right.
    + done.
    + apply Hcover. by apply elem_of_cons; left.
Qed.

Lemma add_relations_types relations o :
  o_relation_types (fold_left add_relation relations o)
  = o_relation_types o ∪ list_to_set (r_type <$> relations).
Proof.
  revert o. induction relations as [| r relations IH]; intros o;
    cbn [fold_left fmap list_fmap list_to_set].
  - set_solver.
  - rewrite IH. unfold add_relation. cbn [o_relation_types]. set_solver.
Qed.

(** X14. The statistics of an ontology built by a fresh aggregator:
    [total_relations] is the number of input relations, the keys of
    [relation_types] are the types of the relations, and its counts add up
    to [total_relations]. *)
Theorem get_statistics_relation_types (entities : entities) relations :
  let st := get_statistics (build_ontology __init__ entities relations) in
  s_total_relations st = Z.of_nat (length relations)
  ∧ dom (s_relation_types st) = list_to_set (r_type <$> relations)
  ∧ sum_values (s_relation_types st) = s_total_relations st.
Proof.
  cbn zeta. unfold get_statistics.
  cbn [s_total_relations s_relation_types].
  set (o := build_ontology __init__ entities relations).
  assert (Hrel : o_relations o = stored <$> relations)
    by apply build_ontology_relations.
  assert (Htypes : o_relation_types o = list_to_set (r_type <$> relations)).
  { unfold o. rewrite build_ontology_unfold. unfold _enrich_entities.
    cbn [o_relation_types]. rewrite add_relations_types.
    cbn [o_relation_types]. by rewrite (left_id_L ∅ (∪)). }
  assert (Hfst : ((λ t, (t, count_type (o_relations o) t))
                    <$> elements (o_relation_types o)).*1
                 = elements (o_relation_types o)).
  { rewrite <- list_fmap_compose. apply list_fmap_id. }
  split_and!.
  - by rewrite Hrel, length_fmap.
  - unfold set_to_map. rewrite dom_list_to_map_L, Hfst.
    rewrite list_to_set_elements_L. exact Htypes.
  - unfold sum_values, set_to_map.
    rewrite sum_map_list_to_map by (rewrite Hfst; apply NoDup_elements).
    transitivity (foldr (λ t acc, count_type (o_relations o) t + acc) 0
                        (elements (o_relation_types o))).
    { clear Hfst. induction (elements (o_relation_types o)) as [| t l IHl];
        [reflexivity|].
      cbn [fmap list_fmap foldr fst snd]. f_equal. exact IHl. }
    apply count_types_sum; [apply NoDup_elements|].
    intros r Hr. apply elem_of_elements. rewrite Htypes.
    apply elem_of_list_to_set. rewrite Hrel in Hr.
    apply list_elem_of_fmap in Hr as (r0 & -> & Hr0).
    by apply (list_elem_of_fmap_2 r_type) in Hr0.
Qed.

Lemma sum_map_size {V} (m : gmap pystr V) :
  sum_map (λ _ _, 1) m = Z.of_nat (size m).
Proof.
  induction m as [| i x m Hi IH] using map_ind.
  - by rewrite sum_map_empty, map_size_empty.
  - rewrite sum_map_insert, map_size_insert_None by done. lia.
Qed.

(** X15. The statistics of any ontology: the counts of [entity_types] for
    PERSON, LOC and ORG, together with the number of entities of any other
    kind, add up to [total_entities]; entities of another kind, such as
    UNKNOWN, are counted in the total and in no kind. *)
Theorem get_statistics_entity_types o :
  s_entity_types (get_statistics o)
  = [(PERSON, count_kind (o_entities o) PERSON);
     (LOC, count_kind (o_entities o) LOC);
     (ORG, count_kind (o_entities o) ORG)]
  ∧ sum_counts (s_entity_types (get_statistics o)) + count_other (o_entities o)
    = s_total_entities (get_statistics o).
Proof.
  split; [reflexivity|].
  unfold get_statistics. cbn [s_entity_types s_total_entities].
  cbn [fmap list_fmap sum_counts foldr snd].
  rewrite <- sum_map_size. unfold count_kind, count_other.
  change (sum_map (λ _ e, if bool_decide (d_type e = PERSON) then 1 else 0)
                  (o_entities o)
          + (sum_map (λ _ e, if bool_decide (d_type e = LOC) then 1 else 0)
                     (o_entities o)
             + (sum_map (λ _ e, if bool_decide (d_type e = ORG) then 1 else 0)
                        (o_entities o) + 0))
          + sum_map (λ _ e, if bool_decide (d_type e ∈ [PERSON; LOC; ORG])
                            then 0 else 1) (o_entities o)
          = sum_map (λ _ _, 1) (o_entities o)).
  rewrite Z.add_0_r, <- !sum_map_plus. apply sum_map_ext. intros k e _.
  assert (HPL : PERSON ≠ LOC) by discriminate.
  assert (HPO : PERSON ≠ ORG) by discriminate.
  assert (HLO : LOC ≠ ORG) by discriminate.
  rewrite (bool_decide_ext (d_type e ∈ [PERSON; LOC; ORG])
             (d_type e = PERSON ∨ d_type e = LOC ∨ d_type e = ORG))
    by (rewrite !elem_of_cons, elem_of_nil; tauto).
  repeat case_bool_decide; try lia; exfalso; try tauto; congruence.
Qed.

End Counters.

(** ** Names for the OWL export *)

Section OwlNames.

Lemma collapse_underscores_Forall (P : N → Prop) s :
  Forall P s → Forall P (collapse_underscores s).
Proof.
  induction s as [| c s IH]; intros Hs; [done|].
  apply Forall_cons in Hs as [Hc Hs]. cbn [collapse_underscores].
  destruct (_ && _); [by apply IH | constructor; [done | by apply IH]].
Qed.

Lemma collapse_underscores_head s :
  head (collapse_underscores s) = head s.
Proof.
  induction s as [| c s IH]; [done|]. cbn [collapse_underscores].
  destruct (is_underscore c) eqn:Hc; cbn [andb]; [| done].
  destruct s as [| d s]; [done|].
  destruct (is_underscore d) eqn:Hd; [| done].
  rewrite IH. cbn [head]. f_equal.
  unfold is_underscore in *. apply N.eqb_eq in Hc, Hd. congruence.
Qed.

Lemma collapse_underscores_no_double s :
  no_double_underscore (collapse_underscores s) = true.
Proof.
  induction s as [| c s IH]; [done|]. cbn [collapse_underscores].
  destruct (is_underscore c && _) eqn:Hcd; [done|].
  cbn [no_double_underscore]. rewrite IH, andb_true_r.
  pose proof (collapse_underscores_head s) as Hh.
  destruct (collapse_underscores s) as [| d' r]; destruct s as [| d s'];
    cbn [head] in Hh; try discriminate Hh.
  - by rewrite andb_false_r.
  - injection Hh as ->. by rewrite Hcd.
Qed.

Lemma collapse_underscores_id s :
  no_double_underscore s = true → collapse_underscores s = s.
Proof.
  induction s as [| c s IH]; [done|]. cbn [no_double_underscore].
  intros [Hc Hs]%andb_true_iff. cbn [collapse_underscores].
  apply negb_true_iff in Hc. rewrite Hc. f_equal. by apply IH.
Qed.

Lemma lstrip_with_Forall (P : N → Prop) p s :
  Forall P s → Forall P (lstrip_with p s).
Proof.
  induction s as [| c s IH]; intros Hs; [done|]. cbn [lstrip_with].
  destruct (p c); [| done]. apply Forall_cons in Hs as [_ Hs]. by apply IH.
Qed.

Lemma rstrip_with_Forall (P : N → Prop) p s :
  Forall P s → Forall P (rstrip_with p s).
Proof.
  induction s as [| c s IH]; intros Hs; [done|].
  apply Forall_cons in Hs as [Hc Hs]. cbn [rstrip_with].
  specialize (IH Hs). destruct (rstrip_with p s).
  - destruct (p c); by repeat constructor.
  - by constructor.
Qed.

Lemma no_double_underscore_tail c s :
  no_double_underscore (c :: s) = true → no_double_underscore s = true.
Proof. cbn [no_double_underscore]. by intros [_ ?]%andb_true_iff. Qed.

Lemma lstrip_with_no_double p s :
  no_double_underscore s = true →
  no_double_underscore (lstrip_with p s) = true.
Proof.
  induction s as [| c s IH]; intros Hs; [done|]. cbn [lstrip_with].
  destruct (p c); [| done]. apply IH. by eapply no_double_underscore_tail.
Qed.

Lemma lstrip_with_head p s c : head (lstrip_with p s) = Some c → p c = false.
Proof.
  induction s as [| d s IH]; [done|]. cbn [lstrip_with].
  destruct (p d) eqn:Hd; [done|]. cbn [head]. by intros [= <-].
Qed.

Lemma rstrip_with_head p s c :
  head (rstrip_with p s) = Some c → head s = Some c.
Proof.
  destruct s as [| d s]; [done|]. cbn [rstrip_with].
  destruct (rstrip_with p s); [by destruct (p d) | done].
Qed.

Lemma rstrip_with_no_double p s :
  no_double_underscore s = true →
  no_double_underscore (rstrip_with p s) = true.
Proof.
  induction s as [| c s IH]; intros Hs; [done|]. cbn [rstrip_with].
  pose proof (rstrip_with_head p s) as Hh.
  specialize (IH (no_double_underscore_tail _ _ Hs)).
  destruct (rstrip_with p s) as [| d r].
  - destruct (p c); [done|]. cbn [no_double_underscore].
    by rewrite andb_false_r.
  - specialize (Hh d eq_refl). destruct s as [| d' s']; [done|].
    cbn [head] in Hh. injection Hh as ->.
    cbn [no_double_underscore] in *. apply andb_true_iff in Hs as [Hcd _].
    by rewrite Hcd.
Qed.

Lemma rstrip_with_last p s c : last (rstrip_with p s) = Some c → p c = false.
Proof.
  induction s as [| d s IH]; [done|]. cbn [rstrip_with].
  destruct (rstrip_with p s) as [| d' r].
  - destruct (p d) eqn:Hd; [done|]. cbn. by intros [= <-].
  - rewrite last_cons_cons. exact IH.
Qed.

Lemma rstrip_with_id p s :
  (∀ c, last s = Some c → p c = false) → rstrip_with p s = s.
Proof.
  induction s as [| d s IH]; intros Hl; [done|]. cbn [rstrip_with].
  destruct s as [| d' s'].
  - cbn. by rewrite (Hl d eq_refl).
  - rewrite IH; [done|]. intros c Hc. apply Hl. by rewrite last_cons_cons.
Qed.

Lemma last_app_cons (s t : pystr) c d :
  last (s ++ c :: t) = Some d → last (c :: t) = Some d.
Proof.
  induction s as [| a s IH]; [done|]. cbn [app].
  destruct (s ++ c :: t) eqn:Hs; [by destruct s|].
  rewrite last_cons_cons. exact IH.
Qed.

(** The result of [_clean_owl_name] is a valid name. *)
Lemma clean_owl_name_shape name : valid_owl_name (_clean_owl_name name).
Proof.
  unfold _clean_owl_name.
  set (s1 := map _ (replace_char 32 95 name)).
  assert (H1 : Forall (λ c, owl_allowed c = true) s1).
  { unfold s1. apply Forall_map, Forall_forall. intros c _. cbn.
    by destruct (owl_allowed c) eqn:Hc. }
  set (s3 := rstrip_with is_underscore
               (lstrip_with is_underscore (collapse_underscores s1))).
  assert (H3 : Forall (λ c, owl_allowed c = true) s3).
  { by apply rstrip_with_Forall, lstrip_with_Forall,
             collapse_underscores_Forall. }
  assert (Hnd : no_double_underscore s3 = true).
  { apply rstrip_with_no_double, lstrip_with_no_double,
          collapse_underscores_no_double. }
  assert (Hhead : ∀ c, head s3 = Some c → is_underscore c = false).
  { intros c Hc. apply rstrip_with_head in Hc. by eapply lstrip_with_head. }
  assert (Hlast : ∀ c, last s3 = Some c → is_underscore c = false).
  { intros c. apply rstrip_with_last. }
  clearbody s3. clear s1 H1.
  destruct s3 as [| c s].
  { change (valid_owl_name [69; 110; 116; 105; 116; 121]%N).
    split_and!; [done | by repeat constructor | done | |].
    - intros d [= <-]. by vm_compute.
    - intros d [= <-]. by vm_compute. }
  destruct (isdigit_cp c) eqn:Hdigit.
  - change (truthy (u "entity_" ++ c :: s)) with true. cbv iota.
    split_and!.
    + done.
    + apply Forall_app. split; [| done]. by repeat constructor.
    + change (u "entity_" ++ c :: s)
        with ([101; 110; 116; 105; 116; 121]%N ++ 95%N :: c :: s).
      cbn [app no_double_underscore is_underscore N.eqb Pos.eqb andb negb].
      rewrite (Hhead c eq_refl). cbn [andb negb].
      exact (no_double_underscore_tail _ _ Hnd).
    + intros d [= <-]. by vm_compute.
    + intros d Hd. apply Hlast.
      change (u "entity_" ++ c :: s)
        with ([101; 110; 116; 105; 116; 121; 95]%N ++ c :: s) in Hd.
      by apply last_app_cons in Hd.
  - cbn [truthy]. split_and!; [done | done | done | | done].
    intros d [= <-]. split; [by apply Hhead | done].
Qed.

(** A valid name is left as it is. *)
Lemma clean_owl_name_fixed s : valid_owl_name s → _clean_owl_name s = s.
Proof.
  intros (Hne & Hall & Hnd & Hhead & Hlast). unfold _clean_owl_name.
  assert (H1 : replace_char 32 95 s = s).
  { unfold replace_char. clear -Hall. induction s as [| c s IH]; [done|].
    apply Forall_cons in Hall as [Hc Hall]. cbn [map]. rewrite IH by done.
    destruct (N.eqb_spec c 32) as [-> | _]; [discriminate Hc | done]. }
  rewrite H1.
  assert (H2 : map (λ c, if owl_allowed c then c else 95%N) s = s).
  { clear -Hall. induction s as [| c s IH]; [done|].
    apply Forall_cons in Hall as [Hc Hall]. cbn [map]. by rewrite Hc, IH. }
  rewrite H2, (collapse_underscores_id s Hnd).
  destruct s as [| c s]; [done|].
  destruct (Hhead c eq_refl) as [Hus Hdigit].
  cbn [lstrip_with]. rewrite Hus, (rstrip_with_id _ _ Hlast), Hdigit. done.
Qed.

(** X16. [_clean_owl_name] always returns a usable name: it is not empty,
    holds only Latin and Cyrillic letters, digits and underscores, has no
    two underscores in a row, no underscore at either end, and does not
    start with a digit. *)
Theorem clean_owl_name_valid name :
  _clean_owl_name name ≠ []
  ∧ Forall (λ c, owl_allowed c = true) (_clean_owl_name name)
  ∧ no_double_underscore (_clean_owl_name name) = true
  ∧ (∀ c, head (_clean_owl_name name) = Some c →
          is_underscore c = false ∧ isdigit_cp c = false)
  ∧ (∀ c, last (_clean_owl_name name) = Some c → is_underscore c = false).
Proof. exact (clean_owl_name_shape name). Qed.

(** X17. [_clean_owl_name] is idempotent, and the names it leaves unchanged
    are exactly the valid ones. *)
Theorem clean_owl_name_idempotent name :
  _clean_owl_name (_clean_owl_name name) = _clean_owl_name name
  ∧ (_clean_owl_name name = name ↔ valid_owl_name name).
Proof.
  split.
  - apply clean_owl_name_fixed, clean_owl_name_shape.
  - split; [| apply clean_owl_name_fixed].
    intros <-. apply clean_owl_name_shape.
Qed.

End OwlNames.

(** ** The upload filter *)

Section Upload.

Lemma rpartition_None sep s : App.rpartition sep s = None ↔ sep ∉ s.
Proof.
  induction s as [| c s IH]; cbn [App.rpartition].
  - split; [intros _; apply not_elem_of_nil | done].
  - rewrite not_elem_of_cons. destruct (App.rpartition sep s) as [[a b] |].
    + split; [done|]. intros [_ Hs]. by apply IH in Hs.
    + destruct (N.eqb_spec c sep) as [-> | Hc].
      * split; [done | by intros [? _]].
      * split; [| done]. intros _. split; [done | by apply IH].
Qed.

Lemma rpartition_Some sep s a b :
  App.rpartition sep s = Some (a, b) ↔ s = a ++ sep :: b ∧ sep ∉ b.
Proof.
  split.
  - revert a. induction s as [| c s IH]; intros a; cbn [App.rpartition];
      [done|].
    pose proof (rpartition_None sep s) as Hnone.
    destruct (App.rpartition sep s) as [[a' b'] |].
    + intros [= <- <-]. destruct (IH a' eq_refl) as [-> Hb]. done.
    + destruct (N.eqb_spec c sep) as [-> | Hc]; [| done].
      intros [= <- <-]. split; [done | by apply Hnone].
  - intros [-> Hb]. induction a as [| c a IH]; cbn [app App.rpartition].
    + apply rpartition_None in Hb. by rewrite Hb, N.eqb_refl.
    + by rewrite IH.
Qed.

Lemma lower_from_dot (before s : pystr) :
  46%N ∈ s → 46%N ∈ lower_from before s.
Proof.
  assert (H46 : lower_cp 46 = [46%N]) by (vm_compute; reflexivity).
  revert before. induction s as [| c s IH]; intros before Hin.
  - by apply elem_of_nil in Hin.
  - cbn [lower_from]. apply elem_of_app.
    apply elem_of_cons in Hin as [<- | Hin]; [| right; by apply IH].
    left. change ((46 =? 931)%N) with false. cbv iota. rewrite H46.
    by apply elem_of_cons; left.
Qed.

Lemma txt_no_dot (ext : pystr) : lower ext = u "txt" → (46%N ∉ ext).
Proof.
  intros Hext Hdot.
  assert (H : 46%N ∈ lower ext) by (by apply lower_from_dot).
  rewrite Hext in H. revert H. by apply (bool_decide_unpack _).
Qed.

(** X18. [allowed_file] never raises, and accepts exactly the names that end
    in a dot followed by "txt" in any mix of upper and lower case. *)
Theorem allowed_file_spec (filename : pystr) :
  ∃ b, App.allowed_file filename = Ok b
       ∧ (b = true ↔ ∃ stem ext, filename = stem ++ 46%N :: ext
                                  ∧ lower ext = u "txt").
Proof.
  unfold App.allowed_file. case_bool_decide as Hdot.
  - unfold App.rsplit1.
    destruct (App.rpartition 46 filename) as [[a b] |] eqn:Hp;
      [| by apply rpartition_None in Hp].
    eexists. split; [reflexivity|].
    apply rpartition_Some in Hp as [-> Hb].
    rewrite bool_decide_eq_true. unfold App.ALLOWED_EXTENSIONS.
    rewrite list_elem_of_singleton. split.
    + intros Hext. by exists a, b.
    + intros (stem & ext & Hs & Hext).
      assert (Hab : Some (a, b) = Some (stem, ext)).
      { rewrite <- (proj2 (rpartition_Some 46 (a ++ 46%N :: b) a b))
          by done.
        apply rpartition_Some. split; [done | by apply txt_no_dot]. }
      by injection Hab as -> ->.
  - exists false. split; [done|]. split; [done|].
    intros (stem & ext & -> & _). exfalso. apply Hdot.
    apply elem_of_app. right. by apply elem_of_cons; left.
Qed.

End Upload.

(** ** What the grouping returns *)

Section Grouping.

Variable key_of_name : pystr → pystr.

Lemma group_append_miss (groups : list (pystr * group)) (key_lower : pystr)
    (e : entity) :
  key_lower ∉ fst <$> groups →
  (λ kg : pystr * group,
     if bool_decide (kg.1 = key_lower)
     then (kg.1, {| g_name := g_name kg.2;
                    g_members := g_members kg.2 ++ [e] |})
     else kg) <$> groups = groups.
Proof.
  induction groups as [| [k g] groups IH]; [done|].
  cbn [fmap list_fmap fst]. intros [Hk Hks]%not_elem_of_cons.
  cbn [fst snd]. rewrite bool_decide_false by done. f_equal. by apply IH.
Qed.

Lemma group_append_hit (groups : list (pystr * group)) (key_lower key : pystr)
    (e : entity) :
  NoDup (fst <$> groups) → key_lower ∈ fst <$> groups →
  group_append groups key_lower key e
  = (λ kg : pystr * group,
       if bool_decide (kg.1 = key_lower)
       then (kg.1, {| g_name := g_name kg.2;
                      g_members := g_members kg.2 ++ [e] |})
       else kg) <$> groups.
Proof.
  induction groups as [| [k g] groups IH]; intros Hnd Hin.
  - by apply elem_of_nil in Hin.
  - cbn [fmap list_fmap fst] in Hnd, Hin. apply NoDup_cons in Hnd as [Hk Hnd].
    cbn [group_append fmap list_fmap fst snd]. case_bool_decide as Hkk.
    + subst k. f_equal. symmetry. by apply group_append_miss.
    + f_equal. apply IH; [done|].
      apply elem_of_cons in Hin as [-> | Hin]; done.
Qed.

Lemma members_snoc (k : pystr) (mentions : list entity) (e : entity) :
  members key_of_name k (mentions ++ [e])
  = members key_of_name k mentions
    ++ (if bool_decide (lower (key_of_name (e_normalized e)) = k)
        then [e] else []).
Proof.
  unfold members. rewrite filter_app. f_equal.
  rewrite filter_cons, filter_nil.
  destruct (decide _);
    [by rewrite bool_decide_true | by rewrite bool_decide_false].
Qed.

Lemma members_none (k : pystr) (mentions : list entity) :
  (∀ e, e ∈ mentions → lower (key_of_name (e_normalized e)) ≠ k) →
  members key_of_name k mentions = [].
Proof.
  intros H. unfold members. induction mentions as [| e mentions IH]; [done|].
  rewrite filter_cons. destruct (decide _) as [Hk | _].
  - exfalso. by apply (H e); [apply elem_of_cons; left |].
  - apply IH. intros e' He'. apply H. by apply elem_of_cons; right.
Qed.

Lemma bucketed_step (mentions : list entity) (groups : list (pystr * group))
    (e : entity) :
  bucketed key_of_name mentions groups →
  bucketed key_of_name (mentions ++ [e])
    (group_append groups (lower (key_of_name (e_normalized e)))
       (key_of_name (e_normalized e)) e).
Proof.
  intros (Hnd & Hall & Hgroups).
  set (k := lower (key_of_name (e_normalized e))).
  destruct (decide (k ∈ fst <$> groups)) as [Hin | Hnew].
  - rewrite group_append_hit by done. split_and!.
    + rewrite <- list_fmap_compose.
      erewrite (list_fmap_ext _ fst groups); [exact Hnd|].
      intros i [k' g'] _. cbn. by case_bool_decide.
    + intros e' He'. rewrite <- list_fmap_compose.
      erewrite (list_fmap_ext _ fst groups);
        [| intros i [k' g'] _; cbn; by case_bool_decide].
      apply elem_of_app in He' as [He' | He']; [by apply Hall|].
      apply list_elem_of_singleton in He' as ->. exact Hin.
    + apply Forall_fmap. eapply Forall_impl; [exact Hgroups|].
      intros [k' g'] (first & rest & Hg & Hm & Hn). cbn [fst snd] in *.
      unfold compose. cbn beta. cbn [fst snd].
      case_bool_decide as Hk'; cbn [fst snd g_members g_name];
        rewrite members_snoc; fold k.
      * subst k'. rewrite bool_decide_true by done.
        exists first, (rest ++ [e]). by rewrite Hg, Hm.
      * rewrite bool_decide_false by done. rewrite app_nil_r.
        by exists first, rest.
  - rewrite group_append_new by done. split_and!.
    + rewrite fmap_app. cbn [fmap list_fmap fst].
      apply NoDup_app. split_and!; [done | | apply NoDup_singleton].
      intros k' Hk' ->%list_elem_of_singleton. done.
    + intros e' He'. rewrite fmap_app. apply elem_of_app.
      apply elem_of_app in He' as [He' | He']; [left; by apply Hall|].
      apply list_elem_of_singleton in He' as ->. right.
      by apply list_elem_of_singleton.
    + apply Forall_app. split.
      * rewrite Forall_forall in Hgroups. apply Forall_forall.
        intros [k' g'] Hkg.
        destruct (Hgroups _ Hkg) as (first & rest & Hg & Hm & Hn).
        cbn [fst snd] in *. exists first, rest. split_and!; [done | | done].
        rewrite members_snoc. fold k. rewrite bool_decide_false.
        -- by rewrite app_nil_r.
        -- intros Hk. apply Hnew. rewrite Hk.
           by apply (list_elem_of_fmap_2 fst) in Hkg.
      * constructor; [| constructor]. cbn [fst snd]. exists e, [].
        split_and!; [done | | done].
        rewrite members_snoc. fold k. rewrite bool_decide_true by done.
        rewrite members_none; [done|].
        intros e' He' Hk. apply Hnew. rewrite <- Hk. by apply Hall.
Qed.

Lemma group_by_snoc (mentions : list entity) (e : entity) :
  group_by key_of_name (mentions ++ [e])
  = group_append (group_by key_of_name mentions)
      (lower (key_of_name (e_normalized e))) (key_of_name (e_normalized e)) e.
Proof. unfold group_by. by rewrite fold_left_app. Qed.

Lemma group_by_bucketed (mentions : list entity) :
  bucketed key_of_name mentions (group_by key_of_name mentions).
Proof.
  induction mentions as [| e mentions IH] using rev_ind.
  - split_and!; [constructor | by intros e He; apply elem_of_nil in He
                 | constructor].
  - rewrite group_by_snoc. by apply bucketed_step.
Qed.

Lemma normalize_by_grouped (mentions : list entity) :
  grouped_by key_of_name mentions (normalize_by key_of_name mentions).
Proof.
  unfold normalize_by.
  destruct (group_by_bucketed mentions) as (Hnd & Hall & Hgroups).
  revert Hnd Hall Hgroups. generalize (group_by key_of_name mentions).
  intros groups Hnd Hall Hgroups.
  assert (Hkey : Forall (λ kg : pystr * group,
                           ∃ c, canonical kg = Some c
                                ∧ lower (e_normalized c) = kg.1
                                ∧ represents key_of_name mentions c) groups).
  { eapply Forall_impl; [exact Hgroups|].
    intros [k g] (first & rest & Hg & Hm & Hn). cbn [fst snd] in *.
    assert (Hk : lower (g_name g) = k).
    { assert (Hf : first ∈ members key_of_name k mentions)
        by (rewrite Hm; by apply elem_of_cons; left).
      unfold members in Hf. apply list_elem_of_filter in Hf as [Hf _].
      by rewrite Hn. }
    unfold canonical. cbn [snd]. rewrite Hg. eexists.
    split; [reflexivity|]. cbn [e_normalized]. split; [done|].
    exists first, rest. cbn [e_normalized]. rewrite Hk.
    split; [done|]. by rewrite Hn. }
  clear Hgroups. split_and!.
  - clear Hall. induction groups as [| kg groups IH]; [constructor|].
    apply Forall_cons in Hkey as [(c & Hc & Hk & _) Hkey].
    cbn [fmap list_fmap] in Hnd. apply NoDup_cons in Hnd as [Hkg Hnd].
    cbn [omap list_omap]. rewrite Hc. cbn [fmap list_fmap].
    apply NoDup_cons. split; [| by apply IH].
    intros Hin. apply Hkg. rewrite <- Hk.
    apply list_elem_of_fmap in Hin as (c' & Hc' & Hin). rewrite Hc'.
    apply list_elem_of_omap in Hin as (kg' & Hin & Hcan).
    rewrite Forall_forall in Hkey.
    destruct (Hkey _ Hin) as (c'' & Hc'' & Hk'' & _).
    assert (c'' = c') by congruence. subst c''. rewrite Hk''.
    by apply (list_elem_of_fmap_2 fst).
  - intros e He. specialize (Hall e He).
    apply list_elem_of_fmap in Hall as (kg & Hk & Hin).
    rewrite Forall_forall in Hkey.
    destruct (Hkey _ Hin) as (c & Hc & Hkc & _). exists c. split.
    + apply list_elem_of_omap. by exists kg.
    + by rewrite Hkc, Hk.
  - apply Forall_forall. intros c Hc.
    apply list_elem_of_omap in Hc as (kg & Hin & Hcan).
    rewrite Forall_forall in Hkey.
    destruct (Hkey _ Hin) as (c' & Hc' & _ & Hrep). congruence.
Qed.

Lemma group_append_total (groups : list (pystr * group))
    (key_lower key : pystr) (e : entity) :
  foldr (λ (kg : pystr * group) acc,
           Z.of_nat (length (g_members kg.2)) + acc) 0
        (group_append groups key_lower key e)
  = foldr (λ (kg : pystr * group) acc,
             Z.of_nat (length (g_members kg.2)) + acc) 0 groups + 1.
Proof.
  induction groups as [| [k g] groups IH]; cbn [group_append]; [done|].
  case_bool_decide; cbn [foldr snd g_members].
  - rewrite length_app. cbn [length]. lia.
  - rewrite IH. lia.
Qed.

Lemma canonical_total (groups : list (pystr * group)) :
  total_mentions (omap canonical groups)
  = foldr (λ (kg : pystr * group) acc,
             Z.of_nat (length (g_members kg.2)) + acc) 0 groups.
Proof.
  induction groups as [| [k g] groups IH]; [done|].
  cbn [omap list_omap foldr]. unfold canonical at 1. cbn [snd].
  destruct (g_members g) as [| first rest] eqn:Hg.
  - rewrite IH. cbn [length]. lia.
  - unfold total_mentions in *. cbn [foldr e_mentions_count default].
    rewrite IH. unfold id. done.
Qed.

Lemma normalize_by_total (mentions : list entity) :
  total_mentions (normalize_by key_of_name mentions) = Z.of_nat (length mentions).
Proof.
  unfold normalize_by. rewrite canonical_total.
  induction mentions as [| e mentions IH] using rev_ind; [done|].
  rewrite group_by_snoc, group_append_total, IH.
  rewrite length_app. cbn [length]. lia.
Qed.

(** When the mentions have pairwise distinct keys, each is returned under
    its key and counted once, in the order of the input. *)
Lemma normalize_by_distinct (out : list entity) :
  NoDup ((λ e, lower (key_of_name (e_normalized e))) <$> out) →
  normalize_by key_of_name out
  = (λ e, {| e_text := e_text e;
             e_start := e_start e;
             e_end := e_end e;
             e_normalized := key_of_name (e_normalized e);
             e_mentions_count := Some 1 |}) <$> out.
Proof.
  intros Hnd. unfold normalize_by, group_by.
  rewrite group_by_distinct by done. cbn [app]. clear Hnd.
  induction out as [| e out IH]; [done|].
  cbn [fmap list_fmap omap list_omap]. unfold canonical at 1.
  cbn [snd g_members g_name length]. cbn [fmap list_fmap] in IH.
  by rewrite IH.
Qed.

Lemma normalize_by_fixed (out : list entity) :
  NoDup ((λ c, lower (e_normalized c)) <$> out) →
  Forall (λ c, key_of_name (e_normalized c) = e_normalized c) out →
  normalize_by key_of_name out = with_count 1 <$> out.
Proof.
  intros Hnd Hfix. rewrite normalize_by_distinct.
  - apply list_fmap_ext. intros i c Hc.
    rewrite Forall_forall in Hfix.
    rewrite (Hfix c) by (by eapply list_elem_of_lookup_2). done.
  - erewrite list_fmap_ext; [exact Hnd|]. intros i c Hc. cbn beta.
    rewrite Forall_forall in Hfix.
    by rewrite (Hfix c) by (by eapply list_elem_of_lookup_2).
Qed.

Lemma canonical_length (mentions : list entity)
    (groups : list (pystr * group)) :
  bucketed key_of_name mentions groups →
  length (omap canonical groups) = length groups.
Proof.
  intros (_ & _ & Hgroups).
  induction groups as [| [k g] groups IH]; [done|].
  apply Forall_cons in Hgroups as [(first & rest & Hg & _) Hgroups].
  cbn [fst snd] in Hg. cbn [omap list_omap]. unfold canonical at 1.
  cbn [snd]. rewrite Hg. cbn [length]. f_equal. by apply IH.
Qed.

Lemma normalize_by_fixed_inv (out : list entity) :
  normalize_by key_of_name out = with_count 1 <$> out →
  Forall (λ c, key_of_name (e_normalized c) = e_normalized c) out.
Proof.
  intros Heq.
  assert (Hkeys : NoDup ((λ e, lower (key_of_name (e_normalized e))) <$> out)).
  { pose proof (group_by_bucketed out) as Hb.
    pose proof (canonical_length _ _ Hb) as Hlen.
    fold (normalize_by key_of_name out) in Hlen.
    rewrite Heq, length_fmap in Hlen.
    destruct Hb as (Hnd & _ & Hgroups).
    assert (Hsub : fst <$> group_by key_of_name out
                   ⊆+ (λ e, lower (key_of_name (e_normalized e))) <$> out).
    { apply NoDup_submseteq; [done|]. intros k Hk.
      apply list_elem_of_fmap in Hk as ([k' g] & -> & Hkg).
      rewrite Forall_forall in Hgroups.
      destruct (Hgroups _ Hkg) as (first & rest & _ & Hm & _).
      cbn [fst snd] in *.
      assert (Hf : first ∈ members key_of_name k' out)
        by (rewrite Hm; by apply elem_of_cons; left).
      unfold members in Hf. apply list_elem_of_filter in Hf as [Hf Hin].
      apply list_elem_of_fmap. by exists first. }
    apply submseteq_length_Permutation in Hsub.
    - by rewrite <- Hsub.
    - rewrite !length_fmap. lia. }
  rewrite normalize_by_distinct in Heq by done. clear Hkeys.
  induction out as [| c out IH]; [constructor|].
  cbn [fmap list_fmap] in Heq. injection Heq as Hc Heq.
  constructor; [exact Hc | by apply IH].
Qed.

(** A second run returns the entities of the first, counted once each,
    exactly when every returned name is its own key. *)
Lemma normalize_by_twice_iff (mentions : list entity) :
  normalize_by key_of_name (normalize_by key_of_name mentions)
  = with_count 1 <$> normalize_by key_of_name mentions
  ↔ ∀ c, c ∈ normalize_by key_of_name mentions →
         key_of_name (e_normalized c) = e_normalized c.
Proof.
  split.
  - intros Heq. apply Forall_forall. by apply normalize_by_fixed_inv.
  - intros Hfix. apply normalize_by_fixed; [| by apply Forall_forall].
    by destruct (normalize_by_grouped mentions) as [Hnd _].
Qed.

End Grouping.

(** ** The normalisation step *)

Section Normalisation.

(** X19. [_normalize_persons] and [_normalize_locations] return one entity
    for each grouping key of the input, compared without regard to case:
    the keys of the result are pairwise distinct, every input mention has
    its key in the result, and each returned entity is the first mention of
    its key, renamed to that mention's key and counted with the later
    mentions of the same key. *)
Theorem normalize_grouped (normal_form : pystr → pystr)
    (persons locations : list entity) :
  grouped_by person_key persons (_normalize_persons persons)
  ∧ grouped_by (_get_location_base_form normal_form) locations
      (_normalize_locations normal_form locations).
Proof. split; apply normalize_by_grouped. Qed.

(** X20. No mention is lost or counted twice: the mention counts of the
    returned entities add up to the number of input mentions. *)
Theorem normalize_conserves_mentions (normal_form : pystr → pystr)
    (persons locations : list entity) :
  total_mentions (_normalize_persons persons) = Z.of_nat (length persons)
  ∧ total_mentions (_normalize_locations normal_form locations)
    = Z.of_nat (length locations).
Proof. split; apply normalize_by_total. Qed.

(** X21. The grouping keys are stable: the key of a person key is that key,
    and the base form of a base form is that base form when the analyser,
    followed by the capitalisation of [_get_location_base_form], keeps a
    word free of whitespace and hyphens and leaves its own result as it
    is. *)
Theorem grouping_keys_idempotent (normal_form : pystr → pystr)
    (person location : pystr) :
  (∀ w, is_component w → is_component (base_word normal_form w)) →
  (∀ w, is_component w →
        base_word normal_form (base_word normal_form w)
        = base_word normal_form w) →
  person_key (person_key person) = person_key person
  ∧ _get_location_base_form normal_form
      (_get_location_base_form normal_form location)
    = _get_location_base_form normal_form location.
Proof.
  intros Hcomponent Hstable. split.
  - apply person_key_idempotent.
  - by apply base_form_idempotent.
Qed.

Lemma grouping_keys_idempotent_witness :
  person_key (person_key (u "Иван Петрович Сидоров"))
  = person_key (u "Иван Петрович Сидоров")
  ∧ _get_location_base_form (λ w, w)
      (_get_location_base_form (λ w, w) (u " Ростов-на-Дону "))
    = _get_location_base_form (λ w, w) (u " Ростов-на-Дону ").
Proof.
  apply (grouping_keys_idempotent (λ w, w) (u "Иван Петрович Сидоров")
           (u " Ростов-на-Дону ")).
  - intros w Hw. rewrite base_word_id. exact Hw.
  - intros w _. rewrite !base_word_id. reflexivity.
Defined.

End Normalisation.

(** ** The normalisation step applied twice *)

Section Idempotence.

(** The mention counts of a second run differ from those of the first:
    Иван, mentioned twice, is counted twice by the first run and once by
    the second. *)
Lemma normalize_persons_recounts :
  e_mentions_count <$> _normalize_persons twice_ivan = [Some 2]
  ∧ e_mentions_count <$> _normalize_persons (_normalize_persons twice_ivan)
    = [Some 1]
  ∧ _normalize_persons (_normalize_persons twice_ivan)
    ≠ _normalize_persons twice_ivan.
Proof.
  split_and!; [vm_compute; reflexivity | vm_compute; reflexivity |].
  intros H. apply (f_equal (fmap e_mentions_count)) in H.
  vm_compute in H. discriminate H.
Qed.

(** C8, amended. Applied to its own output, the normalisation step returns
    the same entities in the same order, with the same keys and display
    names, and counts one mention for each of them. For persons this holds
    on every input. For locations it holds exactly when every name that
    the first run returns is its own base form; this is so whenever the
    base form of the base form of each input name is that base form. *)
Theorem normalize_twice (normal_form : pystr → pystr)
    (persons locations : list entity) :
  _normalize_persons (_normalize_persons persons)
  = with_count 1 <$> _normalize_persons persons
  ∧ (_normalize_locations normal_form
       (_normalize_locations normal_form locations)
     = with_count 1 <$> _normalize_locations normal_form locations
     ↔ ∀ c, c ∈ _normalize_locations normal_form locations →
            _get_location_base_form normal_form (e_normalized c)
            = e_normalized c)
  ∧ ((∀ l, l ∈ locations →
           _get_location_base_form normal_form
             (_get_location_base_form normal_form (e_normalized l))
           = _get_location_base_form normal_form (e_normalized l)) →
     _normalize_locations normal_form
       (_normalize_locations normal_form locations)
     = with_count 1 <$> _normalize_locations normal_form locations).
Proof.
  split_and!.
  - apply normalize_by_twice. intros e _. apply person_key_idempotent.
  - apply normalize_by_twice_iff.
  - apply normalize_by_twice.
Qed.

(** The witness: an analyser that finds every word in its normal form. *)
Lemma normalize_twice_witness :
  _normalize_persons (_normalize_persons twice_ivan)
  = with_count 1 <$> _normalize_persons twice_ivan
  ∧ _normalize_locations (λ w, w) (_normalize_locations (λ w, w) twice_saratov)
    = with_count 1 <$> _normalize_locations (λ w, w) twice_saratov.
Proof.
  destruct (normalize_twice (λ w, w) twice_ivan twice_saratov)
    as (Hpersons & _ & Hlocations).
  split; [exact Hpersons|]. apply Hlocations. intros l _.
  apply base_form_idempotent.
  - intros w Hw. rewrite base_word_id. exact Hw.
  - intros w _. rewrite !base_word_id. reflexivity.
Defined.

End Idempotence.
